(** * TalentScout hiring assistant: the conversation engine and its text utilities

    A shallow embedding of [utils.py], [models.py], [llm_client.py] and
    [conversation.py], and the properties of the engine stated over it.

    Python text is a sequence of Unicode code points; the regular expressions
    of [utils.py] are kept as syntax trees, run by a backtracking matcher that
    follows the priorities of Python's [re] module. *)

From Stdlib Require Import String Ascii.
From Stdlib Require Import List Bool Arith NArith ZArith QArith Qround Lia.
Import ListNotations.

Set Implicit Arguments.
Close Scope Q_scope.

(* ===================================================================== *)
(** ** Text *)
(* ===================================================================== *)

Module Text.

Definition char := N.
Definition str := list char.

(** An ASCII literal as Python text. *)
Definition py (s : String.string) : str :=
  map Ascii.N_of_ascii (String.list_ascii_of_string s).
Arguments py s%_string.

Definition LF : char := 10%N.
Definition DQ : char := 34%N.          (* the double quote *)

Definition chr_eqb (a b : char) : bool := N.eqb a b.

Fixpoint str_eqb (a b : str) : bool :=
  match a, b with
  | [], [] => true
  | x :: a', y :: b' => chr_eqb x y && str_eqb a' b'
  | _, _ => false
  end.

Definition between (lo hi c : char) : bool := (N.leb lo c && N.leb c hi)%bool.

(** [str.isspace] on one code point; [\s] of a [str] pattern is the same set. *)
Definition isspace (c : char) : bool :=
  (between 9 13 c || between 28 32 c || chr_eqb c 133 || chr_eqb c 160
   || chr_eqb c 5760 || between 8192 8202 c || chr_eqb c 8232
   || chr_eqb c 8233 || chr_eqb c 8239 || chr_eqb c 8287
   || chr_eqb c 12288)%N%bool.

Fixpoint dropwhile (p : char -> bool) (s : str) : str :=
  match s with
  | [] => []
  | c :: s' => if p c then dropwhile p s' else s
  end.

Definition lstrip_by (p : char -> bool) (s : str) : str := dropwhile p s.
Definition rstrip_by (p : char -> bool) (s : str) : str := rev (dropwhile p (rev s)).
Definition strip_by (p : char -> bool) (s : str) : str := rstrip_by p (lstrip_by p s).

(** [s.strip()], [s.rstrip()] and [s.strip(chars)]. *)
Definition strip (s : str) : str := strip_by isspace s.
Definition rstrip (s : str) : str := rstrip_by isspace s.
Definition strip_chars (chars : str) (s : str) : str :=
  strip_by (fun c => existsb (chr_eqb c) chars) s.

(** [s.startswith(prefix)]. *)
Fixpoint startswith (s prefix : str) {struct prefix} : bool :=
  match prefix, s with
  | [], _ => true
  | p :: prefix', c :: s' => chr_eqb c p && startswith s' prefix'
  | _ :: _, [] => false
  end.

(** [s.split(sep)] for a one-character separator. *)
Fixpoint split_on (sep : char) (s : str) : list str :=
  match s with
  | [] => [[]]
  | c :: s' =>
      if chr_eqb c sep then [] :: split_on sep s'
      else match split_on sep s' with
           | [] => [[c]]
           | w :: ws => (c :: w) :: ws
           end
  end.

(** [l[-n:]] for [n > 0]. *)
Definition last_n {A} (n : nat) (l : list A) : list A := skipn (length l - n) l.

(** A Python value's truth, for text. *)
Definition nonempty (s : str) : bool := match s with [] => false | _ => true end.

End Text.
Import Text.

(* ===================================================================== *)
(** ** Regular expressions, as [re] runs them *)
(* ===================================================================== *)

Module Re.

(** The patterns of [utils.py] repeat single characters only, so a
    repetition carries a character class. *)
Inductive regex :=
| Bol                                              (* ^ *)
| Eol                                              (* $ *)
| Lit (s : str)                                    (* literal text *)
| Rep (lazy : bool) (lo : nat) (hi : option nat) (cls : char -> bool)
                                                   (* cls{lo,hi}, with ? for lazy *)
| Grp (r : regex)                                  (* ( r ): group 1 *)
| Seq (r1 r2 : regex).

Declare Scope re_scope.
Delimit Scope re_scope with re.
Bind Scope re_scope with regex.
Infix ";;" := Seq (at level 61, right associativity) : re_scope.

Definition one (cls : char -> bool) : regex := Rep false 1 (Some 1) cls.
Definition star (cls : char -> bool) : regex := Rep false 0 None cls.
Definition plus (cls : char -> bool) : regex := Rep false 1 None cls.
Definition opt (cls : char -> bool) : regex := Rep false 0 (Some 1) cls.
Definition star_lazy (cls : char -> bool) : regex := Rep true 0 None cls.
Definition plus_lazy (cls : char -> bool) : regex := Rep true 1 None cls.

Definition any : char -> bool := fun _ => true.                 (* . with DOTALL *)
Definition dot : char -> bool := fun c => negb (chr_eqb c LF).  (* . *)
Definition just (c : char) : char -> bool := chr_eqb c.
Definition oneof (cs : str) : char -> bool := fun c => existsb (chr_eqb c) cs.
Definition noneof (cs : str) : char -> bool := fun c => negb (existsb (chr_eqb c) cs).

(** A matcher state: offset in the subject, text still to read, group 1. *)
Record mstate := MState { m_pos : nat; m_rest : str; m_grp : option str }.

Definition orelse {A} (a b : option A) : option A :=
  match a with Some x => Some x | None => b end.

Definition may_take (hi : option nat) : bool :=
  match hi with Some 0 => false | _ => true end.
Definition took (hi : option nat) : option nat :=
  match hi with Some n => Some (pred n) | None => None end.

(** [rep] reads a repetition and hands each admissible length to the
    continuation, longest first (greedy) or shortest first (lazy). *)
Fixpoint rep (lazy : bool) (cls : char -> bool) (lo : nat) (hi : option nat)
    (k : mstate -> option mstate) (pos : nat) (g : option str) (s : str)
    {struct s} : option mstate :=
  if lazy then
    match (match lo with 0 => k (MState pos s g) | S _ => None end) with
    | Some r => Some r
    | None =>
        match s with
        | c :: s' =>
            if (cls c && may_take hi)%bool
            then rep lazy cls (pred lo) (took hi) k (S pos) g s'
            else None
        | [] => None
        end
    end
  else
    match (match s with
           | c :: s' =>
               if (cls c && may_take hi)%bool
               then rep lazy cls (pred lo) (took hi) k (S pos) g s'
               else None
           | [] => None
           end) with
    | Some r => Some r
    | None => match lo with 0 => k (MState pos s g) | S _ => None end
    end.

Fixpoint lit (l : str) (k : mstate -> option mstate) (pos : nat)
    (g : option str) (s : str) {struct l} : option mstate :=
  match l with
  | [] => k (MState pos s g)
  | a :: l' =>
      match s with
      | c :: s' => if chr_eqb c a then lit l' k (S pos) g s' else None
      | [] => None
      end
  end.

Fixpoint run (r : regex) (k : mstate -> option mstate) (st : mstate)
    : option mstate :=
  match r with
  | Bol => match m_pos st with 0 => k st | S _ => None end
  | Eol =>
      match m_rest st with
      | [] => k st
      | [c] => if chr_eqb c LF then k st else None
      | _ :: _ :: _ => None
      end
  | Lit l => lit l k (m_pos st) (m_grp st) (m_rest st)
  | Rep lazy lo hi cls => rep lazy cls lo hi k (m_pos st) (m_grp st) (m_rest st)
  | Grp r' =>
      run r'
        (fun st' =>
           k (MState (m_pos st') (m_rest st')
                (Some (firstn (m_pos st' - m_pos st) (m_rest st)))))
        st
  | Seq r1 r2 => run r1 (run r2 k) st
  end.

(** The pattern tried at one offset. *)
Definition match_at (r : regex) (pos : nat) (s : str) : option mstate :=
  run r Some (MState pos s None).

(** [re.match] followed by [.group(1)]: group 1 of a match at the start of
    the subject. Every pattern matched this way has its group on the path of
    each of its matches. *)
Definition group1 (st : mstate) : str :=
  match m_grp st with Some g => g | None => [] end.

Definition re_match (r : regex) (s : str) : option str :=
  option_map group1 (match_at r 0 s).

(** [re.search]: the leftmost match, as (start, whole match, group 1). *)
Fixpoint search_from (r : regex) (pos : nat) (s : str)
    : option (nat * str * option str) :=
  match match_at r pos s with
  | Some st => Some (pos, firstn (m_pos st - pos) s, m_grp st)
  | None =>
      match s with
      | [] => None
      | _ :: s' => search_from r (S pos) s'
      end
  end.

Definition re_search (r : regex) (s : str) : option (nat * str * option str) :=
  search_from r 0 s.

(** [re.sub]: every non-overlapping match, left to right, replaced by
    [repl]. [skip] counts the characters of the last match still to pass. *)
Fixpoint sub_from (r : regex) (repl : str) (pos : nat) (skip : nat) (s : str)
    : str :=
  match skip with
  | S n =>
      match s with
      | [] => []
      | _ :: s' => sub_from r repl (S pos) n s'
      end
  | 0 =>
      match match_at r pos s with
      | Some st =>
          match m_pos st - pos with
          | 0 =>
              repl ++ match s with
                      | [] => []
                      | c :: s' => c :: sub_from r repl (S pos) 0 s'
                      end
          | S n =>
              repl ++ match s with
                      | [] => []
                      | _ :: s' => sub_from r repl (S pos) n s'
                      end
          end
      | None =>
          match s with
          | [] => []
          | c :: s' => c :: sub_from r repl (S pos) 0 s'
          end
      end
  end.

Definition re_sub (r : regex) (repl : str) (s : str) : str :=
  sub_from r repl 0 0 s.

End Re.
Import Re.

(* ===================================================================== *)
(** ** utils.py *)
(* ===================================================================== *)

(** [re.sub(r'\s+', ' ', text)] *)
Definition RE_SPACES : regex := plus isspace.

Definition sanitize_input (text : str) : str :=
  let text := strip text in
  let text := re_sub RE_SPACES (py " ") text in
  firstn 2000 text.


(** r'```json\s*(\{.*?\})\s*```' with DOTALL *)
Definition RE_FENCED_GROUP : regex :=
  (Lit (py "```json") ;; star isspace ;;
   Grp (Lit (py "{") ;; star_lazy any ;; Lit (py "}")) ;;
   star isspace ;; Lit (py "```"))%re.

(** r'\{[^{}]*"extracted"[^{}]*\{.*?\}.*?\}' with DOTALL *)
Definition RE_RAW : regex :=
  (Lit (py "{") ;; star (noneof (py "{}")) ;;
   Lit (DQ :: py "extracted" ++ [DQ]) ;; star (noneof (py "{}")) ;;
   Lit (py "{") ;; star_lazy any ;; Lit (py "}") ;;
   star_lazy any ;; Lit (py "}"))%re.

(** r'```json\s*\{.*?\}\s*```' with DOTALL *)
Definition RE_FENCED : regex :=
  (Lit (py "```json") ;; star isspace ;;
   Lit (py "{") ;; star_lazy any ;; Lit (py "}") ;;
   star isspace ;; Lit (py "```"))%re.

(** r'\n{3,}' *)
Definition RE_BLANK_LINES : regex := Rep false 3 None (just LF).

Definition strip_json_from_response (response : str) : str :=
  let cleaned := re_sub RE_FENCED [] response in
  let cleaned := re_sub RE_RAW [] cleaned in
  let cleaned := re_sub RE_BLANK_LINES [LF; LF] (strip cleaned) in
  cleaned.

(** The small blue diamond and the bullet of the question format. *)
Definition DIAMOND : char := 128313%N.
Definition BULLET : char := 8226%N.

(** r'^#{1,4}\s*[<diamond>\*]*\s*\[?\s*(.+?)\s*\]?\s*\**\s*$' *)
Definition RE_TECH_HEADING : regex :=
  (Bol ;; Rep false 1 (Some 4) (just 35%N) ;; star isspace ;;
   star (oneof [DIAMOND; 42%N]) ;; star isspace ;;
   opt (just 91%N) ;; star isspace ;;
   Grp (plus_lazy dot) ;;
   star isspace ;; opt (just 93%N) ;; star isspace ;;
   star (just 42%N) ;; star isspace ;; Eol)%re.

(** r'^\*\*(.+?)\*\*\s*$' *)
Definition RE_TECH_BOLD : regex :=
  (Bol ;; Lit (py "**") ;; Grp (plus_lazy dot) ;; Lit (py "**") ;;
   star isspace ;; Eol)%re.

(** r'^[\d]+[.\)]\s*(.+)$'. The class [\d] of a [str] pattern is every
    Unicode decimal digit, [isdecimal] here. *)
Definition RE_NUMBERED (isdecimal : char -> bool) : regex :=
  (Bol ;; plus isdecimal ;; one (oneof (py ".)")) ;; star isspace ;;
   Grp (plus dot) ;; Eol)%re.

(** r'^[-<bullet>]\s*(.+)$' *)
Definition RE_BULLETED : regex :=
  (Bol ;; one (oneof [45%N; BULLET]) ;; star isspace ;;
   Grp (plus dot) ;; Eol)%re.

Record TechQuestionGroup := TechGroup {
  technology : str;
  questions : list str
}.

(** The three locals of the scanning loop. *)
Record scan := Scan {
  result : list TechQuestionGroup;
  current_tech : option str;
  current_questions : list str
}.

Definition tech_active (t : option str) : bool :=
  match t with Some (_ :: _) => true | _ => false end.

(** [if current_tech and current_questions: result.append(...)] *)
Definition flush (st : scan) : list TechQuestionGroup :=
  match current_tech st with
  | Some tech =>
      if (nonempty tech && negb (Nat.eqb (length (current_questions st)) 0))%bool
      then result st ++ [TechGroup tech (current_questions st)]
      else result st
  | None => result st
  end.

Definition scan_line (isdecimal : char -> bool) (st : scan) (line : str) : scan :=
  let line := strip line in
  if negb (nonempty line) then st
  else
    match orelse (re_match RE_TECH_HEADING line) (re_match RE_TECH_BOLD line) with
    | Some g =>
        Scan (flush st) (Some (strip (strip_chars [DIAMOND] (strip g)))) []
    | None =>
        match orelse (re_match (RE_NUMBERED isdecimal) line)
                (re_match RE_BULLETED line) with
        | Some g =>
            if tech_active (current_tech st) then
              let question := strip g in
              if (nonempty question && Nat.ltb 10 (length question))%bool
              then Scan (result st) (current_tech st)
                     (current_questions st ++ [question])
              else st
            else st
        | None => st
        end
    end.

Definition parse_technical_questions (isdecimal : char -> bool) (response : str)
    : list TechQuestionGroup :=
  flush (fold_left (scan_line isdecimal) (split_on LF response) (Scan [] None [])).

(** [check_exit_intent]; [lower] is [str.lower]. *)
Definition check_exit_intent (lower : str -> str) (message : str)
    (exit_keywords : list str) : bool :=
  let normalized := lower (strip message) in
  if existsb (str_eqb normalized) exit_keywords then true
  else existsb (startswith normalized) exit_keywords.

(* ===================================================================== *)
(** ** utils.py, the remaining functions *)
(* ===================================================================== *)

Definition is_some {A} (o : option A) : bool :=
  match o with Some _ => true | None => false end.

Definition isalpha_ascii (c : char) : bool :=
  (between 97%N 122%N c || between 65%N 90%N c)%bool.

(** [[a-zA-Z0-9._%+-]] and [[a-zA-Z0-9.-]] *)
Definition email_local (c : char) : bool :=
  (isalpha_ascii c || between 48%N 57%N c || oneof (py "._%+-") c)%bool.
Definition email_domain (c : char) : bool :=
  (isalpha_ascii c || between 48%N 57%N c || oneof (py ".-") c)%bool.

(** r'^[a-zA-Z0-9._%+-]+@[a-zA-Z0-9.-]+\.[a-zA-Z]{2,}$' *)
Definition RE_EMAIL : regex :=
  (Bol ;; plus email_local ;; Lit (py "@") ;; plus email_domain ;;
   Lit (py ".") ;; Rep false 2 None isalpha_ascii ;; Eol)%re.

(** [bool(re.match(pattern, email.strip()))] *)
Definition validate_email (email : str) : bool :=
  is_some (match_at RE_EMAIL 0 (strip email)).

(** [[\s\-\(\)\.]] *)
Definition phone_separator (c : char) : bool :=
  (isspace c || oneof (py "-().") c)%bool.

(** r'[\s\-\(\)\.]+' *)
Definition RE_PHONE_SEPARATORS : regex := plus phone_separator.

(** r'^\+?\d{7,15}$'. The class [\d] is every Unicode decimal digit,
    [isdecimal] here. *)
Definition RE_PHONE (isdecimal : char -> bool) : regex :=
  (Bol ;; opt (just 43%N) ;; Rep false 7 (Some 15) isdecimal ;; Eol)%re.

Definition validate_phone (isdecimal : char -> bool) (phone : str) : bool :=
  let cleaned := re_sub RE_PHONE_SEPARATORS [] (strip phone) in
  is_some (match_at (RE_PHONE isdecimal) 0 cleaned).

(** [re.split] for a pattern without groups: the texts between the
    matches. [skip] counts the characters of the last match still to pass;
    the first text of the result is the one being read. *)
Fixpoint split_from (r : regex) (pos : nat) (skip : nat) (s : str) : list str :=
  match skip with
  | S n =>
      match s with
      | [] => [[]]
      | _ :: s' => split_from r (S pos) n s'
      end
  | 0 =>
      let copy :=
        match s with
        | [] => [[]]
        | c :: s' =>
            match split_from r (S pos) 0 s' with
            | [] => [[c]]
            | w :: ws => (c :: w) :: ws
            end
        end in
      match match_at r pos s with
      | Some st =>
          match m_pos st - pos with
          | 0 => [] :: copy
          | S n =>
              [] :: match s with
                    | [] => [[]]
                    | _ :: s' => split_from r (S pos) n s'
                    end
          end
      | None => copy
      end
  end.

Definition re_split (r : regex) (s : str) : list str := split_from r 0 0 s.

(** r'[,;/\n]+' *)
Definition RE_TECH_DELIMITERS : regex := plus (oneof (py ",;/" ++ [LF])).

(** [t.strip().strip('-').strip(bullet).strip()] *)
Definition clean_tech (t : str) : str :=
  strip (strip_chars [BULLET] (strip_chars (py "-") (strip t))).

(** One turn of the loop over [cleaned]: the lowered names seen, and the
    result. *)
Definition keep_tech (lower : str -> str) (acc : list str * list str) (tech : str)
    : list str * list str :=
  let '(seen, result) := acc in
  if (nonempty tech && negb (existsb (str_eqb (lower tech)) seen))%bool
  then (lower tech :: seen, result ++ [tech])
  else (seen, result).

Definition format_tech_stack (lower : str -> str) (tech_stack : str) : list str :=
  let techs := re_split RE_TECH_DELIMITERS tech_stack in
  let cleaned := map clean_tech techs in
  snd (fold_left (keep_tech lower) cleaned ([], [])).







(* ===================================================================== *)
(** ** config.py *)
(* ===================================================================== *)

Definition EXIT_KEYWORDS : list str :=
  [py "bye"; py "goodbye"; py "exit"; py "quit"; py "end"; py "stop";
   py "thanks bye"; py "thank you bye"; py "see you"; py "later";
   py "done"; py "finish"; py "end conversation"; py "close";
   py "no more"; py "that's all"; py "i'm done"; py "im done"].

Definition MODEL_NAME : str := py "llama-3.3-70b-versatile".
Definition TEMPERATURE : Q := (7 # 10)%Q.
Definition MAX_TOKENS : N := 1024%N.

(* ===================================================================== *)
(** ** models.py *)
(* ===================================================================== *)

Inductive ConversationState :=
| GREETING | GATHERING_INFO | TECH_QUESTIONS | ANSWERING_QUESTIONS
| CLOSING | ENDED.

Definition state_value (s : ConversationState) : str :=
  match s with
  | GREETING => py "greeting"
  | GATHERING_INFO => py "gathering_info"
  | TECH_QUESTIONS => py "tech_questions"
  | ANSWERING_QUESTIONS => py "answering_questions"
  | CLOSING => py "closing"
  | ENDED => py "ended"
  end.

Definition state_eqb (a b : ConversationState) : bool :=
  match a, b with
  | GREETING, GREETING | GATHERING_INFO, GATHERING_INFO
  | TECH_QUESTIONS, TECH_QUESTIONS
  | ANSWERING_QUESTIONS, ANSWERING_QUESTIONS
  | CLOSING, CLOSING | ENDED, ENDED => true
  | _, _ => false
  end.

Record CandidateInfo := Candidate {
  full_name : option str;
  email : option str;
  phone : option str;
  years_of_experience : option str;
  desired_positions : option str;
  current_location : option str;
  tech_stack : option str
}.

(** The attribute names [getattr] and [setattr] are called with: the keys of
    [CANDIDATE_FIELDS], which are the fields of [CandidateInfo]. *)
Inductive Field :=
| FullName | Email | Phone | YearsOfExperience | DesiredPositions
| CurrentLocation | TechStack.


Definition CANDIDATE_FIELDS : list Field :=
  [FullName; Email; Phone; YearsOfExperience; DesiredPositions;
   CurrentLocation; TechStack].

Definition field_name (f : Field) : str :=
  match f with
  | FullName => py "full_name"
  | Email => py "email"
  | Phone => py "phone"
  | YearsOfExperience => py "years_of_experience"
  | DesiredPositions => py "desired_positions"
  | CurrentLocation => py "current_location"
  | TechStack => py "tech_stack"
  end.

Definition field_of_name (name : str) : option Field :=
  find (fun f => str_eqb name (field_name f)) CANDIDATE_FIELDS.

Definition getattr (c : CandidateInfo) (f : Field) : option str :=
  match f with
  | FullName => full_name c
  | Email => email c
  | Phone => phone c
  | YearsOfExperience => years_of_experience c
  | DesiredPositions => desired_positions c
  | CurrentLocation => current_location c
  | TechStack => tech_stack c
  end.

Definition setattr (c : CandidateInfo) (f : Field) (v : str) : CandidateInfo :=
  match f with
  | FullName =>
      Candidate (Some v) (email c) (phone c) (years_of_experience c)
        (desired_positions c) (current_location c) (tech_stack c)
  | Email =>
      Candidate (full_name c) (Some v) (phone c) (years_of_experience c)
        (desired_positions c) (current_location c) (tech_stack c)
  | Phone =>
      Candidate (full_name c) (email c) (Some v) (years_of_experience c)
        (desired_positions c) (current_location c) (tech_stack c)
  | YearsOfExperience =>
      Candidate (full_name c) (email c) (phone c) (Some v)
        (desired_positions c) (current_location c) (tech_stack c)
  | DesiredPositions =>
      Candidate (full_name c) (email c) (phone c) (years_of_experience c)
        (Some v) (current_location c) (tech_stack c)
  | CurrentLocation =>
      Candidate (full_name c) (email c) (phone c) (years_of_experience c)
        (desired_positions c) (Some v) (tech_stack c)
  | TechStack =>
      Candidate (full_name c) (email c) (phone c) (years_of_experience c)
        (desired_positions c) (current_location c) (Some v)
  end.

(** [CandidateInfo()] *)
Definition empty_candidate : CandidateInfo :=
  Candidate None None None None None None None.

(** [self.model_dump()]: the fields in declaration order. *)
Definition model_dump (c : CandidateInfo) : list (str * option str) :=
  map (fun f => (field_name f, getattr c f)) CANDIDATE_FIELDS.

Definition get_filled_fields (c : CandidateInfo) : list (str * str) :=
  flat_map (fun kv => match snd kv with
                      | Some v => [(fst kv, v)]
                      | None => []
                      end) (model_dump c).

Definition get_missing_fields (c : CandidateInfo) : list str :=
  flat_map (fun kv => match snd kv with
                      | Some _ => []
                      | None => [fst kv]
                      end) (model_dump c).

Definition is_complete (c : CandidateInfo) : bool :=
  Nat.eqb (length (get_missing_fields c)) 0.

(** [int(x)] of a number: truncation toward zero. *)
Definition py_int (x : Q) : Z := Z.quot (Qnum x) (Zpos (Qden x)).

(** [int((filled / total) * 100)]. The quotient is taken exactly; on the
    eight values the count can take, the float computation truncates to the
    same integer. *)
Definition get_completion_percentage (c : CandidateInfo) : Z :=
  let total := length (model_dump c) in
  let filled := length (get_filled_fields c) in
  py_int ((inject_Z (Z.of_nat filled) / inject_Z (Z.of_nat total)) * 100)%Q.

Fixpoint join (sep : str) (l : list str) : str :=
  match l with
  | [] => []
  | [x] => x
  | x :: l' => x ++ sep ++ join sep l'
  end.

Definition field_label (f : Field) : str :=
  match f with
  | FullName => 128100%N :: py " Name"
  | Email => 128231%N :: py " Email"
  | Phone => 128241%N :: py " Phone"
  | YearsOfExperience => 128197%N :: py " Experience"
  | DesiredPositions => 128188%N :: py " Position(s)"
  | CurrentLocation => 128205%N :: py " Location"
  | TechStack => 128736%N :: 65039%N :: py " Tech Stack"
  end.

Definition get_summary (c : CandidateInfo) : str :=
  join [LF]
    (map (fun f =>
            match getattr c f with
            | Some (x :: v) => py "**" ++ field_label f ++ py "**: " ++ x :: v
            | _ => py "**" ++ field_label f ++ py "**: _Pending..._"
            end) CANDIDATE_FIELDS).

Record SentimentResult := Sentiment {
  sentiment : str;
  confidence : Q
}.

Definition neutral_sentiment : SentimentResult := Sentiment (py "neutral") (1 # 2)%Q.

(* ===================================================================== *)
(** ** What the engine takes from outside the repository *)
(* ===================================================================== *)

(** Values read by [json.loads]. *)
#[warnings="-register-all"]
Inductive json :=
| JNull
| JBool (b : bool)
| JNum (q : Q)
| JStr (s : str)
| JArr (l : list json)
| JObj (kv : list (str * json)).

(** [bool(v)] *)
Definition truthy (v : json) : bool :=
  match v with
  | JNull => false
  | JBool b => b
  | JNum q => negb (Qeq_bool q 0)
  | JStr s => nonempty s
  | JArr l => match l with [] => false | _ => true end
  | JObj kv => match kv with [] => false | _ => true end
  end.

(** [d.get(key)] and [d.get(key, default)] *)
Fixpoint dict_get (key : str) (kv : list (str * json)) : option json :=
  match kv with
  | [] => None
  | (k, v) :: kv' => if str_eqb key k then Some v else dict_get key kv'
  end.

Definition dict_get_default (key : str) (default : json) (kv : list (str * json)) : json :=
  match dict_get key kv with Some v => v | None => default end.

(** What [hasattr], [getattr] and [setattr] make of a name that is none of
    the seven fields of the profile. *)
Inductive attribute :=
| Missing      (* [hasattr] is false *)
| Bound        (* [getattr] gives a value other than None: a method, a
                  class attribute *)
| Settable     (* [getattr] gives None and [setattr] stores the text on the
                  object, outside the seven fields *)
| ReadOnly.    (* [getattr] gives None and [setattr] raises AttributeError:
                  a property without a setter, as pydantic's [model_extra] *)

(** The Python runtime and libraries, as far as the engine calls them. *)
Record Python := {
  (** [str.lower] *)
  str_lower : str -> str;
  (** [json.loads]; [None] is [JSONDecodeError] *)
  json_loads : str -> option json;
  (** [str(v)] of a value that is not text *)
  str_of_value : json -> str;
  (** the text an f-string gives a dict of texts *)
  repr_dict : list (str * str) -> str;
  (** what pydantic makes of a value for a [float] field; [None] is
      [ValidationError] *)
  as_float : json -> option Q;
  (** the attribute of a [CandidateInfo] that a name other than its seven
      fields stands for *)
  attribute_of : str -> attribute
}.

(** [str(value)] *)
Definition py_str (rt : Python) (v : json) : str :=
  match v with
  | JStr s => s
  | _ => str_of_value rt v
  end.

(** The templates of [prompts.py], each as the function of its slots that
    [str.format] computes. Their wording steers the model, not the engine. *)
Record Prompts := {
  SYSTEM_PROMPT : str -> str -> str;            (* state_context, candidate_context *)
  GREETING_PROMPT : str;
  INFO_GATHERING_PROMPT : (Field -> str) -> str; (* one slot a field *)
  TECH_QUESTIONS_PROMPT : str -> str -> str -> str -> str;
                                   (* name, experience, positions, tech_stack *)
  FALLBACK_PROMPT : str -> str -> str;          (* message, state *)
  CLOSING_PROMPT : str -> str -> str;           (* name, positions *)
  EXIT_DETECTED_PROMPT : str -> str -> str;     (* name, info_status *)
  SENTIMENT_PROMPT : str -> str                 (* message *)
}.

Inductive Role := system | user | assistant.

Record Message := Msg { role : Role; content : str }.

(** The arguments of one [chat.completions.create] call. *)
Record Request := {
  rq_model : str;
  rq_messages : list Message;
  rq_temperature : Q;
  rq_max_tokens : N
}.

(** The provider: what the [n]-th call returns, [None] when it raises. *)
Definition Provider := nat -> Request -> option str.

(* ===================================================================== *)
(** ** utils.py, continued: the structured block *)
(* ===================================================================== *)

(** [json.loads] on a matched text. The text opens with a brace, so what is
    read, if anything, is a dict. *)
Definition loads_dict (rt : Python) (text : str) : option (list (str * json)) :=
  match json_loads rt text with
  | Some (JObj kv) => Some kv
  | _ => None
  end.

Definition extract_json_from_response (rt : Python) (response : str)
    : option (list (str * json)) :=
  let fenced :=
    match re_search RE_FENCED_GROUP response with
    | Some (_, _, Some g) => loads_dict rt g
    | _ => None
    end in
  match fenced with
  | Some d => Some d
  | None =>
      match re_search RE_RAW response with
      | Some (_, whole, _) => loads_dict rt whole
      | None => None
      end
  end.

(* ===================================================================== *)
(** ** llm_client.py *)
(* ===================================================================== *)

Record LLMClient := Client {
  model : str;
  requests : list Request          (* the calls made so far, oldest first *)
}.

Definition APOLOGY : str :=
  py "I apologize, but I'm experiencing a brief technical issue. " ++
  py "Could you please repeat your last message? I want to make sure " ++
  py "I capture everything correctly. " ++ [128591%N].

Section Client.

Variable rt : Python.
Variable provider : Provider.

Definition get_chat_response (messages : list Message) (system_prompt : str)
    (temperature : Q) (max_tokens : N) (l : LLMClient) : str * LLMClient :=
  let full_messages :=
    (if nonempty system_prompt then [Msg system system_prompt] else [])
    ++ messages in
  let rq := Build_Request (model l) full_messages temperature max_tokens in
  let l' := Client (model l) (requests l ++ [rq]) in
  match provider (length (requests l)) rq with
  | Some text => (text, l')
  | None => (APOLOGY, l')
  end.

Definition generate_technical_questions (tech_stack name experience positions : str)
    (prompt_template : str -> str -> str -> str -> str) (l : LLMClient)
    : str * LLMClient :=
  let prompt := prompt_template name experience positions tech_stack in
  get_chat_response [Msg user prompt] [] (6 # 10)%Q 2048%N l.

Definition analyze_sentiment (message : str) (prompt_template : str -> str)
    (l : LLMClient) : SentimentResult * LLMClient :=
  let prompt := prompt_template message in
  let '(response, l') :=
    get_chat_response [Msg user prompt] [] (3 # 10)%Q 100%N l in
  let result :=
    match json_loads rt (strip response) with
    | Some (JObj data) =>
        match dict_get_default (py "sentiment") (JStr (py "neutral")) data,
              as_float rt (dict_get_default (py "confidence") (JNum (1 # 2)%Q) data)
        with
        | JStr s, Some c => Sentiment s c
        | _, _ => neutral_sentiment
        end
    | _ => neutral_sentiment
    end in
  (result, l').

End Client.

(* ===================================================================== *)
(** ** conversation.py *)
(* ===================================================================== *)

Record ConversationManager := Manager {
  llm : LLMClient;
  state : ConversationState;
  candidate : CandidateInfo;
  messages : list Message;
  technical_questions_asked : bool;
  current_sentiment : str;
  raw_tech_questions : str
}.

(** [ConversationManager(llm_client)] *)
Definition new_manager (l : LLMClient) : ConversationManager :=
  Manager l GREETING empty_candidate [] false (py "neutral") [].

Inductive exn := AttributeError.

Inductive outcome (A : Type) :=
| Returns (a : A)
| Raises (e : exn).
Arguments Returns {A} a.
Arguments Raises {A} e.

(** A method of the manager: it may update [self] and may raise; what it
    wrote before raising stays written. *)
Definition M (A : Type) := ConversationManager -> outcome A * ConversationManager.

Definition ret {A} (a : A) : M A := fun s => (Returns a, s).
Definition raise {A} (e : exn) : M A := fun s => (Raises e, s).
Definition bind {A B} (m : M A) (f : A -> M B) : M B :=
  fun s => match m s with
           | (Returns a, s') => f a s'
           | (Raises e, s') => (Raises e, s')
           end.
Definition gets {A} (f : ConversationManager -> A) : M A := fun s => (Returns (f s), s).
Definition modify (f : ConversationManager -> ConversationManager) : M unit :=
  fun s => (Returns tt, f s).

Declare Scope method_scope.
Delimit Scope method_scope with method.
Notation "x <- m ;; k" := (bind m (fun x => k))
  (at level 61, m at next level, right associativity) : method_scope.
Notation "m ;; k" := (bind m (fun _ => k))
  (at level 61, right associativity) : method_scope.

(** [if b: m] *)
Definition when (b : bool) (m : M unit) : M unit := if b then m else ret tt.

Definition set_llm l s :=
  Manager l (state s) (candidate s) (messages s) (technical_questions_asked s)
    (current_sentiment s) (raw_tech_questions s).
Definition set_state v s :=
  Manager (llm s) v (candidate s) (messages s) (technical_questions_asked s)
    (current_sentiment s) (raw_tech_questions s).
Definition set_candidate v s :=
  Manager (llm s) (state s) v (messages s) (technical_questions_asked s)
    (current_sentiment s) (raw_tech_questions s).
Definition append_message m s :=
  Manager (llm s) (state s) (candidate s) (messages s ++ [m])
    (technical_questions_asked s) (current_sentiment s) (raw_tech_questions s).
Definition set_technical_questions_asked v s :=
  Manager (llm s) (state s) (candidate s) (messages s) v
    (current_sentiment s) (raw_tech_questions s).
Definition set_current_sentiment v s :=
  Manager (llm s) (state s) (candidate s) (messages s)
    (technical_questions_asked s) v (raw_tech_questions s).
Definition set_raw_tech_questions v s :=
  Manager (llm s) (state s) (candidate s) (messages s)
    (technical_questions_asked s) (current_sentiment s) v.

(** A call on [self.llm]. *)
Definition call_llm {A} (f : LLMClient -> A * LLMClient) : M A :=
  fun s => let '(a, l') := f (llm s) in (Returns a, set_llm l' s).

(** [x or default] for an optional text. *)
Definition or_default (x : option str) (default : str) : str :=
  match x with
  | Some (c :: v) => c :: v
  | _ => default
  end.

Definition NOT_YET_COLLECTED : str := 10060%N :: py " Not yet collected".

(** [value and value != "null"] *)
Definition usable (value : json) : bool :=
  (truthy value
   && match value with
      | JStr s => negb (str_eqb s (py "null"))
      | _ => true
      end)%bool.

(** One turn of the loop over [extracted.items()]; [None] is the
    AttributeError of [setattr]. [hasattr] holds of the seven fields, and
    for any other name the runtime tells what it stands for: the turn
    passes over a name [hasattr] does not hold of or whose value is not
    None, and [setattr] on a name whose value is None either stores the
    text outside the seven fields or raises. (A name stored so is not None
    afterwards, which again leaves the fields as they are.) *)
Definition merge_item (rt : Python) (c : CandidateInfo) (item : str * json)
    : option CandidateInfo :=
  let '(field, value) := item in
  if usable value then
    match field_of_name field with
    | Some f =>
        match getattr c f with
        | None => Some (setattr c f (py_str rt value))
        | Some _ => Some c
        end
    | None =>
        match attribute_of rt field with
        | ReadOnly => None
        | Missing | Bound | Settable => Some c
        end
    end
  else Some c.

(** The loop: whether it raised, and the profile it leaves. The fields
    written before [setattr] raises stay written. *)
Fixpoint merge_extracted (rt : Python) (extracted : list (str * json))
    (c : CandidateInfo) : outcome unit * CandidateInfo :=
  match extracted with
  | [] => (Returns tt, c)
  | item :: rest =>
      match merge_item rt c item with
      | Some c' => merge_extracted rt rest c'
      | None => (Raises AttributeError, c)
      end
  end.

(** The loop as a step of the handler, on [self.candidate]. *)
Definition merge_into_candidate (rt : Python) (extracted : list (str * json))
    : M unit :=
  fun s =>
    let '(o, c') := merge_extracted rt extracted (candidate s) in
    (o, set_candidate c' s).

Section Engine.

Variable rt : Python.
Variable prompts : Prompts.
Variable provider : Provider.

Local Open Scope method_scope.

Definition state_descriptions (st : ConversationState) (c : CandidateInfo) : str :=
  match st with
  | GREETING =>
      py "You are greeting the candidate for the first time. Welcome them and ask for their name."
  | GATHERING_INFO =>
      py "You are collecting candidate information. Missing fields: "
      ++ join (py ", ") (get_missing_fields c)
      ++ py ". Collected: " ++ repr_dict rt (get_filled_fields c)
  | TECH_QUESTIONS =>
      py "You have collected all candidate info and are now presenting technical screening questions based on their tech stack."
  | ANSWERING_QUESTIONS =>
      py "The candidate is answering technical questions. Evaluate their responses and guide them through the remaining questions."
  | CLOSING =>
      py "The screening is complete. Thank the candidate and inform them about next steps."
  | ENDED => py "The conversation has ended."
  end.

Definition _build_system_prompt : M str :=
  gets (fun s =>
          SYSTEM_PROMPT prompts (state_descriptions (state s) (candidate s))
            (get_summary (candidate s))).

Definition chat (messages : list Message) (system_prompt : str) : M str :=
  call_llm (get_chat_response provider messages system_prompt TEMPERATURE MAX_TOKENS).

Definition generate_greeting : M str :=
  sp <- _build_system_prompt ;;
  response <- chat [Msg user (GREETING_PROMPT prompts)] sp ;;
  modify (set_state GATHERING_INFO) ;;
  modify (append_message (Msg assistant response)) ;;
  ret response.

Definition _generate_tech_questions : M str :=
  c <- gets candidate ;;
  call_llm
    (generate_technical_questions provider
       (or_default (tech_stack c) (py "General Programming"))
       (or_default (full_name c) (py "Candidate"))
       (or_default (years_of_experience c) (py "Unknown"))
       (or_default (desired_positions c) (py "Software Engineer"))
       (TECH_QUESTIONS_PROMPT prompts)).

Definition _handle_info_gathering (user_message : str) : M str :=
  c <- gets candidate ;;
  let field_status := fun f => or_default (getattr c f) NOT_YET_COLLECTED in
  let prompt := INFO_GATHERING_PROMPT prompts field_status in
  sp <- _build_system_prompt ;;
  history <- gets messages ;;
  response <- chat history (sp ++ [LF; LF] ++ prompt) ;;
  (match extract_json_from_response rt response with
   | Some (item :: items) =>
       let extracted_json := item :: items in
       match dict_get (py "extracted") extracted_json with
       | Some (JObj extracted) =>
           merge_into_candidate rt extracted ;;
           c' <- gets candidate ;;
           when (truthy (dict_get_default (py "all_collected") JNull extracted_json)
                 || is_complete c')
             (modify (set_state TECH_QUESTIONS))
       | Some _ => raise AttributeError        (* [extracted.items()] *)
       | None => ret tt
       end
   | _ => ret tt
   end) ;;
  c' <- gets candidate ;;
  st <- gets state ;;
  when (is_complete c' && negb (state_eqb st TECH_QUESTIONS))
    (modify (set_state TECH_QUESTIONS)) ;;
  let clean_response := strip_json_from_response response in
  st <- gets state ;;
  asked <- gets technical_questions_asked ;;
  if (state_eqb st TECH_QUESTIONS && negb asked)%bool then
    tech_questions <- _generate_tech_questions ;;
    modify (set_raw_tech_questions tech_questions) ;;
    modify (set_technical_questions_asked true) ;;
    modify (set_state ANSWERING_QUESTIONS) ;;
    ret (rstrip clean_response ++ [LF; LF] ++ tech_questions)
  else ret clean_response.

Definition _handle_tech_interaction (user_message : str) : M str :=
  sp <- _build_system_prompt ;;
  history <- gets messages ;;
  chat history sp.

Definition _handle_closing : M str :=
  c <- gets candidate ;;
  let prompt :=
    CLOSING_PROMPT prompts (or_default (full_name c) (py "there"))
      (or_default (desired_positions c) (py "the position")) in
  sp <- _build_system_prompt ;;
  response <- chat [Msg user prompt] sp ;;
  modify (set_state ENDED) ;;
  ret response.

(** [str(n)] of an integer. *)
Fixpoint digits (u : Decimal.uint) : str :=
  match u with
  | Decimal.Nil => []
  | Decimal.D0 u' => 48%N :: digits u'
  | Decimal.D1 u' => 49%N :: digits u'
  | Decimal.D2 u' => 50%N :: digits u'
  | Decimal.D3 u' => 51%N :: digits u'
  | Decimal.D4 u' => 52%N :: digits u'
  | Decimal.D5 u' => 53%N :: digits u'
  | Decimal.D6 u' => 54%N :: digits u'
  | Decimal.D7 u' => 55%N :: digits u'
  | Decimal.D8 u' => 56%N :: digits u'
  | Decimal.D9 u' => 57%N :: digits u'
  end.

Definition str_of_int (z : Z) : str :=
  match Z.to_int z with
  | Decimal.Pos u => digits u
  | Decimal.Neg u => 45%N :: digits u
  end.

Definition _handle_exit : M str :=
  c <- gets candidate ;;
  let info_status :=
    if is_complete c then py "Complete"
    else py "Partial (" ++ str_of_int (get_completion_percentage c)
         ++ py "% complete)" in
  let prompt :=
    EXIT_DETECTED_PROMPT prompts (or_default (full_name c) (py "there"))
      info_status in
  sp <- _build_system_prompt ;;
  response <- chat [Msg user prompt] sp ;;
  modify (set_state ENDED) ;;
  ret response.

Definition _handle_fallback (user_message : str) : M str :=
  st <- gets state ;;
  let prompt := FALLBACK_PROMPT prompts user_message (state_value st) in
  sp <- _build_system_prompt ;;
  history <- gets messages ;;
  chat (last_n 6 history) (sp ++ [LF; LF] ++ prompt).

(** [self.llm.analyze_sentiment] returns in every case, so the handler of
    [_analyze_sentiment] has nothing to catch. *)
Definition _analyze_sentiment (message : str) : M str :=
  result <- call_llm (analyze_sentiment rt provider message (SENTIMENT_PROMPT prompts)) ;;
  modify (set_current_sentiment (sentiment result)) ;;
  ret (sentiment result).

Definition process_message (user_message : str) : M (str * str) :=
  let user_message := sanitize_input user_message in
  modify (append_message (Msg user user_message)) ;;
  if check_exit_intent (str_lower rt) user_message EXIT_KEYWORDS then
    response <- _handle_exit ;;
    mood <- gets current_sentiment ;;
    ret (response, mood)
  else
    sentiment_label <- _analyze_sentiment user_message ;;
    st <- gets state ;;
    response <-
      match st with
      | GATHERING_INFO => _handle_info_gathering user_message
      | TECH_QUESTIONS | ANSWERING_QUESTIONS => _handle_tech_interaction user_message
      | CLOSING => _handle_closing
      | _ => _handle_fallback user_message
      end ;;
    modify (append_message (Msg assistant response)) ;;
    ret (response, sentiment_label).

Definition get_state : M ConversationState := gets state.
Definition get_candidate_info : M CandidateInfo := gets candidate.
Definition get_messages : M (list Message) := gets messages.
Definition is_ended : M bool := gets (fun s => state_eqb (state s) ENDED).

End Engine.

(* ===================================================================== *)
(** ** Conversations *)
(* ===================================================================== *)

(** The state a call leaves behind, whether it returned or raised. *)
Definition after {A} (m : M A) (s : ConversationManager) : ConversationManager :=
  snd (m s).

(** The engine states of a conversation: a fresh manager, greeted once (the
    caller's contract for [generate_greeting]), and any number of messages. *)
Inductive reachable (rt : Python) (prompts : Prompts) (provider : Provider)
    : ConversationManager -> Prop :=
| reach_new : forall l, reachable rt prompts provider (new_manager l)
| reach_greeting : forall s,
    reachable rt prompts provider s ->
    state s = GREETING ->
    reachable rt prompts provider (after (generate_greeting rt prompts provider) s)
| reach_message : forall s m,
    reachable rt prompts provider s ->
    reachable rt prompts provider (after (process_message rt prompts provider m) s).

(** What [get_chat_response] returns for a request, given the calls made
    before it. *)
Definition reply (provider : Provider) (l : LLMClient) (rq : Request) : str :=
  match provider (length (requests l)) rq with
  | Some text => text
  | None => APOLOGY
  end.

Definition log (l : LLMClient) (rq : Request) : LLMClient :=
  Client (model l) (requests l ++ [rq]).

(** The messages of a request: the system prompt, unless empty, comes first. *)
Definition with_system (system_prompt : str) (msgs : list Message) : list Message :=
  (if nonempty system_prompt then [Msg system system_prompt] else []) ++ msgs.

Definition system_prompt_of (rt : Python) (prompts : Prompts)
    (s : ConversationManager) : str :=
  SYSTEM_PROMPT prompts (state_descriptions rt (state s) (candidate s))
    (get_summary (candidate s)).

(** The request [analyze_sentiment] sends. *)
Definition sentiment_request (prompts : Prompts) (message : str)
    (s : ConversationManager) : Request :=
  Build_Request (model (llm s)) [Msg user (SENTIMENT_PROMPT prompts message)]
    (3 # 10)%Q 100%N.

(** The request [_handle_info_gathering] sends. *)
Definition gathering_request (rt : Python) (prompts : Prompts)
    (s : ConversationManager) : Request :=
  Build_Request (model (llm s))
    (Msg system
       (system_prompt_of rt prompts s ++ [LF; LF]
        ++ INFO_GATHERING_PROMPT prompts
             (fun f => or_default (getattr (candidate s) f) NOT_YET_COLLECTED))
     :: messages s)
    TEMPERATURE MAX_TOKENS.

(** The request [_generate_tech_questions] sends for a profile. *)
Definition questions_request (prompts : Prompts) (l : LLMClient)
    (c : CandidateInfo) : Request :=
  Build_Request (model l)
    [Msg user
       (TECH_QUESTIONS_PROMPT prompts
          (or_default (full_name c) (py "Candidate"))
          (or_default (years_of_experience c) (py "Unknown"))
          (or_default (desired_positions c) (py "Software Engineer"))
          (or_default (tech_stack c) (py "General Programming")))]
    (6 # 10)%Q 2048%N.

(** The request [_handle_fallback] sends. *)
Definition fallback_request (rt : Python) (prompts : Prompts)
    (user_message : str) (s : ConversationManager) : Request :=
  Build_Request (model (llm s))
    (Msg system
       (system_prompt_of rt prompts s ++ [LF; LF]
        ++ FALLBACK_PROMPT prompts user_message (state_value (state s)))
     :: last_n 6 (messages s))
    TEMPERATURE MAX_TOKENS.

(** The request [_handle_exit] sends. *)
Definition exit_request (rt : Python) (prompts : Prompts)
    (s : ConversationManager) : Request :=
  Build_Request (model (llm s))
    (with_system (system_prompt_of rt prompts s)
       [Msg user
          (EXIT_DETECTED_PROMPT prompts
             (or_default (full_name (candidate s)) (py "there"))
             (if is_complete (candidate s) then py "Complete"
              else py "Partial ("
                   ++ str_of_int (get_completion_percentage (candidate s))
                   ++ py "% complete)"))])
    TEMPERATURE MAX_TOKENS.

(** The manager as a turn's handler finds it: the user entry appended and
    the mood of the message analysed. *)
Definition turn_start (rt : Python) (prompts : Prompts) (provider : Provider)
    (user_message : str) (s : ConversationManager) : ConversationManager :=
  after (_analyze_sentiment rt prompts provider (sanitize_input user_message))
    (append_message (Msg user (sanitize_input user_message)) s).

(** Several messages in a row; a call that raises leaves the manager as it
    is at that point, and the conversation goes on from there. *)
Definition run_messages (rt : Python) (prompts : Prompts) (provider : Provider)
    (ms : list str) (s : ConversationManager) : ConversationManager :=
  fold_left (fun s m => after (process_message rt prompts provider m) s) ms s.

(** [round(x)]: to the nearest integer, ties to the even one. *)
Definition py_round (x : Q) : Z :=
  let f := Qfloor x in
  match Qcompare (x - inject_Z f) (1 # 2) with
  | Lt => f
  | Gt => (f + 1)%Z
  | Eq => if Z.even f then f else (f + 1)%Z
  end.

(** [re.sub(r'\s+', ' ', text)] read as a loop: a run of whitespace leaves
    one space. [in_run] tells that the previous character was whitespace. *)
Fixpoint squeeze (in_run : bool) (s : str) : str :=
  match s with
  | [] => []
  | c :: s' =>
      if isspace c then
        if in_run then squeeze true s' else 32%N :: squeeze true s'
      else c :: squeeze false s'
  end.

Definition no_brace (c : char) : bool := negb (chr_eqb c 123%N || chr_eqb c 125%N).
Definition no_backtick (c : char) : bool := negb (chr_eqb c 96%N).

(* ===================================================================== *)
(** ** Sample data *)
(* ===================================================================== *)

Definition sample_questions : str :=
  py "### Tech A" ++ [LF] ++
  py "1. What is recursion and why does it matter?" ++ [LF] ++
  py "2. Explain Big-O notation please." ++ [LF] ++
  py "### Tech B" ++ [LF] ++
  py "1. Short?" ++ [LF] ++
  py "2. What is a closure and how is it used?".

Definition quoted (s : str) : str := DQ :: s ++ [DQ].

(** The text of a fenced block. *)
Definition fenced_block (ws1 body ws2 : str) : str :=
  py "```json" ++ ws1 ++ py "{" ++ body ++ py "}" ++ ws2 ++ py "```".

(** A structured block as the extraction prompt asks for it: a name, an
    empty e-mail, and [all_collected] set. *)
Definition sample_body : str :=
  quoted (py "extracted") ++ py ": {"
  ++ quoted (py "full_name") ++ py ": " ++ quoted (py "Ann") ++ py ", "
  ++ quoted (py "email") ++ py ": " ++ quoted [] ++ py "}, "
  ++ quoted (py "all_collected") ++ py ": true".

Definition sample_payload : str := py "{" ++ sample_body ++ py "}".

Definition sample_payload_value : json :=
  JObj [(py "extracted",
         JObj [(py "full_name", JStr (py "Ann")); (py "email", JStr [])]);
        (py "all_collected", JBool true)].

(** A reply: a line of text, the block, and nothing after it. *)
Definition sample_response : str :=
  (py "Thanks, Ann!" ++ [LF]) ++ fenced_block [LF] sample_body [LF] ++ [].

(** [str.lower] on ASCII text. *)
Definition ascii_lower (s : str) : str :=
  map (fun c => if between 65%N 90%N c then (c + 32)%N else c) s.

(** The attributes of the examples: the read-only [model_extra] and the
    method [model_dump] of pydantic, and no other. *)
Definition sample_attribute (name : str) : attribute :=
  if str_eqb name (py "model_extra") then ReadOnly
  else if str_eqb name (py "model_dump") then Bound
  else Missing.

(** A runtime for the examples: [json.loads] reads the sample payload and
    rejects the other texts the examples hand it, none of which is JSON. *)
Definition sample_python : Python := {|
  str_lower := ascii_lower;
  json_loads := fun text =>
    if str_eqb text sample_payload then Some sample_payload_value else None;
  str_of_value := fun _ => py "?";
  repr_dict := fun d => join (py ", ") (map (fun kv => fst kv ++ py ": " ++ snd kv) d);
  as_float := fun v => match v with JNum q => Some q | _ => None end;
  attribute_of := sample_attribute
|}.

(** A digit class for the examples: the ASCII digits, which [\d] holds. *)
Definition ascii_digit (c : char) : bool := between 48%N 57%N c.

Definition sample_prompts : Prompts := {|
  SYSTEM_PROMPT := fun state_context candidate_context =>
    state_context ++ [LF] ++ candidate_context;
  GREETING_PROMPT := py "Greet the candidate.";
  INFO_GATHERING_PROMPT := fun status =>
    join [LF] (map (fun f => field_name f ++ py ": " ++ status f) CANDIDATE_FIELDS);
  TECH_QUESTIONS_PROMPT := fun name experience positions tech_stack =>
    join [LF] [name; experience; positions; tech_stack];
  FALLBACK_PROMPT := fun message st => message ++ [LF] ++ st;
  CLOSING_PROMPT := fun name positions => name ++ [LF] ++ positions;
  EXIT_DETECTED_PROMPT := fun name info_status => name ++ [LF] ++ info_status;
  SENTIMENT_PROMPT := fun message => message
|}.

Definition sample_client : LLMClient := Client MODEL_NAME [].

(** A provider that is down. *)
Definition provider_down : Provider := fun _ _ => None.


(** A provider that fails the mood call, answers the gathering call with the
    sample response and the call after it with the sample questions. *)
Definition provider_sample : Provider :=
  fun n _ => match n with
             | 2 => Some sample_response
             | 3 => Some sample_questions
             | _ => None
             end.

(** A manager that was greeted by a provider that is down. *)
Definition greeted : ConversationManager :=
  after (generate_greeting sample_python sample_prompts provider_down)
    (new_manager sample_client).

(** The greeted manager after "hello" and "bye": the conversation has ended
    with four transcript entries. *)
Definition ended_conversation : ConversationManager :=
  run_messages sample_python sample_prompts provider_down
    [py "hello"; py "bye"] greeted.

(** More blocks, each with [all_collected] unset, by the text of their
    "extracted" entry. *)
Definition entry (key value : str) : str :=
  quoted key ++ py ": " ++ quoted value.

Definition block_body (extracted : str) : str :=
  quoted (py "extracted") ++ py ": " ++ extracted ++ py ", "
  ++ quoted (py "all_collected") ++ py ": false".

Definition block_value (extracted : json) : json :=
  JObj [(py "extracted", extracted); (py "all_collected", JBool false)].

Definition reply_with (body : str) : str :=
  (py "Thanks!" ++ [LF]) ++ fenced_block [LF] body [LF].

(** The name only. *)
Definition partial_body : str :=
  block_body (py "{" ++ entry (py "full_name") (py "Ann") ++ py "}").
Definition partial_mapping : list (str * json) :=
  [(py "full_name", JStr (py "Ann"))].

(** Another name, and an e-mail address. *)
Definition renaming_body : str :=
  block_body (py "{" ++ entry (py "full_name") (py "Bob") ++ py ", "
              ++ entry (py "email") (py "ann@example.org") ++ py "}").
Definition renaming_mapping : list (str * json) :=
  [(py "full_name", JStr (py "Bob"));
   (py "email", JStr (py "ann@example.org"))].

(** The seven fields, and then a key that names the read-only property. *)
Definition refused_body : str :=
  block_body
    (py "{"
     ++ join (py ", ")
          [entry (py "full_name") (py "Ann Lee");
           entry (py "email") (py "ann@example.org");
           entry (py "phone") (py "5550100");
           entry (py "years_of_experience") (py "5");
           entry (py "desired_positions") (py "Engineer");
           entry (py "current_location") (py "Oslo");
           entry (py "tech_stack") (py "Rocq");
           entry (py "model_extra") (py "x")]
     ++ py "}").
Definition refused_mapping : list (str * json) :=
  [(py "full_name", JStr (py "Ann Lee"));
   (py "email", JStr (py "ann@example.org"));
   (py "phone", JStr (py "5550100"));
   (py "years_of_experience", JStr (py "5"));
   (py "desired_positions", JStr (py "Engineer"));
   (py "current_location", JStr (py "Oslo"));
   (py "tech_stack", JStr (py "Rocq"));
   (py "model_extra", JStr (py "x"))].

(** An "extracted" entry that is a text, not a mapping. *)
Definition unmapped_body : str := block_body (quoted (py "none")).

(** A runtime whose [json.loads] reads these blocks. *)
Definition sample_blocks : list (str * json) :=
  [(py "{" ++ partial_body ++ py "}", block_value (JObj partial_mapping));
   (py "{" ++ renaming_body ++ py "}", block_value (JObj renaming_mapping));
   (py "{" ++ refused_body ++ py "}", block_value (JObj refused_mapping));
   (py "{" ++ unmapped_body ++ py "}", block_value (JStr (py "none")))].

Definition blocks_python : Python := {|
  str_lower := ascii_lower;
  json_loads := fun text =>
    option_map snd (find (fun kv => str_eqb text (fst kv)) sample_blocks);
  str_of_value := fun _ => py "?";
  repr_dict := fun d => join (py ", ") (map (fun kv => fst kv ++ py ": " ++ snd kv) d);
  as_float := fun v => match v with JNum q => Some q | _ => None end;
  attribute_of := sample_attribute
|}.

(** A provider that reads its answers off a list, call by call, and is
    down after the last. *)
Definition provider_script (script : list (option str)) : Provider :=
  fun n _ => nth n script None.



(** The reply whose mapping ends in the read-only name; down after it. *)
Definition provider_refused : Provider :=
  provider_script [None; None; Some (reply_with refused_body)].


(** The greeted manager after the turn that completes the sample profile. *)
Definition answering : ConversationManager :=
  after (process_message sample_python sample_prompts provider_sample
           (py "I am Ann")) greeted.

(* ===================================================================== *)
(** ** Tactics *)
(* ===================================================================== *)

Ltac run_method :=
  cbv beta iota delta [bind ret raise gets modify when call_llm after snd fst].

(** The conjuncts of a goal, one by one. *)
Ltac split_all := repeat match goal with |- _ /\ _ => split end.

(** Case analysis on a condition that holds no other condition. *)
Ltac split_if :=
  match goal with
  | |- context [if ?b then _ else _] =>
      lazymatch b with
      | context [if _ then _ else _] => fail
      | _ => destruct b eqn:?
      end
  end.

(* ===================================================================== *)
(** ** Properties: the candidate profile *)
(* ===================================================================== *)

(** C6, as stated, fails: with two of the seven fields filled
    [get_completion_percentage] is 28, while round(100 * 2 / 7) is 29. *)
Lemma completion_percentage_not_rounded :
  let c := Candidate (Some (py "Ann")) (Some (py "ann@example.org"))
             None None None None None in
  length (get_filled_fields c) = 2
  /\ get_completion_percentage c = 28%Z
  /\ py_round (100 * inject_Z 2 / inject_Z 7)%Q = 29%Z
  /\ get_completion_percentage c
     <> py_round (100 * inject_Z (Z.of_nat (length (get_filled_fields c)))
                  / inject_Z 7)%Q.
Proof.
  cbv zeta. repeat split; try reflexivity.
  vm_compute. discriminate.
Qed.

Lemma filled_count_le (c : CandidateInfo) : length (get_filled_fields c) <= 7.
Proof.
  destruct c as [[?|] [?|] [?|] [?|] [?|] [?|] [?|]]; cbn; lia.
Qed.

Lemma percentage_of_count (c : CandidateInfo) :
  get_completion_percentage c
  = (100 * Z.of_nat (length (get_filled_fields c)) / 7)%Z.
Proof.
  destruct c as [[?|] [?|] [?|] [?|] [?|] [?|] [?|]]; reflexivity.
Qed.

Lemma filled_count_setattr (c : CandidateInfo) (f : Field) (v : str) :
  length (get_filled_fields c) <= length (get_filled_fields (setattr c f v)).
Proof.
  destruct c as [[?|] [?|] [?|] [?|] [?|] [?|] [?|]]; destruct f; cbn; lia.
Qed.

Lemma complete_iff_count (c : CandidateInfo) :
  is_complete c = true <-> length (get_filled_fields c) = 7.
Proof.
  destruct c as [[?|] [?|] [?|] [?|] [?|] [?|] [?|]]; cbn;
    split; intros H; try reflexivity; discriminate H.
Qed.

(** C6, amended: for every profile [get_completion_percentage] is
    100 * filled / 7 truncated to an integer; it does not decrease when a
    field is set, and it is 100 exactly when [is_complete] holds. *)
Theorem completion_percentage_truncates (c : CandidateInfo) :
  get_completion_percentage c
  = (100 * Z.of_nat (length (get_filled_fields c)) / 7)%Z
  /\ (forall f v,
        (get_completion_percentage c
         <= get_completion_percentage (setattr c f v))%Z)
  /\ (get_completion_percentage c = 100%Z <-> is_complete c = true).
Proof.
  split; [apply percentage_of_count|split].
  - intros f v. rewrite !percentage_of_count.
    pose proof (filled_count_setattr c f v).
    apply Z.div_le_mono; lia.
  - rewrite complete_iff_count, percentage_of_count.
    pose proof (filled_count_le c) as Hle.
    split; intros H.
    + assert (7 <= length (get_filled_fields c)
              \/ length (get_filled_fields c) <= 6) as [|Hlt] by lia; [lia|].
      exfalso.
      assert ((100 * Z.of_nat (length (get_filled_fields c)) / 7
               <= 100 * 6 / 7)%Z) as Hdiv
        by (apply Z.div_le_mono; lia).
      change (100 * 6 / 7)%Z with 85%Z in Hdiv. lia.
    + rewrite H. reflexivity.
Qed.

(* ===================================================================== *)
(** ** Properties: the question parser *)
(* ===================================================================== *)

(** What every group of a parse satisfies. *)
Definition well_formed_group (g : TechQuestionGroup) : Prop :=
  technology g <> []
  /\ questions g <> []
  /\ Forall (fun q => 10 < length q) (questions g).

Definition scan_ok (st : scan) : Prop :=
  Forall well_formed_group (result st)
  /\ Forall (fun q => 10 < length q) (current_questions st).

Lemma flush_ok (st : scan) : scan_ok st -> Forall well_formed_group (flush st).
Proof.
  intros [Hres Hqs]. unfold flush.
  destruct (current_tech st) as [tech|]; [|exact Hres].
  destruct tech as [|c tech]; [exact Hres|].
  destruct (current_questions st) as [|q qs] eqn:E; [exact Hres|].
  cbn. apply Forall_app. split; [exact Hres|].
  constructor; [|constructor].
  repeat split; cbn; [discriminate|discriminate|exact Hqs].
Qed.

Section Parser.

(** The digit class of the numbered lines. *)
Variable isdecimal : char -> bool.

(** A line leaves the pending questions as they are, empties them (a
    header), or appends one question: longer than ten characters, and read
    while a technology is active. *)
Lemma scan_line_questions (st : scan) (line : str) :
  current_questions (scan_line isdecimal st line) = current_questions st
  \/ current_questions (scan_line isdecimal st line) = []
  \/ exists q,
       current_questions (scan_line isdecimal st line)
       = current_questions st ++ [q]
       /\ 10 < length q
       /\ tech_active (current_tech st) = true.
Proof.
  unfold scan_line.
  destruct (negb (nonempty (strip line))); [now left|].
  destruct (orelse _ _); [now (right; left)|].
  destruct (orelse _ _) as [g|]; [|now left].
  destruct (tech_active (current_tech st)) eqn:Hact; [|now left].
  destruct (nonempty (strip g) && (10 <? length (strip g)))%bool eqn:Hlen;
    [|now left].
  right; right. exists (strip g). cbn.
  apply andb_prop in Hlen as [_ Hlen]. apply Nat.ltb_lt in Hlen.
  repeat split; assumption.
Qed.

Lemma scan_line_ok (st : scan) (line : str) :
  scan_ok st -> scan_ok (scan_line isdecimal st line).
Proof.
  intros Hok. pose proof (flush_ok Hok) as Hflush.
  destruct Hok as [Hres Hqs]. unfold scan_line.
  destruct (negb (nonempty (strip line))); [split; assumption|].
  destruct (orelse _ _); [split; [exact Hflush|constructor]|].
  destruct (orelse _ _) as [g|]; [|split; assumption].
  destruct (tech_active (current_tech st)); [|split; assumption].
  destruct (nonempty (strip g) && (10 <? length (strip g)))%bool eqn:Hlen;
    [|split; assumption].
  apply andb_prop in Hlen as [_ Hlen]. apply Nat.ltb_lt in Hlen.
  split; cbn; [exact Hres|].
  apply Forall_app. split; [exact Hqs|]. constructor; [exact Hlen|constructor].
Qed.

Lemma scan_lines_ok (lines : list str) (st : scan) :
  scan_ok st -> scan_ok (fold_left (scan_line isdecimal) lines st).
Proof.
  revert st. induction lines as [|line lines IH]; intros st Hok; cbn.
  - exact Hok.
  - apply IH, scan_line_ok, Hok.
Qed.

End Parser.

(** *** The digit class counts only on the characters of the text *)

Lemma rep_class_ext (lazy : bool) (cls cls' : char -> bool)
    (k : mstate -> option mstate) (g : option str) :
  forall s lo hi pos,
    (forall c, In c s -> cls c = cls' c) ->
    rep lazy cls lo hi k pos g s = rep lazy cls' lo hi k pos g s.
Proof.
  induction s as [|c s IH]; intros lo hi pos Hsame; cbn [rep];
    [reflexivity|].
  rewrite (Hsame c (or_introl eq_refl)).
  rewrite (IH (pred lo) (took hi) (S pos))
    by (intros d Hd; apply Hsame; right; exact Hd).
  reflexivity.
Qed.

Lemma numbered_class_ext (cls cls' : char -> bool) (line : str) :
  (forall c, In c line -> cls c = cls' c) ->
  re_match (RE_NUMBERED cls) line = re_match (RE_NUMBERED cls') line.
Proof.
  intros Hsame. unfold re_match, match_at, RE_NUMBERED, plus.
  cbn [run m_pos m_rest m_grp].
  rewrite (@rep_class_ext false cls cls' _ None line 1 None 0 Hsame).
  reflexivity.
Qed.

Lemma dropwhile_in (cls : char -> bool) (t : str) (d : char) :
  In d (dropwhile cls t) -> In d t.
Proof.
  induction t as [|c t IH]; simpl; [auto|].
  destruct (cls c); [intros H; right; apply IH, H|auto].
Qed.

Lemma strip_in (s : str) (c : char) : In c (strip s) -> In c s.
Proof.
  unfold strip, strip_by, rstrip_by, lstrip_by. intros H.
  apply in_rev, dropwhile_in, in_rev, dropwhile_in in H. exact H.
Qed.

Lemma split_on_in (sep : char) (s : str) :
  forall line c, In line (split_on sep s) -> In c line -> In c s.
Proof.
  induction s as [|a s IH]; intros line c Hline Hc; cbn [split_on] in Hline.
  - destruct Hline as [<-|[]]. destruct Hc.
  - destruct (chr_eqb a sep).
    + destruct Hline as [<-|Hline]; [destruct Hc|].
      right. exact (IH line c Hline Hc).
    + destruct (split_on sep s) as [|w ws].
      * destruct Hline as [<-|[]]. destruct Hc as [<-|[]]. left. reflexivity.
      * destruct Hline as [<-|Hline].
        -- destruct Hc as [<-|Hc]; [left; reflexivity|].
           right. apply (IH w c); [left; reflexivity|exact Hc].
        -- right. apply (IH line c); [right; exact Hline|exact Hc].
Qed.

Lemma scan_line_class_ext (cls cls' : char -> bool) (st : scan) (line : str) :
  (forall c, In c line -> cls c = cls' c) ->
  scan_line cls st line = scan_line cls' st line.
Proof.
  intros Hsame. unfold scan_line.
  rewrite (@numbered_class_ext cls cls' (strip line))
    by (intros c Hc; apply Hsame, strip_in, Hc).
  reflexivity.
Qed.

(** Two digit classes that agree on the characters of a text give the
    same parse of it. *)
Lemma parse_class_ext (cls cls' : char -> bool) (response : str) :
  (forall c, In c response -> cls c = cls' c) ->
  parse_technical_questions cls response
  = parse_technical_questions cls' response.
Proof.
  intros Hsame. unfold parse_technical_questions. f_equal.
  assert (forall line, In line (split_on LF response) ->
                       forall c, In c line -> cls c = cls' c) as Hlines
    by (intros line Hline c Hc; apply Hsame;
        exact (@split_on_in LF response line c Hline Hc)).
  revert Hlines. generalize (split_on LF response), (Scan [] None []).
  induction l as [|line lines IH]; intros st Hlines; cbn [fold_left];
    [reflexivity|].
  rewrite (@scan_line_class_ext cls cls' st line)
    by (apply Hlines; left; reflexivity).
  apply IH. intros l Hl. apply Hlines. right. exact Hl.
Qed.

(** C9: whatever digits the class of the numbered lines holds, every group
    [parse_technical_questions] returns has a technology and at least one
    question, each longer than ten characters; a line adds a question only
    when its text is longer than ten characters and a technology is
    active; and for a class that holds, of the ASCII characters, the ten
    digits and no other (as [\d] does), the sample text parses into Tech A
    with its two questions and Tech B with the closure question alone. *)
Theorem parse_technical_questions_groups (isdecimal : char -> bool) :
  (forall response,
      Forall well_formed_group (parse_technical_questions isdecimal response))
  /\ (forall st line,
        current_questions (scan_line isdecimal st line) = current_questions st
        \/ current_questions (scan_line isdecimal st line) = []
        \/ exists q,
             current_questions (scan_line isdecimal st line)
             = current_questions st ++ [q]
             /\ 10 < length q
             /\ tech_active (current_tech st) = true)
  /\ ((forall c, (c < 128)%N -> isdecimal c = between 48%N 57%N c) ->
      parse_technical_questions isdecimal sample_questions
      = [TechGroup (py "Tech A")
           [py "What is recursion and why does it matter?";
            py "Explain Big-O notation please."];
         TechGroup (py "Tech B")
           [py "What is a closure and how is it used?"]]).
Proof.
  split; [|split].
  - intros response. unfold parse_technical_questions.
    apply flush_ok, scan_lines_ok. split; constructor.
  - apply scan_line_questions.
  - intros Hascii.
    rewrite (@parse_class_ext isdecimal ascii_digit sample_questions).
    + vm_compute. reflexivity.
    + intros c Hc. apply Hascii.
      assert (forallb (fun c => N.ltb c 128) sample_questions = true) as Hall
        by (vm_compute; reflexivity).
      rewrite forallb_forall in Hall. apply N.ltb_lt, Hall, Hc.
Qed.

Lemma parse_technical_questions_groups_witness :
  parse_technical_questions ascii_digit sample_questions
  = [TechGroup (py "Tech A")
       [py "What is recursion and why does it matter?";
        py "Explain Big-O notation please."];
     TechGroup (py "Tech B")
       [py "What is a closure and how is it used?"]].
Proof.
  destruct (parse_technical_questions_groups ascii_digit) as (_ & _ & Hsample).
  apply Hsample. intros c _. reflexivity.
Defined.

(* ===================================================================== *)
(** ** Properties: sanitising *)
(* ===================================================================== *)

(** The length of the longest prefix inside a class. *)
Fixpoint run_length (cls : char -> bool) (s : str) : nat :=
  match s with
  | [] => 0
  | c :: s' => if cls c then S (run_length cls s') else 0
  end.

(** A greedy, unbounded repetition at the end of a pattern takes the whole
    run, if the run is long enough. *)
Lemma rep_greedy_last (cls : char -> bool) (s : str) :
  forall lo pos g,
    rep false cls lo None Some pos g s
    = if lo <=? run_length cls s
      then Some (MState (pos + run_length cls s) (dropwhile cls s) g)
      else None.
Proof.
  induction s as [|c s IH]; intros lo pos g; cbn.
  - destruct lo; cbn; [rewrite Nat.add_0_r|]; reflexivity.
  - destruct (cls c) eqn:Hc; cbn.
    + rewrite IH.
      destruct lo as [|lo]; cbn.
      * rewrite Nat.add_succ_r. reflexivity.
      * destruct (lo <=? run_length cls s); [|reflexivity].
        rewrite Nat.add_succ_r. reflexivity.
    + destruct lo; cbn; [rewrite Nat.add_0_r|]; reflexivity.
Qed.

Lemma match_spaces (pos : nat) (s : str) :
  match_at RE_SPACES pos s
  = match run_length isspace s with
    | 0 => None
    | S n => Some (MState (pos + S n) (dropwhile isspace s) None)
    end.
Proof.
  unfold match_at, RE_SPACES, plus. cbn [run m_pos m_grp m_rest].
  rewrite rep_greedy_last.
  destruct (run_length isspace s); reflexivity.
Qed.

(** [re.sub(r'\s+', ' ', s)] is the squeezing loop. *)
Lemma sub_spaces (s : str) :
  forall pos,
    sub_from RE_SPACES (py " ") pos 0 s = squeeze false s
    /\ sub_from RE_SPACES (py " ") pos (run_length isspace s) s = squeeze true s.
Proof.
  induction s as [|c s IH]; intros pos.
  - split; reflexivity.
  - assert (sub_from RE_SPACES (py " ") pos 0 (c :: s) = squeeze false (c :: s))
      as Hzero.
    { cbn [sub_from]. rewrite match_spaces. cbn [run_length squeeze].
      destruct (isspace c) eqn:Hc.
      - cbn [m_pos]. replace (pos + S (run_length isspace s) - pos)
          with (S (run_length isspace s)) by lia.
        destruct (IH (S pos)) as [_ ->]. reflexivity.
      - destruct (IH (S pos)) as [-> _]. reflexivity. }
    split; [exact Hzero|].
    cbn [run_length]. destruct (isspace c) eqn:Hc.
    + cbn [sub_from squeeze]. rewrite Hc. apply IH.
    + rewrite Hzero. cbn [squeeze]. rewrite Hc. reflexivity.
Qed.

Lemma re_sub_spaces (s : str) : re_sub RE_SPACES (py " ") s = squeeze false s.
Proof. apply sub_spaces. Qed.

Lemma squeeze_length (s : str) : forall b, length (squeeze b s) <= length s.
Proof.
  induction s as [|c s IH]; intros b; cbn; [lia|].
  destruct (isspace c); [destruct b|]; cbn;
    match goal with |- context [squeeze ?b' s] => specialize (IH b') end; lia.
Qed.

(** Squeezed text: each whitespace character is a space, and none follows
    another. [prev] tells that the text before ends in whitespace. *)
Fixpoint squeezed (prev : bool) (s : str) : bool :=
  match s with
  | [] => true
  | c :: s' =>
      if isspace c then chr_eqb c 32%N && negb prev && squeezed true s'
      else squeezed false s'
  end.

Lemma squeeze_squeezed (s : str) : forall b, squeezed b (squeeze b s) = true.
Proof.
  induction s as [|c s IH]; intros b; cbn; [reflexivity|].
  destruct (isspace c) eqn:Hc.
  - destruct b; [apply IH|]. cbn. apply IH.
  - cbn. rewrite Hc. apply IH.
Qed.

Lemma squeezed_fixed (s : str) : forall b, squeezed b s = true -> squeeze b s = s.
Proof.
  induction s as [|c s IH]; intros b H; cbn in *; [reflexivity|].
  destruct (isspace c) eqn:Hc.
  - apply andb_prop in H as [H Hs]. apply andb_prop in H as [Heq Hb].
    apply N.eqb_eq in Heq. subst c.
    destruct b; [discriminate|]. rewrite (IH true Hs). reflexivity.
  - rewrite (IH false H). reflexivity.
Qed.

Lemma squeezed_firstn (s : str) :
  forall n b, squeezed b s = true -> squeezed b (firstn n s) = true.
Proof.
  induction s as [|c s IH]; intros [|n] b H; cbn in *; try reflexivity.
  destruct (isspace c).
  - apply andb_prop in H as [H Hs]. rewrite H. cbn. apply IH, Hs.
  - apply IH, H.
Qed.

(** Text that does not open with whitespace. *)
Definition starts_clean (s : str) : bool :=
  match s with
  | [] => true
  | c :: _ => negb (isspace c)
  end.

Lemma dropwhile_starts (p : char -> bool) (s : str) :
  match dropwhile p s with [] => True | c :: _ => p c = false end.
Proof.
  induction s as [|c s IH]; cbn; [exact I|].
  destruct (p c) eqn:Hc; [exact IH|exact Hc].
Qed.

Lemma dropwhile_split (p : char -> bool) (s : str) :
  exists t, s = t ++ dropwhile p s.
Proof.
  induction s as [|c s [t IH]]; cbn.
  - exists []. reflexivity.
  - destruct (p c).
    + exists (c :: t). cbn. f_equal. exact IH.
    + exists []. reflexivity.
Qed.

Lemma starts_clean_lstrip (s : str) : starts_clean s = true -> lstrip_by isspace s = s.
Proof.
  destruct s as [|c s]; cbn; [reflexivity|].
  intros H. apply negb_true_iff in H. rewrite H. reflexivity.
Qed.

(** [rstrip] cuts a suffix off. *)
Lemma rstrip_prefix (s : str) : exists t, s = rstrip s ++ t.
Proof.
  unfold rstrip, rstrip_by.
  destruct (dropwhile_split isspace (rev s)) as [t Ht].
  exists (rev t). rewrite <- rev_app_distr, <- Ht, rev_involutive. reflexivity.
Qed.

(** What [rstrip] returns is empty or ends in a character that is not
    whitespace. *)
Lemma rstrip_cases (s : str) :
  rstrip s = [] \/ exists t c, rstrip s = t ++ [c] /\ isspace c = false.
Proof.
  unfold rstrip, rstrip_by.
  pose proof (dropwhile_starts isspace (rev s)) as H.
  destruct (dropwhile isspace (rev s)) as [|c t]; [now left|].
  right. exists (rev t), c. split; [reflexivity|exact H].
Qed.

Lemma rstrip_clean_end (t : str) (c : char) :
  isspace c = false -> rstrip (t ++ [c]) = t ++ [c].
Proof.
  intros H. unfold rstrip, rstrip_by.
  rewrite rev_app_distr. cbn. rewrite H. cbn. rewrite rev_involutive.
  reflexivity.
Qed.

Lemma rstrip_length (s : str) : length (rstrip s) <= length s.
Proof.
  destruct (rstrip_prefix s) as [t Ht].
  rewrite Ht at 2. rewrite length_app. lia.
Qed.

Lemma rstrip_same_length (s : str) : length (rstrip s) = length s -> rstrip s = s.
Proof.
  intros H. destruct (rstrip_prefix s) as [t Ht].
  rewrite Ht in H at 2. rewrite length_app in H.
  destruct t; [|cbn in H; lia].
  rewrite app_nil_r in Ht. symmetry. exact Ht.
Qed.

Lemma starts_clean_prefix (s t : str) :
  starts_clean (s ++ t) = true -> starts_clean s = true.
Proof. destruct s; [reflexivity|exact (fun H => H)]. Qed.

Lemma strip_starts_clean (s : str) : starts_clean (strip s) = true.
Proof.
  unfold strip, strip_by.
  assert (starts_clean (lstrip_by isspace s) = true) as H.
  { unfold lstrip_by, starts_clean.
    pose proof (dropwhile_starts isspace s) as H.
    destruct (dropwhile isspace s); [reflexivity|].
    rewrite H. reflexivity. }
  fold (rstrip (lstrip_by isspace s)).
  destruct (rstrip_prefix (lstrip_by isspace s)) as [t Ht].
  rewrite Ht in H. exact (starts_clean_prefix _ _ H).
Qed.

Lemma squeeze_starts_clean (s : str) :
  starts_clean s = true -> starts_clean (squeeze false s) = true.
Proof.
  destruct s as [|c s]; cbn; [reflexivity|].
  intros H. apply negb_true_iff in H. rewrite H. cbn. rewrite H. reflexivity.
Qed.

Lemma firstn_starts_clean (n : nat) (s : str) :
  starts_clean s = true -> starts_clean (firstn n s) = true.
Proof. destruct n, s; cbn; auto. Qed.

Lemma squeeze_clean_end (c : char) (t : str) :
  isspace c = false -> forall b, squeeze b (t ++ [c]) = squeeze b t ++ [c].
Proof.
  intros Hc. induction t as [|d t IH]; intros b; cbn.
  - rewrite Hc. reflexivity.
  - destruct (isspace d); [destruct b|]; cbn; rewrite IH; reflexivity.
Qed.

(** What [sanitize_input] returns, before the cut: squeezed, and trimmed
    at both ends. *)
Lemma collapsed_trimmed (x : str) :
  let y := re_sub RE_SPACES (py " ") (strip x) in
  squeezed false y = true /\ starts_clean y = true /\ rstrip y = y.
Proof.
  cbv zeta. rewrite re_sub_spaces. repeat split.
  - apply squeeze_squeezed.
  - apply squeeze_starts_clean, strip_starts_clean.
  - unfold strip, strip_by. fold (rstrip (lstrip_by isspace x)).
    destruct (rstrip_cases (lstrip_by isspace x)) as [->|(t & c & -> & Hc)].
    + reflexivity.
    + rewrite squeeze_clean_end by exact Hc.
      apply rstrip_clean_end, Hc.
Qed.

Lemma sanitize_input_length (x : str) : length (sanitize_input x) <= 2000.
Proof. unfold sanitize_input. apply firstn_le_length. Qed.

Lemma sanitize_input_fixed_iff (x : str) :
  sanitize_input (sanitize_input x) = sanitize_input x
  <-> rstrip (sanitize_input x) = sanitize_input x.
Proof.
  pose proof (sanitize_input_length x) as Hlen.
  destruct (collapsed_trimmed x) as (Hsq & Hstart & _).
  set (z := sanitize_input x) in *.
  assert (squeezed false z = true) as Hz
    by (apply squeezed_firstn, Hsq).
  assert (starts_clean z = true) as Hzs
    by (apply firstn_starts_clean, Hstart).
  assert (strip z = rstrip z) as Hstrip.
  { unfold strip, strip_by. rewrite (starts_clean_lstrip _ Hzs). reflexivity. }
  split; intros H.
  - apply rstrip_same_length.
    pose proof (rstrip_length z) as Hr.
    assert (length (sanitize_input z) <= length (rstrip z)) as Hs.
    { unfold sanitize_input. rewrite Hstrip, re_sub_spaces.
      rewrite length_firstn.
      etransitivity; [apply Nat.le_min_r|]. apply squeeze_length. }
    rewrite H in Hs. lia.
  - unfold sanitize_input at 1. rewrite Hstrip, H, re_sub_spaces.
    rewrite (squeezed_fixed _ _ Hz). apply firstn_all2. exact Hlen.
Qed.

(** C7, as stated, fails: a text of 1999 letters, a space and one more
    letter is cut after the space, and the second pass trims that space. *)
Lemma sanitize_input_not_idempotent :
  let x := repeat 97%N 1999 ++ py " b" in
  length (sanitize_input x) = 2000
  /\ length (sanitize_input (sanitize_input x)) = 1999
  /\ sanitize_input (sanitize_input x) <> sanitize_input x.
Proof.
  cbv zeta. split; [|split]; try (vm_compute; reflexivity).
  intros H. apply (f_equal (@length char)) in H.
  vm_compute in H. discriminate H.
Qed.

(** C7, amended: for every text the result has at most 2000 characters;
    sanitising it again changes nothing exactly when it does not end in
    whitespace, which is so whenever the trimmed and collapsed text has at
    most 2000 characters, so that nothing is cut. *)
Theorem sanitize_input_bounded (x : str) :
  length (sanitize_input x) <= 2000
  /\ (sanitize_input (sanitize_input x) = sanitize_input x
      <-> rstrip (sanitize_input x) = sanitize_input x)
  /\ (length (re_sub RE_SPACES (py " ") (strip x)) <= 2000 ->
      sanitize_input (sanitize_input x) = sanitize_input x).
Proof.
  split; [apply sanitize_input_length|].
  split; [apply sanitize_input_fixed_iff|].
  intros Hlen. apply sanitize_input_fixed_iff.
  destruct (collapsed_trimmed x) as (_ & _ & Hend).
  unfold sanitize_input. rewrite firstn_all2 by exact Hlen. exact Hend.
Qed.

(* ===================================================================== *)
(** ** Properties: the structured block *)
(* ===================================================================== *)

(** *** The matcher on literals and repetitions *)

Lemma startswith_app (l t : str) : startswith (l ++ t) l = true.
Proof.
  induction l as [|a l IH]; simpl; [destruct t; reflexivity|].
  unfold chr_eqb. rewrite N.eqb_refl. exact IH.
Qed.

Lemma skipn_app_exact {A} (l t : list A) : skipn (length l) (l ++ t) = t.
Proof. induction l; cbn; auto. Qed.

(** A literal is read when the text opens with it. *)
Lemma lit_run (l : str) (k : mstate -> option mstate) :
  forall pos g t,
    lit l k pos g t
    = if startswith t l
      then k (MState (pos + length l) (skipn (length l) t) g)
      else None.
Proof.
  induction l as [|a l IH]; intros pos g t; simpl.
  - rewrite Nat.add_0_r. destruct t; reflexivity.
  - destruct t as [|c t]; [reflexivity|]. simpl.
    destruct (chr_eqb c a); [|reflexivity].
    rewrite IH, Nat.add_succ_r. reflexivity.
Qed.

Lemma lit_run_app (l : str) (k : mstate -> option mstate) pos g t :
  lit l k pos g (l ++ t) = k (MState (pos + length l) t g).
Proof. rewrite lit_run, startswith_app, skipn_app_exact. reflexivity. Qed.

(** A continuation that fails on every text that opens inside a class. *)
Definition rejects (cls : char -> bool) (k : mstate -> option mstate) : Prop :=
  forall pos c t g, cls c = true -> k (MState pos (c :: t) g) = None.

Lemma rejects_lit (cls : char -> bool) (a : char) (l : str)
    (k : mstate -> option mstate) :
  cls a = false -> rejects cls (run (Lit (a :: l)) k).
Proof.
  intros Ha pos c t g Hc. cbn.
  destruct (chr_eqb c a) eqn:E; [|reflexivity].
  apply N.eqb_eq in E. congruence.
Qed.

(** Before such a continuation a greedy star takes the whole run. *)
Lemma rep_star_run (cls : char -> bool) (k : mstate -> option mstate) :
  rejects cls k ->
  forall s pos g,
    rep false cls 0 None k pos g s
    = k (MState (pos + run_length cls s) (dropwhile cls s) g).
Proof.
  intros Hk. induction s as [|c s IH]; intros pos g; cbn.
  - rewrite Nat.add_0_r. reflexivity.
  - destruct (cls c) eqn:Hc; cbn.
    + rewrite IH, Nat.add_succ_r. cbn [Nat.add].
      destruct (k (MState (S (pos + run_length cls s)) (dropwhile cls s) g));
        [reflexivity|].
      apply Hk, Hc.
    + rewrite Nat.add_0_r. reflexivity.
Qed.

(** A lazy star stops at the first place where the continuation matches. *)
Lemma rep_lazy_scan (k : mstate -> option mstate) (g : option str) (t : str)
    (r : mstate) :
  forall body pos,
    (forall b1 b2, body = b1 ++ b2 -> b2 <> [] ->
                   k (MState (pos + length b1) (b2 ++ t) g) = None) ->
    k (MState (pos + length body) t g) = Some r ->
    rep true any 0 None k pos g (body ++ t) = Some r.
Proof.
  induction body as [|c body IH]; intros pos Hin Hend.
  - cbn in Hend. rewrite Nat.add_0_r in Hend.
    destruct t; cbn; rewrite Hend; reflexivity.
  - cbn [app rep].
    pose proof (Hin [] (c :: body) eq_refl ltac:(discriminate)) as H0.
    cbn in H0. rewrite Nat.add_0_r in H0. rewrite H0. cbn.
    apply IH.
    + intros b1 b2 Hb Hne.
      specialize (Hin (c :: b1) b2). cbn in Hin.
      rewrite Nat.add_succ_r in Hin. apply Hin; [rewrite Hb; reflexivity|exact Hne].
    + cbn in Hend. rewrite Nat.add_succ_r in Hend. exact Hend.
Qed.

Lemma dropwhile_run_app (cls : char -> bool) (ws : str) (c : char) (t : str) :
  Forall (fun x => cls x = true) ws -> cls c = false ->
  dropwhile cls (ws ++ c :: t) = c :: t
  /\ run_length cls (ws ++ c :: t) = length ws.
Proof.
  intros Hws Hc. induction Hws as [|x ws Hx _ IH]; simpl.
  - rewrite Hc. split; reflexivity.
  - rewrite Hx. destruct IH as [-> ->]. split; reflexivity.
Qed.

(** Where a run ends before a character outside the class, the text goes
    on with one of the characters up to that one. *)
Lemma dropwhile_app_stop (cls : char -> bool) (x : str) (c : char) (y : str) :
  cls c = false ->
  exists d u, dropwhile cls (x ++ c :: y) = d :: u /\ (In d x \/ d = c).
Proof.
  intros Hc. induction x as [|a x (d & u & IH & Hd)]; simpl.
  - rewrite Hc. exists c, y. split; [reflexivity|right; reflexivity].
  - destruct (cls a).
    + exists d, u. split; [exact IH|]. destruct Hd; [left; right|right]; assumption.
    + exists a, (x ++ c :: y). split; [reflexivity|left; left; reflexivity].
Qed.

(** The end of a fenced block: \s*``` *)
Definition RE_CLOSE : regex := (star isspace ;; Lit (py "```"))%re.

(** What the end of the pattern makes of a text, with the group that the
    pattern holds by then. *)
Definition close_at (grp : nat -> option str) (pos : nat) (rest : str)
    : option mstate :=
  if startswith (dropwhile isspace rest) (py "```")
  then Some (MState (pos + run_length isspace rest + 3)
               (skipn 3 (dropwhile isspace rest)) (grp pos))
  else None.

Lemma close_run (pos : nat) (rest : str) (g : option str) :
  run RE_CLOSE Some (MState pos rest g) = close_at (fun _ => g) pos rest.
Proof.
  unfold RE_CLOSE, star, close_at. cbn [run m_pos m_rest m_grp].
  rewrite rep_star_run by (apply rejects_lit; reflexivity).
  cbn [run m_pos m_rest m_grp]. rewrite lit_run. reflexivity.
Qed.

Lemma close_at_inside (grp : nat -> option str) (pos : nat) (b rest : str) :
  Forall (fun c => no_backtick c = true) b ->
  close_at grp pos (b ++ py "}" ++ rest) = None.
Proof.
  intros Hb. unfold close_at.
  destruct (@dropwhile_app_stop isspace b 125%N rest eq_refl)
    as (d & u & Hdrop & Hd).
  change (py "}" ++ rest) with (125%N :: rest).
  unfold str, char in *. rewrite Hdrop.
  assert (chr_eqb d 96%N = false) as Hne.
  { destruct Hd as [Hin| ->]; [|reflexivity].
    rewrite Forall_forall in Hb. specialize (Hb d Hin).
    unfold no_backtick in Hb. apply negb_true_iff in Hb. exact Hb. }
  simpl. rewrite Hne. reflexivity.
Qed.

Lemma close_at_end (grp : nat -> option str) (pos : nat) (ws post : str) :
  Forall (fun c => isspace c = true) ws ->
  close_at grp pos (ws ++ py "```" ++ post)
  = Some (MState (pos + length ws + 3) post (grp pos)).
Proof.
  intros Hws. unfold close_at.
  change (py "```" ++ post) with (96%N :: py "``" ++ post).
  destruct (@dropwhile_run_app isspace ws 96%N (py "``" ++ post) Hws eq_refl)
    as [Hdrop Hrun].
  unfold str, char in *. rewrite Hdrop, Hrun. reflexivity.
Qed.

(** The object of a block: \{.*?\} *)
Definition RE_OBJECT : regex := (Lit (py "{") ;; star_lazy any ;; Lit (py "}"))%re.

(** The object pattern, followed by the end of the block, on a block whose
    body has no backtick: the lazy star runs to the brace before the
    closing fence. *)
Lemma object_run (K : mstate -> option mstate) (grp : nat -> option str)
    (g0 : option str) :
  (forall p rest, K (MState p rest g0) = close_at grp p rest) ->
  forall pos body ws2 post,
    Forall (fun c => no_backtick c = true) body ->
    Forall (fun c => isspace c = true) ws2 ->
    run RE_OBJECT K
      (MState pos (py "{" ++ body ++ py "}" ++ ws2 ++ py "```" ++ post) g0)
    = Some (MState (pos + (length body + length ws2 + 5)) post
              (grp (pos + length body + 2))).
Proof.
  intros HK pos body ws2 post Hbody Hws.
  unfold RE_OBJECT, star_lazy. cbn [run m_pos m_rest m_grp].
  rewrite lit_run_app. cbn [run m_pos m_rest m_grp].
  apply rep_lazy_scan.
  - intros b1 b2 Hsplit Hne. cbn [run m_pos m_rest m_grp].
    rewrite lit_run.
    destruct b2 as [|c b2]; [contradiction Hne; reflexivity|].
    simpl. destruct (chr_eqb c 125%N); [|reflexivity].
    rewrite HK. apply close_at_inside.
    rewrite Hsplit in Hbody. apply Forall_app in Hbody as [_ Hb2].
    inversion Hb2; assumption.
  - cbn [run m_pos m_rest m_grp]. rewrite lit_run_app, HK, close_at_end by exact Hws.
    f_equal. f_equal; [cbn [length py map list_ascii_of_string]; lia|].
    f_equal. cbn [length py map list_ascii_of_string]. lia.
Qed.

(** *** A fenced block under the two fenced patterns *)

Definition opens_brace (u : str) : bool :=
  match u with
  | c :: _ => chr_eqb c 123%N
  | [] => false
  end.

(** A continuation that needs an opening brace first. *)
Definition needs_brace (k : mstate -> option mstate) : Prop :=
  forall p u g, opens_brace u = false -> k (MState p u g) = None.

Lemma needs_brace_rejects (k : mstate -> option mstate) :
  needs_brace k -> rejects isspace k.
Proof.
  intros Hk pos c t g Hc. apply Hk. cbn.
  destruct (chr_eqb c 123%N) eqn:E; [|reflexivity].
  apply N.eqb_eq in E. subst c. discriminate Hc.
Qed.

Lemma needs_brace_object (K : mstate -> option mstate) :
  needs_brace (run RE_OBJECT K).
Proof.
  intros p u g Hu. unfold RE_OBJECT. cbn [run m_pos m_rest m_grp].
  rewrite lit_run. destruct u as [|c u]; [reflexivity|].
  cbn in Hu. simpl. rewrite Hu. reflexivity.
Qed.

(** The fenced patterns, cut after the opening. *)
Lemma run_fenced (k : mstate -> option mstate) (st : mstate) :
  run RE_FENCED k st
  = run (Lit (py "```json"))
      (run (star isspace) (run RE_OBJECT (run (star isspace ;; Lit (py "```")) k)))
      st.
Proof. reflexivity. Qed.

Lemma run_fenced_group (k : mstate -> option mstate) (st : mstate) :
  run RE_FENCED_GROUP k st
  = run (Lit (py "```json"))
      (run (star isspace)
         (fun st0 =>
            run RE_OBJECT
              (fun st' =>
                 run (star isspace ;; Lit (py "```")) k
                   (MState (m_pos st') (m_rest st')
                      (Some (firstn (m_pos st' - m_pos st0) (m_rest st0)))))
              st0))
      st.
Proof. reflexivity. Qed.

(** After the opening fence and whitespace both patterns need a brace. *)
Lemma opening_fails (k : mstate -> option mstate) (pos : nat) (t : str)
    (g : option str) :
  needs_brace k ->
  opens_brace (dropwhile isspace (skipn 7 t)) = false ->
  run (Lit (py "```json")) (run (star isspace) k) (MState pos t g) = None.
Proof.
  intros Hk Ht. cbn [run m_pos m_rest m_grp]. rewrite lit_run.
  destruct (startswith t (py "```json")); [|reflexivity].
  unfold star. cbn [run m_pos m_rest m_grp].
  rewrite rep_star_run by (apply needs_brace_rejects, Hk).
  apply Hk, Ht.
Qed.

Lemma fenced_fails (pos : nat) (t : str) :
  opens_brace (dropwhile isspace (skipn 7 t)) = false ->
  match_at RE_FENCED pos t = None /\ match_at RE_FENCED_GROUP pos t = None.
Proof.
  intros Ht. unfold match_at. rewrite run_fenced, run_fenced_group.
  split; apply opening_fails; try exact Ht.
  - apply needs_brace_object.
  - intros p u g Hu. apply needs_brace_object, Hu.
Qed.

Lemma no_brace_opens (c : char) (u : str) :
  no_brace c = true -> opens_brace (c :: u) = false.
Proof.
  unfold no_brace. intros H. apply negb_true_iff, orb_false_iff in H as [H _].
  exact H.
Qed.

Lemma skipn_in {A} (n : nat) (l : list A) (d : A) : In d (skipn n l) -> In d l.
Proof.
  revert l. induction n as [|n IH]; intros [|a l]; simpl; auto.
Qed.

(** Text without braces opens no match. *)
Lemma clean_text_opens_nothing (t : str) :
  Forall (fun c => no_brace c = true) t ->
  opens_brace (dropwhile isspace (skipn 7 t)) = false.
Proof.
  intros Ht. destruct (dropwhile isspace (skipn 7 t)) as [|d u] eqn:E;
    [reflexivity|].
  apply no_brace_opens. rewrite Forall_forall in Ht. apply Ht.
  apply (@skipn_in _ 7), (@dropwhile_in isspace). rewrite E. left. reflexivity.
Qed.

(** Nor does text without braces that runs into the opening fence. *)
Lemma clean_prefix_opens_nothing (p rest : str) :
  p <> [] ->
  Forall (fun c => no_brace c = true) p ->
  opens_brace (dropwhile isspace (skipn 7 (p ++ py "```json" ++ rest))) = false.
Proof.
  intros Hne Hp.
  change (py "```json" ++ rest) with (py "```jso" ++ 110%N :: rest).
  rewrite app_assoc, skipn_app.
  assert (7 - length (p ++ py "```jso") = 0) as ->.
  { rewrite length_app. change (length (py "```jso")) with 6.
    destruct p; [contradiction Hne; reflexivity|cbn [length]; lia]. }
  rewrite skipn_O.
  destruct (@dropwhile_app_stop isspace (skipn 7 (p ++ py "```jso")) 110%N rest
              eq_refl) as (d & u & Hdrop & Hd).
  unfold str, char in *. rewrite Hdrop.
  apply no_brace_opens.
  destruct Hd as [Hin| ->]; [|reflexivity].
  apply skipn_in, in_app_or in Hin as [Hin|Hin].
  - rewrite Forall_forall in Hp. apply Hp, Hin.
  - cbn in Hin. repeat (destruct Hin as [<-|Hin]; [reflexivity|]). contradiction.
Qed.

Lemma fenced_block_app (ws1 body ws2 post : str) :
  fenced_block ws1 body ws2 ++ post
  = py "```json" ++ ws1 ++ py "{" ++ body ++ py "}" ++ ws2 ++ py "```" ++ post.
Proof. unfold fenced_block. rewrite <- !app_assoc. reflexivity. Qed.

Lemma fenced_block_length (ws1 body ws2 : str) :
  length (fenced_block ws1 body ws2)
  = 7 + (length ws1 + (length body + length ws2 + 5)).
Proof. unfold fenced_block. rewrite !length_app. cbn. lia. Qed.

Section Block.

Variables ws1 body ws2 post : str.
Hypothesis Hws1 : Forall (fun c => isspace c = true) ws1.
Hypothesis Hbody : Forall (fun c => no_backtick c = true) body.
Hypothesis Hws2 : Forall (fun c => isspace c = true) ws2.

Lemma after_opening (k : mstate -> option mstate) (pos : nat) (g : option str) :
  rejects isspace k ->
  run (Lit (py "```json")) (run (star isspace) k)
    (MState pos (fenced_block ws1 body ws2 ++ post) g)
  = k (MState (pos + 7 + length ws1)
         (py "{" ++ body ++ py "}" ++ ws2 ++ py "```" ++ post) g).
Proof.
  intros Hk. rewrite fenced_block_app.
  cbn [run m_pos m_rest m_grp]. rewrite lit_run_app.
  unfold star. cbn [run m_pos m_rest m_grp].
  rewrite rep_star_run by exact Hk.
  change (py "{" ++ body ++ py "}" ++ ws2 ++ py "```" ++ post)
    with (123%N :: body ++ py "}" ++ ws2 ++ py "```" ++ post).
  destruct (@dropwhile_run_app isspace ws1 123%N
              (body ++ py "}" ++ ws2 ++ py "```" ++ post) Hws1 eq_refl)
    as [Hdrop Hrun].
  unfold str, char in *. rewrite Hdrop, Hrun. reflexivity.
Qed.

(** [RE_FENCED] matches the block from its first to its last character. *)
Lemma fenced_match (pos : nat) :
  match_at RE_FENCED pos (fenced_block ws1 body ws2 ++ post)
  = Some (MState (pos + length (fenced_block ws1 body ws2)) post None).
Proof.
  unfold match_at. rewrite run_fenced.
  rewrite after_opening
    by (apply needs_brace_rejects, needs_brace_object).
  rewrite (@object_run _ (fun _ => None) None)
    by (try assumption; intros p rest; apply close_run).
  rewrite fenced_block_length. f_equal. f_equal. lia.
Qed.

(** [RE_FENCED_GROUP] matches it too, and its group is the object. *)
Lemma fenced_group_match (pos : nat) :
  match_at RE_FENCED_GROUP pos (fenced_block ws1 body ws2 ++ post)
  = Some (MState (pos + length (fenced_block ws1 body ws2)) post
            (Some (py "{" ++ body ++ py "}"))).
Proof.
  unfold match_at. rewrite run_fenced_group.
  rewrite after_opening.
  - cbn beta. cbn [m_pos m_rest].
    rewrite (@object_run _
               (fun p => Some (firstn (p - (pos + 7 + length ws1))
                                 (py "{" ++ body ++ py "}" ++ ws2
                                  ++ py "```" ++ post)))
               None)
      by (try assumption; intros p rest; cbn [m_pos m_rest]; apply close_run).
    rewrite fenced_block_length. f_equal. f_equal; [lia|].
    f_equal.
    replace (pos + 7 + length ws1 + length body + 2 - (pos + 7 + length ws1))
      with (length (py "{" ++ body ++ py "}"))
      by (rewrite !length_app; cbn; lia).
    replace (py "{" ++ body ++ py "}" ++ ws2 ++ py "```" ++ post)
      with ((py "{" ++ body ++ py "}") ++ ws2 ++ py "```" ++ post)
      by (rewrite <- !app_assoc; reflexivity).
    rewrite firstn_app, Nat.sub_diag, firstn_all. cbn [firstn].
    apply app_nil_r.
  - intros p c t g Hc. apply needs_brace_rejects with (k := run RE_OBJECT _);
      [apply needs_brace_object|exact Hc].
Qed.

End Block.

(** *** Searching and substituting around a match *)

(** A search passes over text where no match starts. *)
Lemma search_from_prefix (r : regex) (rest : str) :
  forall pre pos,
    (forall p1 p2, pre = p1 ++ p2 -> p2 <> [] ->
                   match_at r (pos + length p1) (p2 ++ rest) = None) ->
    search_from r pos (pre ++ rest) = search_from r (pos + length pre) rest.
Proof.
  induction pre as [|c pre IH]; intros pos Hnone.
  - cbn. rewrite Nat.add_0_r. reflexivity.
  - cbn [app search_from length].
    pose proof (Hnone [] (c :: pre) eq_refl ltac:(discriminate)) as H0.
    cbn in H0. rewrite Nat.add_0_r in H0. rewrite H0.
    rewrite IH, Nat.add_succ_r; [reflexivity|].
    intros p1 p2 Hsplit Hne.
    specialize (Hnone (c :: p1) p2). cbn in Hnone.
    rewrite Nat.add_succ_r in Hnone.
    apply Hnone; [rewrite Hsplit; reflexivity|exact Hne].
Qed.

(** A substitution copies text where no match starts. *)
Lemma sub_from_prefix (r : regex) (repl rest : str) :
  forall pre pos,
    (forall p1 p2, pre = p1 ++ p2 -> p2 <> [] ->
                   match_at r (pos + length p1) (p2 ++ rest) = None) ->
    sub_from r repl pos 0 (pre ++ rest)
    = pre ++ sub_from r repl (pos + length pre) 0 rest.
Proof.
  induction pre as [|c pre IH]; intros pos Hnone.
  - cbn. rewrite Nat.add_0_r. reflexivity.
  - cbn [app sub_from length].
    pose proof (Hnone [] (c :: pre) eq_refl ltac:(discriminate)) as H0.
    cbn in H0. rewrite Nat.add_0_r in H0. rewrite H0.
    rewrite IH, Nat.add_succ_r; [reflexivity|].
    intros p1 p2 Hsplit Hne.
    specialize (Hnone (c :: p1) p2). cbn in Hnone.
    rewrite Nat.add_succ_r in Hnone.
    apply Hnone; [rewrite Hsplit; reflexivity|exact Hne].
Qed.

Lemma sub_from_skip (r : regex) (repl rest : str) :
  forall a pos,
    sub_from r repl pos (length a) (a ++ rest)
    = sub_from r repl (pos + length a) 0 rest.
Proof.
  induction a as [|c a IH]; intros pos.
  - cbn [length app]. rewrite Nat.add_0_r. reflexivity.
  - cbn [length app sub_from]. rewrite IH, Nat.add_succ_r. reflexivity.
Qed.

(** A substitution replaces a match and goes on behind it. *)
Lemma sub_from_match (r : regex) (repl a rest : str) (pos : nat) (g : option str) :
  a <> [] ->
  match_at r pos (a ++ rest) = Some (MState (pos + length a) rest g) ->
  sub_from r repl pos 0 (a ++ rest)
  = repl ++ sub_from r repl (pos + length a) 0 rest.
Proof.
  intros Hne Hm. destruct a as [|c a]; [contradiction Hne; reflexivity|].
  cbn [app sub_from]. cbn [app] in Hm. rewrite Hm. cbn [m_pos length].
  replace (pos + S (length a) - pos) with (S (length a)) by lia.
  rewrite sub_from_skip, Nat.add_succ_r. reflexivity.
Qed.

Lemma sub_from_none (r : regex) (repl t : str) (pos : nat) :
  (forall p1 p2, t = p1 ++ p2 -> match_at r (pos + length p1) p2 = None) ->
  sub_from r repl pos 0 t = t.
Proof.
  intros Hnone.
  rewrite <- (app_nil_r t) at 1. rewrite sub_from_prefix.
  - cbn [sub_from]. rewrite (Hnone t []) by (rewrite app_nil_r; reflexivity).
    apply app_nil_r.
  - intros p1 p2 Hsplit _. rewrite app_nil_r. apply Hnone, Hsplit.
Qed.

(** A substitution brings in no character beyond those of the text and of
    the replacement. *)
Lemma sub_from_forall (P : char -> Prop) (r : regex) (repl : str) :
  Forall P repl ->
  forall s pos skip, Forall P s -> Forall P (sub_from r repl pos skip s).
Proof.
  intros Hrepl. induction s as [|c s IH]; intros pos skip Hs.
  - destruct skip; cbn; [|constructor].
    destruct (match_at r pos []) as [st|]; [|constructor].
    destruct (m_pos st - pos); rewrite app_nil_r; exact Hrepl.
  - inversion Hs as [|? ? Hc Hs']; subst.
    destruct skip; cbn [sub_from]; [|apply IH, Hs'].
    destruct (match_at r pos (c :: s)) as [st|].
    + destruct (m_pos st - pos); apply Forall_app; split; try exact Hrepl.
      * constructor; [exact Hc|apply IH, Hs'].
      * apply IH, Hs'.
    + constructor; [exact Hc|apply IH, Hs'].
Qed.

Lemma dropwhile_forall (P : char -> Prop) (cls : char -> bool) (s : str) :
  Forall P s -> Forall P (dropwhile cls s).
Proof.
  induction 1 as [|c s Hc Hs IH]; simpl; [constructor|].
  destruct (cls c); [exact IH|constructor; assumption].
Qed.

Lemma strip_forall (P : char -> Prop) (s : str) : Forall P s -> Forall P (strip s).
Proof.
  intros Hs. unfold strip, strip_by, rstrip_by, lstrip_by.
  apply Forall_rev, dropwhile_forall, Forall_rev, dropwhile_forall, Hs.
Qed.

Lemma forall_suffix (P : char -> Prop) (p1 p2 : str) :
  Forall P (p1 ++ p2) -> Forall P p2.
Proof. intros H. apply Forall_app in H as [_ H]. exact H. Qed.

(** No pattern of [utils.py] for the structured block matches in text
    without braces. *)
Lemma clean_text_no_match (t : str) (pos : nat) :
  Forall (fun c => no_brace c = true) t ->
  match_at RE_FENCED pos t = None
  /\ match_at RE_FENCED_GROUP pos t = None
  /\ match_at RE_RAW pos t = None.
Proof.
  intros Ht.
  destruct (@fenced_fails pos t (clean_text_opens_nothing Ht)) as [H1 H2].
  repeat split; [exact H1|exact H2|].
  unfold match_at, RE_RAW. cbn [run m_pos m_rest m_grp]. rewrite lit_run.
  destruct t as [|c t]; [reflexivity|].
  inversion Ht as [|? ? Hc _]; subst.
  pose proof (@no_brace_opens c t Hc) as Hb. cbn in Hb.
  simpl. rewrite Hb. reflexivity.
Qed.

Lemma clean_text_sub (r : regex) (t : str) (pos : nat) :
  r = RE_FENCED \/ r = RE_RAW ->
  Forall (fun c => no_brace c = true) t ->
  sub_from r [] pos 0 t = t.
Proof.
  intros Hr Ht. apply sub_from_none. intros p1 p2 Hsplit.
  rewrite Hsplit in Ht. apply forall_suffix in Ht.
  destruct (clean_text_no_match (pos + length p1) Ht) as (H1 & _ & H3).
  destruct Hr as [-> | ->]; assumption.
Qed.

(** *** A reply of the instructed shape *)

Section FencedReply.

Variables pre ws1 body ws2 post : str.
Hypothesis Hpre : Forall (fun c => no_brace c = true) pre.
Hypothesis Hws1 : Forall (fun c => isspace c = true) ws1.
Hypothesis Hbody : Forall (fun c => no_backtick c = true) body.
Hypothesis Hws2 : Forall (fun c => isspace c = true) ws2.
Hypothesis Hpost : Forall (fun c => no_brace c = true) post.

Let text : str := pre ++ fenced_block ws1 body ws2 ++ post.

Lemma before_block (p1 p2 : str) (pos : nat) :
  pre = p1 ++ p2 -> p2 <> [] ->
  match_at RE_FENCED pos (p2 ++ fenced_block ws1 body ws2 ++ post) = None
  /\ match_at RE_FENCED_GROUP pos (p2 ++ fenced_block ws1 body ws2 ++ post) = None.
Proof.
  intros Hsplit Hne. apply fenced_fails.
  rewrite fenced_block_app. apply clean_prefix_opens_nothing; [exact Hne|].
  rewrite Hsplit in Hpre. exact (forall_suffix _ _ Hpre).
Qed.

Lemma fenced_block_nonempty : fenced_block ws1 body ws2 <> [].
Proof. discriminate. Qed.

Lemma remove_fenced_block : re_sub RE_FENCED [] text = pre ++ post.
Proof.
  unfold re_sub, text. rewrite sub_from_prefix
    by (intros p1 p2 Hsplit Hne; apply before_block with (p1 := p1); assumption).
  f_equal.
  rewrite (@sub_from_match RE_FENCED [] _ post _ None fenced_block_nonempty)
    by (apply fenced_match; assumption).
  apply clean_text_sub; [left; reflexivity|exact Hpost].
Qed.

Lemma search_fenced_block :
  re_search RE_FENCED_GROUP text
  = Some (length pre, fenced_block ws1 body ws2, Some (py "{" ++ body ++ py "}")).
Proof.
  unfold re_search, text. rewrite search_from_prefix
    by (intros p1 p2 Hsplit Hne; apply before_block with (p1 := p1); assumption).
  pose proof (@fenced_group_match ws1 body ws2 post Hws1 Hbody Hws2 (0 + length pre))
    as Hm.
  destruct (fenced_block ws1 body ws2 ++ post) eqn:E;
    cbn [search_from]; rewrite Hm; cbn [m_pos m_grp];
    replace (0 + length pre + length (fenced_block ws1 body ws2) - (0 + length pre))
      with (length (fenced_block ws1 body ws2)) by lia;
    rewrite <- E, firstn_app, Nat.sub_diag, firstn_all, app_nil_r; reflexivity.
Qed.

End FencedReply.

(** C8, as stated, fails: the structured block of this reply is read, and
    what is left of the reply keeps the braces of its first line. *)
Lemma strip_json_keeps_outer_braces :
  let text := py "Noted {Ann}." ++ [LF] ++ fenced_block [LF] sample_body [LF] in
  extract_json_from_response sample_python text
  = Some [(py "extracted",
           JObj [(py "full_name", JStr (py "Ann")); (py "email", JStr [])]);
          (py "all_collected", JBool true)]
  /\ strip_json_from_response text = py "Noted {Ann}."
  /\ existsb (fun c => negb (no_brace c)) (strip_json_from_response text) = true.
Proof. cbv zeta. split_all; vm_compute; reflexivity. Qed.

(** A reply of the instructed shape: text without braces, one fenced
    block (the opening fence, whitespace, an object whose body has no
    backtick, whitespace, the closing fence) and again text without braces.
    [extract_json_from_response] returns the object of the block whenever
    [json.loads] reads it, and what [strip_json_from_response] returns is
    the trimmed text around the block, with no brace in it. *)
Lemma fenced_reply_clean (pre ws1 body ws2 post : str)
    (Hpre : Forall (fun c => no_brace c = true) pre)
    (Hws1 : Forall (fun c => isspace c = true) ws1)
    (Hbody : Forall (fun c => no_backtick c = true) body)
    (Hws2 : Forall (fun c => isspace c = true) ws2)
    (Hpost : Forall (fun c => no_brace c = true) post) :
  let text := pre ++ fenced_block ws1 body ws2 ++ post in
  (forall rt d,
      loads_dict rt (py "{" ++ body ++ py "}") = Some d ->
      extract_json_from_response rt text = Some d)
  /\ strip_json_from_response text
     = re_sub RE_BLANK_LINES [LF; LF] (strip (pre ++ post))
  /\ Forall (fun c => no_brace c = true) (strip_json_from_response text).
Proof.
  cbv zeta.
  assert (Forall (fun c => no_brace c = true) (pre ++ post)) as Hclean
    by (apply Forall_app; split; assumption).
  assert (strip_json_from_response (pre ++ fenced_block ws1 body ws2 ++ post)
          = re_sub RE_BLANK_LINES [LF; LF] (strip (pre ++ post))) as Hstrip.
  { unfold strip_json_from_response.
    rewrite remove_fenced_block by assumption.
    unfold re_sub at 2.
    rewrite clean_text_sub by (try exact Hclean; right; reflexivity).
    reflexivity. }
  split; [|split].
  - intros rt d Hd. unfold extract_json_from_response.
    rewrite search_fenced_block by assumption. rewrite Hd. reflexivity.
  - exact Hstrip.
  - rewrite Hstrip. unfold re_sub.
    apply sub_from_forall; [repeat constructor|].
    apply strip_forall, Hclean.
Qed.

Lemma fenced_reply_clean_sample :
  extract_json_from_response sample_python sample_response
  = Some [(py "extracted",
           JObj [(py "full_name", JStr (py "Ann")); (py "email", JStr [])]);
          (py "all_collected", JBool true)]
  /\ Forall (fun c => no_brace c = true)
       (strip_json_from_response sample_response).
Proof.
  assert (Forall (fun c => no_brace c = true) (py "Thanks, Ann!" ++ [LF])) as Hpre
    by (repeat constructor).
  assert (Forall (fun c => isspace c = true) [LF]) as Hws
    by (repeat constructor).
  assert (Forall (fun c => no_backtick c = true) sample_body) as Hbody
    by (repeat constructor).
  assert (Forall (fun c => no_brace c = true) []) as Hpost by constructor.
  pose proof (fenced_reply_clean Hpre Hws Hbody Hws Hpost) as Hw.
  cbv zeta in Hw. destruct Hw as (Hextract & _ & Hclean).
  split.
  - apply (Hextract sample_python). reflexivity.
  - exact Hclean.
Qed.

(** *** What a match consumes *)

(** The matcher hands its continuation the text behind a prefix of what it
    was given, at the offset behind that prefix. *)
Lemma lit_ext (l : str) (k : mstate -> option mstate) (g : option str)
    (res : mstate) :
  forall pos s,
    lit l k pos g s = Some res ->
    exists a rest,
      s = a ++ rest /\ k (MState (pos + length a) rest g) = Some res.
Proof.
  induction l as [|c l IH]; intros pos s H.
  - exists [], s. cbn [lit] in H. cbn [app length]. rewrite Nat.add_0_r.
    split; [reflexivity|exact H].
  - cbn [lit] in H. destruct s as [|d s]; [discriminate H|].
    destruct (chr_eqb d c); [|discriminate H].
    apply IH in H as (a & rest & -> & H).
    exists (d :: a), rest. cbn [app length]. rewrite Nat.add_succ_r.
    split; [reflexivity|exact H].
Qed.

Lemma rep_ext (lazy : bool) (cls : char -> bool) (k : mstate -> option mstate)
    (g : option str) (res : mstate) :
  forall s lo hi pos,
    rep lazy cls lo hi k pos g s = Some res ->
    exists a rest,
      s = a ++ rest /\ k (MState (pos + length a) rest g) = Some res.
Proof.
  assert (forall lo pos s,
             match lo with 0 => k (MState pos s g) | S _ => None end = Some res ->
             exists a rest,
               s = a ++ rest /\ k (MState (pos + length a) rest g) = Some res)
    as Hstop.
  { intros [|lo] pos s H; [|discriminate H].
    exists [], s. cbn [app length]. rewrite Nat.add_0_r. auto. }
  induction s as [|c s IH]; intros lo hi pos H.
  - apply (Hstop lo). destruct lazy; cbn [rep] in H.
    + destruct (match lo with 0 => k (MState pos [] g) | S _ => None end);
        [exact H|discriminate H].
    + exact H.
  - assert (rep lazy cls (pred lo) (took hi) k (S pos) g s = Some res ->
            exists a rest,
              c :: s = a ++ rest
              /\ k (MState (pos + length a) rest g) = Some res) as Hgo.
    { intros H'. apply IH in H' as (a & rest & -> & H').
      exists (c :: a), rest. cbn [app length]. rewrite Nat.add_succ_r. auto. }
    destruct lazy; cbn [rep] in H.
    + destruct (match lo with 0 => k (MState pos (c :: s) g) | S _ => None end)
        eqn:E.
      * apply (Hstop lo). rewrite E. exact H.
      * destruct (cls c && may_take hi)%bool; [apply Hgo, H|discriminate H].
    + destruct (cls c && may_take hi)%bool; [|apply (Hstop lo), H].
      destruct (rep false cls (pred lo) (took hi) k (S pos) g s) eqn:E;
        [|apply (Hstop lo), H].
      apply Hgo. rewrite <- H. reflexivity.
Qed.

Lemma run_ext (r : regex) :
  forall k st res,
    run r k st = Some res ->
    exists a rest g,
      m_rest st = a ++ rest
      /\ k (MState (m_pos st + length a) rest g) = Some res.
Proof.
  induction r as [| |l|lazy lo hi cls|r IH|r1 IH1 r2 IH2];
    intros k [pos s g0] res H; cbn [run m_pos m_rest m_grp] in *.
  - destruct pos; [|discriminate H].
    exists [], s, g0. split; [reflexivity|exact H].
  - exists [], s, g0. cbn [app length]. rewrite Nat.add_0_r.
    split; [reflexivity|].
    destruct s as [|c [|c' s]]; [exact H| |discriminate H].
    destruct (chr_eqb c LF); [exact H|discriminate H].
  - apply lit_ext in H as (a & rest & -> & H). exists a, rest, g0. auto.
  - apply rep_ext in H as (a & rest & -> & H). exists a, rest, g0. auto.
  - apply IH in H as (a & rest & g & Hs & H). cbn [m_pos m_rest] in *.
    eexists a, rest, _. split; [exact Hs|exact H].
  - apply IH1 in H as (a & rest & g & Hs & H).
    apply IH2 in H as (b & rest' & g' & Hs' & H).
    cbn [m_pos m_rest] in *. subst.
    exists (a ++ b), rest', g'. rewrite <- app_assoc, length_app, Nat.add_assoc.
    split; [reflexivity|exact H].
Qed.

Lemma match_ext (r : regex) (pos : nat) (s : str) (st : mstate) :
  match_at r pos s = Some st ->
  exists a, s = a ++ m_rest st /\ m_pos st = pos + length a.
Proof.
  intros H. apply run_ext in H as (a & rest & g & Hs & H).
  cbn [m_pos m_rest] in *. injection H as <-. exists a. cbn [m_pos m_rest].
  split; [exact Hs|reflexivity].
Qed.

(** *** A pattern and its group *)

(** Two outcomes of the matcher that end at the same place. *)
Definition same_place (o1 o2 : option mstate) : Prop :=
  match o1, o2 with
  | Some a, Some b => m_pos a = m_pos b /\ m_rest a = m_rest b
  | None, None => True
  | _, _ => False
  end.

(** Two continuations that look at no group. *)
Definition alike (k1 k2 : mstate -> option mstate) : Prop :=
  forall pos s g1 g2, same_place (k1 (MState pos s g1)) (k2 (MState pos s g2)).

(** A pattern with the parentheses of its groups taken off. *)
Fixpoint ungrouped (r : regex) : regex :=
  match r with
  | Grp r' => ungrouped r'
  | Seq r1 r2 => Seq (ungrouped r1) (ungrouped r2)
  | _ => r
  end.

Lemma same_place_orelse (o1 o2 p1 p2 : option mstate) :
  same_place o1 o2 -> same_place p1 p2 ->
  same_place (match o1 with Some x => Some x | None => p1 end)
    (match o2 with Some x => Some x | None => p2 end).
Proof. destruct o1, o2; cbn; tauto. Qed.

Lemma lit_alike (l : str) (k1 k2 : mstate -> option mstate) :
  alike k1 k2 ->
  forall pos s g1 g2, same_place (lit l k1 pos g1 s) (lit l k2 pos g2 s).
Proof.
  intros Hk. induction l as [|c l IH]; intros pos s g1 g2; cbn [lit].
  - apply Hk.
  - destruct s as [|d s]; [exact I|].
    destruct (chr_eqb d c); [apply IH|exact I].
Qed.

Lemma rep_alike (lazy : bool) (cls : char -> bool)
    (k1 k2 : mstate -> option mstate) :
  alike k1 k2 ->
  forall s lo hi pos g1 g2,
    same_place (rep lazy cls lo hi k1 pos g1 s) (rep lazy cls lo hi k2 pos g2 s).
Proof.
  intros Hk.
  assert (forall lo pos s g1 g2,
             same_place
               (match lo with 0 => k1 (MState pos s g1) | S _ => None end)
               (match lo with 0 => k2 (MState pos s g2) | S _ => None end))
    as Hstop by (intros [|lo] pos s g1 g2; [apply Hk|exact I]).
  induction s as [|c s IH]; intros lo hi pos g1 g2.
  - destruct lazy; cbn [rep].
    + apply same_place_orelse; [apply Hstop|exact I].
    + apply Hstop.
  - destruct lazy; cbn [rep]; apply same_place_orelse;
      try apply Hstop;
      destruct (cls c && may_take hi)%bool; try exact I; apply IH.
Qed.

Lemma run_alike (r : regex) :
  forall k1 k2, alike k1 k2 -> alike (run r k1) (run (ungrouped r) k2).
Proof.
  induction r as [| |l|lazy lo hi cls|r IH|r1 IH1 r2 IH2];
    intros k1 k2 Hk pos s g1 g2; cbn [run ungrouped m_pos m_rest m_grp].
  - destruct pos; [apply Hk|exact I].
  - destruct s as [|c [|c' s]]; [apply Hk| |exact I].
    destruct (chr_eqb c LF); [apply Hk|exact I].
  - apply lit_alike, Hk.
  - apply rep_alike, Hk.
  - apply IH. intros p t h1 h2. cbn [m_pos m_rest]. apply Hk.
  - apply IH1, IH2, Hk.
Qed.

(** The two fenced patterns match the same texts at the same places. *)
Lemma fenced_alike (pos : nat) (s : str) :
  same_place (match_at RE_FENCED_GROUP pos s) (match_at RE_FENCED pos s).
Proof.
  unfold match_at.
  change (run RE_FENCED Some (MState pos s None))
    with (run (ungrouped RE_FENCED_GROUP) Some (MState pos s None)).
  apply run_alike. intros p t g1 g2. cbn. auto.
Qed.

Lemma same_place_refl (o : option mstate) : same_place o o.
Proof. destruct o; cbn; auto. Qed.

(** *** The leftmost match *)

Lemma search_from_found (r : regex) :
  forall s pos start whole g,
    search_from r pos s = Some (start, whole, g) ->
    exists pre post,
      s = pre ++ whole ++ post
      /\ start = pos + length pre
      /\ (forall p1 p2, pre = p1 ++ p2 -> p2 <> [] ->
                        match_at r (pos + length p1) (p2 ++ whole ++ post) = None)
      /\ match_at r start (whole ++ post)
         = Some (MState (start + length whole) post g).
Proof.
  assert (forall s pos st,
             match_at r pos s = Some st ->
             exists post,
               s = firstn (m_pos st - pos) s ++ post
               /\ match_at r pos (firstn (m_pos st - pos) s ++ post)
                  = Some (MState (pos + length (firstn (m_pos st - pos) s))
                            post (m_grp st)))
    as Hhere.
  { intros s pos st Hm. destruct (@match_ext r pos s st Hm) as (a & Hs & Hp).
    exists (m_rest st).
    assert (firstn (m_pos st - pos) s = a) as ->.
    { rewrite Hp. replace (pos + length a - pos) with (length a) by lia.
      rewrite Hs at 1. rewrite firstn_app, Nat.sub_diag, firstn_all.
      cbn [firstn]. apply app_nil_r. }
    rewrite <- Hs, Hm, <- Hp. split; [reflexivity|]. destruct st; reflexivity. }
  induction s as [|c s IH]; intros pos start whole g H; cbn [search_from] in H.
  - destruct (match_at r pos []) as [st|] eqn:Hm; [|discriminate H].
    injection H as <- <- <-.
    destruct (Hhere _ _ _ Hm) as (post & Hs & Hm').
    exists [], post. cbn [app length]. rewrite Nat.add_0_r.
    split_all; [exact Hs|reflexivity| |exact Hm'].
    intros p1 p2 Hsplit Hne. destruct p1, p2; try discriminate Hsplit.
    contradiction Hne; reflexivity.
  - destruct (match_at r pos (c :: s)) as [st|] eqn:Hm.
    + injection H as <- <- <-.
      destruct (Hhere _ _ _ Hm) as (post & Hs & Hm').
      exists [], post. cbn [app length]. rewrite Nat.add_0_r.
      split_all; [exact Hs|reflexivity| |exact Hm'].
      intros p1 p2 Hsplit Hne. destruct p1, p2; try discriminate Hsplit.
      contradiction Hne; reflexivity.
    + apply IH in H as (pre & post & Hs & Hstart & Hnone & Hat).
      exists (c :: pre), post. cbn [app length]. rewrite Nat.add_succ_r.
      split_all; [rewrite Hs; reflexivity|exact Hstart| |exact Hat].
      intros p1 p2 Hsplit Hne. destruct p1 as [|d p1].
      * cbn [app length] in *. subst p2. rewrite Nat.add_0_r.
        cbn [app]. rewrite <- Hs. exact Hm.
      * cbn [app length] in *. injection Hsplit as -> Hsplit.
        rewrite Nat.add_succ_r. apply Hnone; assumption.
Qed.

Lemma search_from_nowhere (r : regex) :
  forall s pos,
    search_from r pos s = None ->
    forall p1 p2, s = p1 ++ p2 -> match_at r (pos + length p1) p2 = None.
Proof.
  induction s as [|c s IH]; intros pos H p1 p2 Hsplit; cbn [search_from] in H.
  - destruct (match_at r pos []) eqn:Hm; [destruct m; discriminate H|].
    destruct p1, p2; try discriminate Hsplit.
    cbn [length]. rewrite Nat.add_0_r. exact Hm.
  - destruct (match_at r pos (c :: s)) eqn:Hm; [destruct m; discriminate H|].
    destruct p1 as [|d p1]; cbn [app length] in *.
    + subst p2. rewrite Nat.add_0_r. exact Hm.
    + injection Hsplit as -> Hsplit. rewrite Nat.add_succ_r.
      apply (IH (S pos) H), Hsplit.
Qed.

(** *** Removing the leftmost block *)

Section BlockRemoved.

(** [r] is the pattern searched for, [r'] the pattern substituted. *)
Variables r r' : regex.
Hypothesis Halike :
  forall pos s, same_place (match_at r pos s) (match_at r' pos s).
Hypothesis Hclean :
  forall pos t, Forall (fun c => no_brace c = true) t -> match_at r' pos t = None.

Lemma alike_none (pos : nat) (s : str) :
  match_at r pos s = None -> match_at r' pos s = None.
Proof.
  intros H. pose proof (Halike pos s) as Hs. rewrite H in Hs.
  destruct (match_at r' pos s); [contradiction Hs|reflexivity].
Qed.

Lemma clean_rest (t : str) (pos : nat) :
  Forall (fun c => no_brace c = true) t -> sub_from r' [] pos 0 t = t.
Proof.
  intros Ht. apply sub_from_none. intros p1 p2 Hsplit.
  rewrite Hsplit in Ht. apply Hclean. exact (forall_suffix _ _ Ht).
Qed.

Lemma block_removed (text whole : str) (start : nat) (g : option str) :
  re_search r text = Some (start, whole, g) ->
  exists pre post,
    text = pre ++ whole ++ post
    /\ start = length pre
    /\ (Forall (fun c => no_brace c = true) post ->
        re_sub r' [] text = pre ++ post).
Proof.
  intros H. apply search_from_found in H as (pre & post & Hs & Hstart & Hnone & Hat).
  cbn [Nat.add] in Hstart. exists pre, post. split_all; [exact Hs|exact Hstart|].
  intros Hpost. unfold re_sub. rewrite Hs.
  rewrite sub_from_prefix
    by (intros p1 p2 Hsplit Hne; apply alike_none, Hnone; assumption).
  f_equal. cbn [Nat.add]. rewrite <- Hstart.
  pose proof (Halike start (whole ++ post)) as Hm. rewrite Hat in Hm.
  destruct (match_at r' start (whole ++ post)) as [[p t h]|] eqn:Hat';
    [|contradiction Hm].
  unfold same_place in Hm. cbn [m_pos m_rest] in Hm. destruct Hm as [Hp Ht].
  subst p t.
  assert (whole <> []) as Hne.
  { intros ->. cbn [app] in Hat'. rewrite (Hclean start Hpost) in Hat'.
    discriminate Hat'. }
  rewrite (@sub_from_match r' [] whole post start h Hne Hat').
  apply clean_rest, Hpost.
Qed.

Lemma nothing_removed (text : str) :
  re_search r text = None -> re_sub r' [] text = text.
Proof.
  intros H. unfold re_sub. apply sub_from_none. intros p1 p2 Hsplit.
  apply alike_none. exact (@search_from_nowhere r text 0 H p1 p2 Hsplit).
Qed.

End BlockRemoved.

(** *** Any block that extraction comes to *)

(** The block that the two searches of [extract_json_from_response] come
    to, as (offset, text): the leftmost fenced block, and in a reply
    without a fenced block the leftmost raw object. *)
Definition first_block (text : str) : option (nat * str) :=
  match re_search RE_FENCED_GROUP text with
  | Some (start, whole, _) => Some (start, whole)
  | None =>
      match re_search RE_RAW text with
      | Some (start, whole, _) => Some (start, whole)
      | None => None
      end
  end.

(** Extraction returns a mapping only from a reply that has a block. *)
Lemma extract_json_needs_block (rt : Python) (text : str)
    (d : list (str * json)) :
  extract_json_from_response rt text = Some d ->
  exists start whole, first_block text = Some (start, whole).
Proof.
  unfold extract_json_from_response, first_block.
  destruct (re_search RE_FENCED_GROUP text) as [[[start whole] g]|].
  - intros _. exists start, whole. reflexivity.
  - destruct (re_search RE_RAW text) as [[[start whole] g]|].
    + intros _. exists start, whole. reflexivity.
    + discriminate.
Qed.

Lemma fenced_clean (pos : nat) (t : str) :
  Forall (fun c => no_brace c = true) t -> match_at RE_FENCED pos t = None.
Proof. intros Ht. apply (@clean_text_no_match t pos Ht). Qed.

Lemma raw_clean (pos : nat) (t : str) :
  Forall (fun c => no_brace c = true) t -> match_at RE_RAW pos t = None.
Proof. intros Ht. apply (@clean_text_no_match t pos Ht). Qed.

(** With no brace around the block, the two substitutions leave the text
    around it. *)
Lemma first_block_removed (text whole : str) (start : nat) :
  first_block text = Some (start, whole) ->
  exists pre post,
    text = pre ++ whole ++ post
    /\ start = length pre
    /\ (Forall (fun c => no_brace c = true) pre ->
        Forall (fun c => no_brace c = true) post ->
        re_sub RE_RAW [] (re_sub RE_FENCED [] text) = pre ++ post).
Proof.
  unfold first_block.
  destruct (re_search RE_FENCED_GROUP text) as [[[start1 whole1] g1]|] eqn:Hf.
  - intros H. injection H as -> ->.
    destruct (@block_removed RE_FENCED_GROUP RE_FENCED fenced_alike
                fenced_clean text whole start g1 Hf)
      as (pre & post & Hs & Hstart & Hsub).
    exists pre, post. split_all; [exact Hs|exact Hstart|].
    intros Hpre Hpost. rewrite (Hsub Hpost).
    apply clean_text_sub; [right; reflexivity|].
    apply Forall_app. split; assumption.
  - destruct (re_search RE_RAW text) as [[[start2 whole2] g2]|] eqn:Hr;
      [|discriminate].
    intros H. injection H as -> ->.
    rewrite (@nothing_removed RE_FENCED_GROUP RE_FENCED fenced_alike text Hf).
    destruct (@block_removed RE_RAW RE_RAW
                (fun pos s => same_place_refl (match_at RE_RAW pos s))
                raw_clean text whole start g2 Hr)
      as (pre & post & Hs & Hstart & Hsub).
    exists pre, post. split_all; [exact Hs|exact Hstart|].
    intros _ Hpost. exact (Hsub Hpost).
Qed.

Lemma split_at_block (pre whole post : str) :
  firstn (length pre) (pre ++ whole ++ post) = pre
  /\ skipn (length pre + length whole) (pre ++ whole ++ post) = post.
Proof.
  split.
  - rewrite firstn_app, Nat.sub_diag, firstn_all. cbn [firstn].
    apply app_nil_r.
  - rewrite app_assoc, <- length_app.
    rewrite skipn_app, Nat.sub_diag, skipn_all. reflexivity.
Qed.

(** C8, amended: a reply on which [extract_json_from_response] succeeds has
    a block, the leftmost fenced block or, without a fenced block, the
    leftmost raw object with the key "extracted". Whenever the text before
    that block and the text behind it hold no brace, what
    [strip_json_from_response] returns is that text, trimmed and with its
    blank lines collapsed, and holds no brace. The block itself is under
    no condition. *)
Theorem strip_json_clean_around_block (rt : Python) (text : str)
    (d : list (str * json)) :
  extract_json_from_response rt text = Some d ->
  exists start whole,
    let before := firstn start text in
    let behind := skipn (start + length whole) text in
    first_block text = Some (start, whole)
    /\ text = before ++ whole ++ behind
    /\ (Forall (fun c => no_brace c = true) before ->
        Forall (fun c => no_brace c = true) behind ->
        strip_json_from_response text
        = re_sub RE_BLANK_LINES [LF; LF] (strip (before ++ behind))
        /\ Forall (fun c => no_brace c = true)
             (strip_json_from_response text)).
Proof.
  intros Hd.
  destruct (@extract_json_needs_block rt text d Hd) as (start & whole & Hblock).
  exists start, whole. cbv zeta.
  destruct (@first_block_removed text whole start Hblock)
    as (pre & post & Hs & Hstart & Hsub).
  destruct (split_at_block pre whole post) as [Hpre Hpost].
  rewrite <- Hs, <- Hstart in Hpre, Hpost. rewrite Hpre, Hpost.
  split_all; [exact Hblock|exact Hs|].
  intros Hb1 Hb2.
  assert (strip_json_from_response text
          = re_sub RE_BLANK_LINES [LF; LF] (strip (pre ++ post))) as Hstrip.
  { unfold strip_json_from_response. rewrite (Hsub Hb1 Hb2). reflexivity. }
  split; [exact Hstrip|].
  rewrite Hstrip. unfold re_sub.
  apply sub_from_forall; [repeat constructor|].
  apply strip_forall, Forall_app. split; assumption.
Qed.

(** A reply with its object outside any fence. *)
Definition raw_response : str := py "Hi " ++ sample_payload ++ py " bye".

Lemma strip_json_clean_around_block_witness :
  first_block sample_response
  = Some (13, fenced_block [LF] sample_body [LF])
  /\ strip_json_from_response sample_response = py "Thanks, Ann!"
  /\ Forall (fun c => no_brace c = true)
       (strip_json_from_response sample_response)
  /\ first_block raw_response = Some (3, sample_payload)
  /\ strip_json_from_response raw_response = py "Hi  bye"
  /\ Forall (fun c => no_brace c = true)
       (strip_json_from_response raw_response).
Proof.
  assert (forall text start whole,
             extract_json_from_response sample_python text
             = Some [(py "extracted",
                      JObj [(py "full_name", JStr (py "Ann"));
                            (py "email", JStr [])]);
                     (py "all_collected", JBool true)] ->
             first_block text = Some (start, whole) ->
             forallb no_brace (firstn start text) = true ->
             forallb no_brace (skipn (start + length whole) text) = true ->
             Forall (fun c => no_brace c = true)
               (strip_json_from_response text)) as Hclean.
  { intros text start whole Hd Hblock Hb1 Hb2.
    destruct (@strip_json_clean_around_block sample_python text _ Hd)
      as (start' & whole' & Hw).
    cbv zeta in Hw. destruct Hw as (Hblock' & _ & Hw).
    rewrite Hblock in Hblock'. injection Hblock' as <- <-.
    apply Hw; apply Forall_forall, forallb_forall; assumption. }
  split_all; try (vm_compute; reflexivity).
  - apply (Hclean _ 13 (fenced_block [LF] sample_body [LF]));
      vm_compute; reflexivity.
  - apply (Hclean _ 3 sample_payload); vm_compute; reflexivity.
Defined.

(* ===================================================================== *)
(** ** Properties: the engine *)
(* ===================================================================== *)

Section EngineProperties.

Variable rt : Python.
Variable prompts : Prompts.
Variable provider : Provider.

Lemma nonempty_with_break (a b : str) : nonempty (a ++ [LF; LF] ++ b) = true.
Proof. destruct a; reflexivity. Qed.

(** [get_chat_response] logs its request and returns the provider's text,
    or the apology when the provider raises. *)
Lemma get_chat_response_run msgs sp temperature max_tokens (l : LLMClient) :
  let rq :=
    Build_Request (model l)
      ((if nonempty sp then [Msg system sp] else []) ++ msgs)
      temperature max_tokens in
  get_chat_response provider msgs sp temperature max_tokens l
  = (reply provider l rq, log l rq).
Proof.
  cbv zeta. unfold get_chat_response, reply, log.
  destruct (provider _ _); reflexivity.
Qed.

Lemma chat_run msgs sp (s : ConversationManager) :
  let rq :=
    Build_Request (model (llm s))
      ((if nonempty sp then [Msg system sp] else []) ++ msgs)
      TEMPERATURE MAX_TOKENS in
  chat provider msgs sp s
  = (Returns (reply provider (llm s) rq), set_llm (log (llm s) rq) s).
Proof.
  cbv zeta. unfold chat. run_method.
  rewrite get_chat_response_run. reflexivity.
Qed.

Lemma _handle_fallback_run (user_message : str) (s : ConversationManager) :
  _handle_fallback rt prompts provider user_message s
  = (Returns (reply provider (llm s) (fallback_request rt prompts user_message s)),
     set_llm (log (llm s) (fallback_request rt prompts user_message s)) s).
Proof.
  unfold _handle_fallback, _build_system_prompt. run_method.
  rewrite chat_run. rewrite nonempty_with_break. reflexivity.
Qed.

Lemma _analyze_sentiment_run (message : str) (s : ConversationManager) :
  exists label,
    _analyze_sentiment rt prompts provider message s
    = (Returns label,
       set_current_sentiment label
         (set_llm (log (llm s) (sentiment_request prompts message s)) s)).
Proof.
  unfold _analyze_sentiment, analyze_sentiment. run_method.
  rewrite get_chat_response_run. cbn [nonempty app].
  eexists. reflexivity.
Qed.

Lemma _handle_exit_run (s : ConversationManager) :
  _handle_exit rt prompts provider s
  = (Returns (reply provider (llm s) (exit_request rt prompts s)),
     set_state ENDED (set_llm (log (llm s) (exit_request rt prompts s)) s)).
Proof.
  unfold _handle_exit, _build_system_prompt. run_method.
  rewrite chat_run. reflexivity.
Qed.

Lemma last_n_length {A} (n : nat) (l : list A) :
  length (last_n n l) = Nat.min n (length l).
Proof. unfold last_n. rewrite length_skipn. lia. Qed.

Lemma last_n_suffix {A} (n : nat) (l : list A) :
  l = firstn (length l - n) l ++ last_n n l.
Proof. unfold last_n. symmetry. apply firstn_skipn. Qed.

(** C5, amended: for every transcript and message the fallback handler
    passes the last six transcript entries (three exchanges) to the model,
    after the system message, and leaves the phase and the rest of the
    manager as they are. *)
Theorem fallback_passes_last_six (user_message : str) (s : ConversationManager) :
  exists rq system_text,
    _handle_fallback rt prompts provider user_message s
    = (Returns (reply provider (llm s) rq), set_llm (log (llm s) rq) s)
    /\ rq_messages rq = Msg system system_text :: last_n 6 (messages s)
    /\ messages s = firstn (length (messages s) - 6) (messages s)
                    ++ last_n 6 (messages s)
    /\ length (last_n 6 (messages s)) = Nat.min 6 (length (messages s))
    /\ state (after (_handle_fallback rt prompts provider user_message) s)
       = state s.
Proof.
  eexists. eexists. rewrite _handle_fallback_run.
  split; [reflexivity|]. split; [reflexivity|].
  split; [apply last_n_suffix|]. split; [apply last_n_length|].
  unfold after. rewrite _handle_fallback_run. reflexivity.
Qed.

Lemma process_message_exit (user_message : str) (s : ConversationManager) :
  check_exit_intent (str_lower rt) (sanitize_input user_message) EXIT_KEYWORDS
  = true ->
  let entry := Msg user (sanitize_input user_message) in
  let rq := exit_request rt prompts (append_message entry s) in
  process_message rt prompts provider user_message s
  = (Returns (reply provider (llm s) rq, current_sentiment s),
     Manager (log (llm s) rq) ENDED (candidate s) (messages s ++ [entry])
       (technical_questions_asked s) (current_sentiment s)
       (raw_tech_questions s)).
Proof.
  intros Hexit. cbv zeta. unfold process_message. run_method.
  rewrite Hexit. rewrite _handle_exit_run. reflexivity.
Qed.

(** C2: when the sanitised message shows exit intent, [process_message]
    returns the exit reply with the mood cached before the call, makes the
    one model call of the exit handler, and leaves a manager that differs
    from the old one in the phase, now ENDED, and the appended user entry. *)
Theorem exit_short_circuit (user_message : str) (s : ConversationManager)
    (Hexit : check_exit_intent (str_lower rt) (sanitize_input user_message)
               EXIT_KEYWORDS = true) :
  let entry := Msg user (sanitize_input user_message) in
  let rq := exit_request rt prompts (append_message entry s) in
  process_message rt prompts provider user_message s
  = (Returns (reply provider (llm s) rq, current_sentiment s),
     Manager (log (llm s) rq) ENDED (candidate s) (messages s ++ [entry])
       (technical_questions_asked s) (current_sentiment s)
       (raw_tech_questions s))
  /\ requests (log (llm s) rq) = requests (llm s) ++ [rq].
Proof.
  split; [exact (process_message_exit _ _ Hexit)|reflexivity].
Qed.

(** C10: a message without exit intent sent to an ended conversation does
    not raise; after the mood call the fallback handler answers it, the
    phase stays ENDED, and the sanitised message and the reply are appended
    to the transcript. *)
Theorem ended_message_falls_back (user_message : str) (s : ConversationManager)
    (Hended : state s = ENDED)
    (Hstay : check_exit_intent (str_lower rt) (sanitize_input user_message)
               EXIT_KEYWORDS = false) :
  let text := sanitize_input user_message in
  let s1 := turn_start rt prompts provider user_message s in
  exists response mood,
    _handle_fallback rt prompts provider text s1
    = (Returns response,
       set_llm (log (llm s1) (fallback_request rt prompts text s1)) s1)
    /\ process_message rt prompts provider user_message s
       = (Returns (response, mood),
          append_message (Msg assistant response)
            (set_llm (log (llm s1) (fallback_request rt prompts text s1)) s1))
    /\ state (after (process_message rt prompts provider user_message) s) = ENDED
    /\ messages (after (process_message rt prompts provider user_message) s)
       = messages s ++ [Msg user text; Msg assistant response]
    /\ candidate (after (process_message rt prompts provider user_message) s)
       = candidate s.
Proof.
  cbv zeta. unfold turn_start, after.
  destruct (_analyze_sentiment_run (sanitize_input user_message)
              (append_message (Msg user (sanitize_input user_message)) s))
    as [label Hmood].
  unfold process_message. run_method.
  rewrite Hstay, Hmood. cbn [state set_current_sentiment set_llm append_message].
  rewrite Hended. rewrite _handle_fallback_run.
  eexists. exists label.
  split; [reflexivity|]. split; [reflexivity|].
  cbn. rewrite Hended, <- app_assoc. repeat split; reflexivity.
Qed.

(** *** The information-gathering handler, in two steps *)

(** The step that reads the structured block of a reply into the profile. *)
Definition absorb (response : str) : M unit :=
  match extract_json_from_response rt response with
  | Some (item :: items) =>
      match dict_get (py "extracted") (item :: items) with
      | Some (JObj extracted) =>
          bind (merge_into_candidate rt extracted)
            (fun _ =>
               bind (gets candidate)
                 (fun c' =>
                    when (truthy (dict_get_default (py "all_collected") JNull (item :: items))
                          || is_complete c')
                      (modify (set_state TECH_QUESTIONS))))
      | Some _ => raise AttributeError
      | None => ret tt
      end
  | _ => ret tt
  end.

(** The step that follows: the completeness check, the cleaned reply, and
    the questions when the phase has just become TECH_QUESTIONS. *)
Definition conclude (response : str) (s : ConversationManager)
    : outcome str * ConversationManager :=
  let s1 :=
    if (is_complete (candidate s) && negb (state_eqb (state s) TECH_QUESTIONS))%bool
    then set_state TECH_QUESTIONS s else s in
  if (state_eqb (state s1) TECH_QUESTIONS && negb (technical_questions_asked s1))%bool
  then
    let rq := questions_request prompts (llm s1) (candidate s1) in
    let q := reply provider (llm s1) rq in
    (Returns (rstrip (strip_json_from_response response) ++ [LF; LF] ++ q),
     set_state ANSWERING_QUESTIONS
       (set_technical_questions_asked true
          (set_raw_tech_questions q (set_llm (log (llm s1) rq) s1))))
  else (Returns (strip_json_from_response response), s1).

Lemma _generate_tech_questions_run (s : ConversationManager) :
  let rq := questions_request prompts (llm s) (candidate s) in
  _generate_tech_questions prompts provider s
  = (Returns (reply provider (llm s) rq), set_llm (log (llm s) rq) s).
Proof.
  cbv zeta. unfold _generate_tech_questions, generate_technical_questions.
  run_method. rewrite get_chat_response_run. reflexivity.
Qed.

Lemma _handle_info_gathering_run (user_message : str) (s : ConversationManager) :
  let rq := gathering_request rt prompts s in
  let r := reply provider (llm s) rq in
  _handle_info_gathering rt prompts provider user_message s
  = match absorb r (set_llm (log (llm s) rq) s) with
    | (Returns _, s') => conclude r s'
    | (Raises e, s') => (Raises e, s')
    end.
Proof.
  cbv zeta. unfold _handle_info_gathering, _build_system_prompt.
  run_method. rewrite chat_run, nonempty_with_break.
  fold (system_prompt_of rt prompts s).
  change (Build_Request (model (llm s)) _ TEMPERATURE MAX_TOKENS)
    with (gathering_request rt prompts s).
  set (r := reply provider (llm s) (gathering_request rt prompts s)).
  set (s0 := set_llm (log (llm s) (gathering_request rt prompts s)) s).
  unfold absorb. run_method.
  destruct (extract_json_from_response rt r) as [[|item items]|];
    [| destruct (dict_get (py "extracted") (item :: items)) as [v|] |];
    [| destruct v as [| | | | |ex] | |].
  7: { unfold merge_into_candidate.
       destruct (merge_extracted rt ex (candidate s0)) as [[[]|e] c'];
         [|reflexivity].
       run_method; unfold conclude;
         repeat (split_if; cbv beta iota);
         rewrite ?_generate_tech_questions_run; reflexivity. }
  all: run_method; unfold conclude;
    repeat (split_if; cbv beta iota);
    rewrite ?_generate_tech_questions_run; reflexivity.
Qed.


Lemma absorb_none (r : str) (s : ConversationManager) :
  extract_json_from_response rt r = None -> absorb r s = (Returns tt, s).
Proof. intros H. unfold absorb. rewrite H. reflexivity. Qed.

(** The profile the merging loop leaves, whether it raised or not. *)
Definition merged (ex : list (str * json)) (c : CandidateInfo) : CandidateInfo :=
  snd (merge_extracted rt ex c).

(** An item at which the loop raises: a usable value under a name that is
    no field and that [setattr] refuses. *)
Definition refused (item : str * json) : bool :=
  (usable (snd item)
   && match field_of_name (fst item) with
      | Some _ => false
      | None =>
          match attribute_of rt (fst item) with
          | ReadOnly => true
          | _ => false
          end
      end)%bool.


Lemma merge_item_refused (c : CandidateInfo) (item : str * json) :
  merge_item rt c item = None <-> refused item = true.
Proof.
  destruct item as [k v]. unfold merge_item, refused. cbn [fst snd].
  destruct (usable v); cbn [andb]; [|split; discriminate].
  destruct (field_of_name k) as [f|].
  - destruct (getattr c f); split; discriminate.
  - destruct (attribute_of rt k); split; try discriminate; reflexivity.
Qed.

(** The loop raises exactly when the mapping holds an item that is
    refused. *)
Lemma merge_extracted_outcome (ex : list (str * json)) :
  forall c,
    fst (merge_extracted rt ex c)
    = if existsb refused ex then Raises AttributeError else Returns tt.
Proof.
  induction ex as [|item ex IH]; intros c; cbn [merge_extracted existsb];
    [reflexivity|].
  destruct (merge_item rt c item) as [c'|] eqn:E.
  - assert (refused item = false) as ->.
    { destruct (refused item) eqn:R; [|reflexivity].
      apply (merge_item_refused c) in R. congruence. }
    apply IH.
  - apply (merge_item_refused c) in E. rewrite E. reflexivity.
Qed.

Lemma merge_extracted_eq (ex : list (str * json)) (c : CandidateInfo) :
  merge_extracted rt ex c
  = (if existsb refused ex then Raises AttributeError else Returns tt,
     merged ex c).
Proof.
  rewrite <- (merge_extracted_outcome ex c). unfold merged.
  destruct (merge_extracted rt ex c). reflexivity.
Qed.

(** The manager after a structured block whose "extracted" mapping the
    loop got through. *)
Definition absorbed (d ex : list (str * json)) (s : ConversationManager)
    : ConversationManager :=
  let s' := set_candidate (merged ex (candidate s)) s in
  if (truthy (dict_get_default (py "all_collected") JNull d)
      || is_complete (candidate s'))%bool
  then set_state TECH_QUESTIONS s' else s'.

Lemma absorb_mapping (r : str) (d ex : list (str * json)) (s : ConversationManager) :
  extract_json_from_response rt r = Some d ->
  dict_get (py "extracted") d = Some (JObj ex) ->
  existsb refused ex = false ->
  absorb r s = (Returns tt, absorbed d ex s).
Proof.
  intros Hd Hex Hok. unfold absorb, absorbed. rewrite Hd.
  destruct d as [|item items]; [discriminate Hex|].
  rewrite Hex. unfold merge_into_candidate. run_method.
  rewrite merge_extracted_eq, Hok. cbn [candidate set_candidate].
  destruct (_ || _)%bool; reflexivity.
Qed.

(** When the loop raises, the fields it wrote stay written. *)
Lemma absorb_refused (r : str) (d ex : list (str * json)) (s : ConversationManager) :
  extract_json_from_response rt r = Some d ->
  dict_get (py "extracted") d = Some (JObj ex) ->
  existsb refused ex = true ->
  absorb r s
  = (Raises AttributeError, set_candidate (merged ex (candidate s)) s).
Proof.
  intros Hd Hex Hno. unfold absorb. rewrite Hd.
  destruct d as [|item items]; [discriminate Hex|].
  rewrite Hex. unfold merge_into_candidate. run_method.
  rewrite merge_extracted_eq, Hno. reflexivity.
Qed.

Lemma absorb_cases (r : str) (s : ConversationManager) :
  absorb r s = (Returns tt, s)
  \/ absorb r s = (Raises AttributeError, s)
  \/ (exists d ex,
        extract_json_from_response rt r = Some d
        /\ dict_get (py "extracted") d = Some (JObj ex)
        /\ existsb refused ex = false
        /\ absorb r s = (Returns tt, absorbed d ex s))
  \/ (exists d ex,
        extract_json_from_response rt r = Some d
        /\ dict_get (py "extracted") d = Some (JObj ex)
        /\ existsb refused ex = true
        /\ absorb r s
           = (Raises AttributeError,
              set_candidate (merged ex (candidate s)) s)).
Proof.
  destruct (extract_json_from_response rt r) as [d|] eqn:Hd;
    [|left; apply absorb_none, Hd].
  destruct (dict_get (py "extracted") d) as [v|] eqn:Hex.
  - destruct v as [| | | | |ex];
      try (right; left; unfold absorb; rewrite Hd;
           destruct d; [discriminate Hex|rewrite Hex; reflexivity]).
    destruct (existsb refused ex) eqn:Hok.
    + right; right; right. exists d, ex. repeat split; try assumption.
      apply (@absorb_refused r d ex s); assumption.
    + right; right; left. exists d, ex. repeat split; try assumption.
      apply absorb_mapping; assumption.
  - left. unfold absorb. rewrite Hd.
    destruct d; [reflexivity|]. rewrite Hex. reflexivity.
Qed.

Lemma conclude_returns (r : str) (s : ConversationManager) :
  exists response, conclude r s = (Returns response, snd (conclude r s)).
Proof.
  unfold conclude. repeat (split_if; cbv beta iota); eexists; reflexivity.
Qed.

(** The handler [process_message] picks for a phase. *)
Definition handler_of (st : ConversationState) (text : str) : M str :=
  match st with
  | GATHERING_INFO => _handle_info_gathering rt prompts provider text
  | TECH_QUESTIONS | ANSWERING_QUESTIONS => _handle_tech_interaction rt prompts provider text
  | CLOSING => _handle_closing rt prompts provider
  | _ => _handle_fallback rt prompts provider text
  end.

Lemma turn_start_eq (user_message : str) (s : ConversationManager) :
  let entry := Msg user (sanitize_input user_message) in
  exists label,
    _analyze_sentiment rt prompts provider (sanitize_input user_message)
      (append_message entry s)
    = (Returns label, turn_start rt prompts provider user_message s)
    /\ turn_start rt prompts provider user_message s
       = Manager
           (log (llm s)
              (sentiment_request prompts (sanitize_input user_message) s))
           (state s) (candidate s) (messages s ++ [entry])
           (technical_questions_asked s) label (raw_tech_questions s).
Proof.
  cbv zeta. unfold turn_start, after.
  destruct (_analyze_sentiment_run (sanitize_input user_message)
              (append_message (Msg user (sanitize_input user_message)) s))
    as [label ->].
  exists label. split; reflexivity.
Qed.

Lemma process_message_run (user_message : str) (s : ConversationManager) :
  check_exit_intent (str_lower rt) (sanitize_input user_message) EXIT_KEYWORDS
  = false ->
  let s1 := turn_start rt prompts provider user_message s in
  process_message rt prompts provider user_message s
  = match handler_of (state s) (sanitize_input user_message) s1 with
    | (Returns response, s2) =>
        (Returns (response, current_sentiment s1),
         append_message (Msg assistant response) s2)
    | (Raises e, s2) => (Raises e, s2)
    end.
Proof.
  intros Hstay. cbv zeta.
  destruct (turn_start_eq user_message s) as (label & Hmood & Hs1).
  set (s1 := turn_start rt prompts provider user_message s) in *.
  assert (state s1 = state s) as Hst by (rewrite Hs1; reflexivity).
  assert (current_sentiment s1 = label) as Hl by (rewrite Hs1; reflexivity).
  clearbody s1.
  unfold process_message. run_method. rewrite Hstay, Hmood, Hst, Hl.
  unfold handler_of.
  destruct (state s);
    match goal with
    | |- context [let (_, _) := ?c in _] => destruct c as [[]]
    end; reflexivity.
Qed.

Lemma _handle_tech_interaction_run (text : str) (s : ConversationManager) :
  exists response l,
    _handle_tech_interaction rt prompts provider text s
    = (Returns response, set_llm l s).
Proof.
  unfold _handle_tech_interaction, _build_system_prompt. run_method.
  rewrite chat_run. eexists. eexists. reflexivity.
Qed.

Lemma _handle_closing_run (s : ConversationManager) :
  exists response l,
    _handle_closing rt prompts provider s
    = (Returns response, set_state ENDED (set_llm l s)).
Proof.
  unfold _handle_closing, _build_system_prompt. run_method.
  rewrite chat_run. eexists. eexists. reflexivity.
Qed.


(** *** Merging an extracted mapping *)

Lemma str_eqb_eq (a b : str) : str_eqb a b = true <-> a = b.
Proof.
  revert b. induction a as [|x a IH]; intros [|y b]; cbn;
    try (split; [discriminate|discriminate]); [split; reflexivity|].
  rewrite andb_true_iff. unfold chr_eqb. rewrite N.eqb_eq, IH.
  split; [intros [-> ->]; reflexivity|intros H; inversion H; split; reflexivity].
Qed.

Lemma field_of_name_field (f : Field) : field_of_name (field_name f) = Some f.
Proof. destruct f; reflexivity. Qed.











(** *** What a turn does to the profile and the phase *)

Lemma conclude_candidate (r : str) (s : ConversationManager) :
  candidate (snd (conclude r s)) = candidate s.
Proof. unfold conclude. repeat (split_if; cbv beta iota); reflexivity. Qed.

Lemma absorbed_candidate (d ex : list (str * json)) (s : ConversationManager) :
  candidate (absorbed d ex s) = merged ex (candidate s).
Proof. unfold absorbed. cbv zeta. split_if; reflexivity. Qed.


Lemma turn_start_candidate (user_message : str) (s : ConversationManager) :
  candidate (turn_start rt prompts provider user_message s) = candidate s.
Proof.
  destruct (turn_start_eq user_message s) as (label & _ & ->). reflexivity.
Qed.

Lemma turn_start_state (user_message : str) (s : ConversationManager) :
  state (turn_start rt prompts provider user_message s) = state s.
Proof.
  destruct (turn_start_eq user_message s) as (label & _ & ->). reflexivity.
Qed.


(** A call of [process_message] leaves the profile as it is or as the loop
    over one extracted mapping leaves it, whether the loop raised or not. *)
Lemma process_message_candidate (user_message : str) (s : ConversationManager) :
  candidate (after (process_message rt prompts provider user_message) s)
  = candidate s
  \/ exists ex,
       candidate (after (process_message rt prompts provider user_message) s)
       = merged ex (candidate s).
Proof.
  destruct (check_exit_intent (str_lower rt) (sanitize_input user_message)
              EXIT_KEYWORDS) eqn:Hexit.
  - left. unfold after. rewrite (process_message_exit _ _ Hexit). reflexivity.
  - unfold after. rewrite (process_message_run _ _ Hexit).
    pose proof (turn_start_candidate user_message s) as Hc.
    set (s1 := turn_start rt prompts provider user_message s) in *.
    set (text := sanitize_input user_message).
    destruct (state s); cbn [handler_of].
    + left. rewrite _handle_fallback_run. exact Hc.
    + rewrite _handle_info_gathering_run.
      set (rq := gathering_request rt prompts s1).
      set (r := reply provider (llm s1) rq).
      destruct (absorb_cases r (set_llm (log (llm s1) rq) s1))
        as [->|[->|[(d & ex & _ & _ & _ & ->)|(d & ex & _ & _ & _ & ->)]]].
      * left. destruct (conclude_returns r (set_llm (log (llm s1) rq) s1))
          as [response Hr].
        rewrite Hr. cbn [snd candidate append_message].
        rewrite conclude_candidate. exact Hc.
      * left. exact Hc.
      * right. exists ex.
        destruct (conclude_returns r (absorbed d ex (set_llm (log (llm s1) rq) s1)))
          as [response Hr].
        rewrite Hr. cbn [snd candidate append_message].
        rewrite conclude_candidate, absorbed_candidate. cbn [candidate set_llm].
        rewrite Hc. reflexivity.
      * right. exists ex. cbn [snd candidate set_candidate set_llm].
        rewrite Hc. reflexivity.
    + left. destruct (_handle_tech_interaction_run text s1) as (resp & l & ->).
      exact Hc.
    + left. destruct (_handle_tech_interaction_run text s1) as (resp & l & ->).
      exact Hc.
    + left. destruct (_handle_closing_run s1) as (resp & l & ->). exact Hc.
    + left. rewrite _handle_fallback_run. exact Hc.
Qed.





(** *** The turns that change nothing, and the turn that generates *)

Lemma generate_greeting_run (s : ConversationManager) :
  exists response l,
    generate_greeting rt prompts provider s
    = (Returns response,
       append_message (Msg assistant response)
         (set_state GATHERING_INFO (set_llm l s))).
Proof.
  unfold generate_greeting, _build_system_prompt. run_method.
  rewrite chat_run. eexists. eexists. reflexivity.
Qed.

Lemma conclude_unchanged (r : str) (s : ConversationManager) :
  is_complete (candidate s) = false ->
  state s = GATHERING_INFO ->
  conclude r s = (Returns (strip_json_from_response r), s).
Proof.
  intros Hinc Hphase. unfold conclude. rewrite Hinc, Hphase.
  cbn [andb negb state_eqb]. rewrite Hphase. reflexivity.
Qed.



Lemma extract_apology : extract_json_from_response rt APOLOGY = None.
Proof. vm_compute. reflexivity. Qed.

Lemma strip_apology : strip_json_from_response APOLOGY = APOLOGY.
Proof. vm_compute. reflexivity. Qed.

(** C4, amended: when the provider raises, [get_chat_response] returns the
    apology and raises nothing; and in a gathering turn on an incomplete
    profile, when the handler's call fails so, [process_message] returns
    the apology and leaves the phase and every field of the profile as
    they were. *)
Theorem provider_failure_keeps_state :
  (forall msgs sp temperature max_tokens l,
      provider (length (requests l))
        (Build_Request (model l) (with_system sp msgs) temperature max_tokens)
      = None ->
      fst (get_chat_response provider msgs sp temperature max_tokens l) = APOLOGY)
  /\ (forall user_message s,
        state s = GATHERING_INFO ->
        is_complete (candidate s) = false ->
        check_exit_intent (str_lower rt) (sanitize_input user_message)
          EXIT_KEYWORDS = false ->
        let s1 := turn_start rt prompts provider user_message s in
        provider (length (requests (llm s1))) (gathering_request rt prompts s1)
        = None ->
        let s' := after (process_message rt prompts provider user_message) s in
        fst (process_message rt prompts provider user_message s)
        = Returns (APOLOGY, current_sentiment s1)
        /\ state s' = GATHERING_INFO
        /\ candidate s' = candidate s
        /\ forall f, getattr (candidate s') f = getattr (candidate s) f).
Proof.
  split.
  - intros msgs sp temperature max_tokens l Hdown.
    rewrite get_chat_response_run. unfold reply, with_system in *.
    cbn. rewrite Hdown. reflexivity.
  - intros user_message s Hphase Hinc Hstay s1 Hdown s'.
    assert (process_message rt prompts provider user_message s
            = (Returns (APOLOGY, current_sentiment s1),
               append_message (Msg assistant APOLOGY)
                 (set_llm (log (llm s1) (gathering_request rt prompts s1)) s1)))
      as Hrun.
    { rewrite (process_message_run _ _ Hstay). fold s1. rewrite Hphase.
      cbn [handler_of]. rewrite _handle_info_gathering_run.
      unfold reply. rewrite Hdown.
      rewrite (absorb_none _ _ extract_apology).
      rewrite conclude_unchanged, strip_apology; [reflexivity| |].
      - cbn [candidate set_llm]. unfold s1.
        rewrite turn_start_candidate. exact Hinc.
      - cbn [state set_llm]. unfold s1.
        rewrite turn_start_state. exact Hphase. }
    unfold s', after. rewrite Hrun. cbn.
    unfold s1. rewrite turn_start_candidate, turn_start_state.
    repeat split; try assumption; reflexivity.
Qed.


End EngineProperties.

(* ===================================================================== *)
(** ** The engine on the sample conversations *)
(* ===================================================================== *)

Lemma greeted_reachable (rt : Python) (provider : Provider) :
  (forall rq, provider 0 rq = None) ->
  reachable rt sample_prompts provider greeted.
Proof.
  intros Hdown.
  assert (greeted
          = after (generate_greeting rt sample_prompts provider)
              (new_manager sample_client)) as ->.
  { unfold greeted, after, generate_greeting, _build_system_prompt, chat,
      get_chat_response, provider_down.
    run_method. rewrite Hdown. reflexivity. }
  apply reach_greeting; [apply reach_new|reflexivity].
Qed.



Lemma exit_short_circuit_witness :
  let s' := after (process_message sample_python sample_prompts
                     provider_down (py "  Bye   for now ")) greeted in
  state s' = ENDED
  /\ candidate s' = candidate greeted
  /\ current_sentiment s' = current_sentiment greeted.
Proof.
  cbv zeta.
  assert (check_exit_intent (str_lower sample_python)
            (sanitize_input (py "  Bye   for now ")) EXIT_KEYWORDS = true) as Hexit
    by (vm_compute; reflexivity).
  pose proof (@exit_short_circuit sample_python sample_prompts provider_down
                (py "  Bye   for now ") greeted Hexit) as Hw.
  cbv zeta in Hw. destruct Hw as [Hrun _].
  unfold after. rewrite Hrun. split_all; reflexivity.
Defined.



(** C4, as stated, fails: the first reply fills the seven fields and then
    names the read-only property, so the call raises with the profile
    complete and the phase still GATHERING_INFO; in the next turn every
    call of the provider fails, and the phase moves to
    ANSWERING_QUESTIONS. *)
Lemma provider_failure_moves_complete_profile :
  let s1 := after (process_message blocks_python sample_prompts
                     provider_refused (py "I am Ann Lee")) greeted in
  let t1 := turn_start blocks_python sample_prompts provider_refused
              (py "hello") s1 in
  let s2 := after (process_message blocks_python sample_prompts
                     provider_refused (py "hello")) s1 in
  reachable blocks_python sample_prompts provider_refused s1
  /\ fst (process_message blocks_python sample_prompts provider_refused
            (py "I am Ann Lee") greeted)
     = Raises AttributeError
  /\ state s1 = GATHERING_INFO
  /\ is_complete (candidate s1) = true
  /\ provider_refused (length (requests (llm t1)))
       (gathering_request blocks_python sample_prompts t1)
     = None
  /\ fst (process_message blocks_python sample_prompts provider_refused
            (py "hello") s1)
     = Returns (APOLOGY ++ [LF; LF] ++ APOLOGY, py "neutral")
  /\ state s2 = ANSWERING_QUESTIONS.
Proof.
  cbv zeta. split_all; try (vm_compute; reflexivity).
  apply reach_message, greeted_reachable. intros rq. reflexivity.
Qed.

Lemma provider_failure_keeps_state_witness :
  let s' := after (process_message sample_python sample_prompts
                     provider_down (py "hello")) greeted in
  fst (process_message sample_python sample_prompts provider_down
         (py "hello") greeted)
  = Returns (APOLOGY, py "neutral")
  /\ state s' = GATHERING_INFO
  /\ candidate s' = empty_candidate.
Proof.
  cbv zeta.
  destruct (@provider_failure_keeps_state sample_python sample_prompts
              provider_down) as [_ Hturn].
  destruct (Hturn (py "hello") greeted)
    as (Hreply & Hphase & Hprofile & _); try (vm_compute; reflexivity).
  split; [exact Hreply|]. split; [exact Hphase|].
  rewrite Hprofile. reflexivity.
Defined.

(** C5, as stated, fails: the fallback request for a message sent after
    "hello" and "bye" carries, after the system message, all five entries
    of the transcript, not its last three. *)
Lemma fallback_context_exceeds_three :
  let s1 := turn_start sample_python sample_prompts provider_down
              (py "hello again") ended_conversation in
  let s' := after (process_message sample_python sample_prompts
                     provider_down (py "hello again")) ended_conversation in
  let rq := fallback_request sample_python sample_prompts (py "hello again") s1 in
  state ended_conversation = ENDED
  /\ last_n 1 (requests (llm s')) = [rq]
  /\ map role (rq_messages rq) = [system; assistant; user; assistant; user; user]
  /\ skipn 1 (rq_messages rq) = messages s1
  /\ length (last_n 3 (messages s1)) = 3
  /\ skipn 1 (rq_messages rq) <> last_n 3 (messages s1).
Proof.
  cbv zeta. split_all; try (vm_compute; reflexivity).
  intros H. apply (f_equal (@length Message)) in H.
  vm_compute in H. discriminate H.
Qed.

Lemma ended_message_falls_back_witness :
  let s' := after (process_message sample_python sample_prompts
                     provider_down (py "hello again")) ended_conversation in
  state s' = ENDED
  /\ map role (messages s') = [assistant; user; assistant; user; user; assistant].
Proof.
  cbv zeta.
  assert (state ended_conversation = ENDED) as Hended
    by (vm_compute; reflexivity).
  assert (check_exit_intent (str_lower sample_python)
            (sanitize_input (py "hello again")) EXIT_KEYWORDS = false) as Hstay
    by (vm_compute; reflexivity).
  pose proof (@ended_message_falls_back sample_python sample_prompts
                provider_down (py "hello again") ended_conversation
                Hended Hstay) as Hw.
  cbv zeta in Hw. destruct Hw as (response & mood & _ & _ & Hphase & _).
  split; [exact Hphase|vm_compute; reflexivity].
Defined.

Lemma sanitize_input_bounded_witness :
  sanitize_input (sanitize_input (py "  I   am   Ann "))
  = sanitize_input (py "  I   am   Ann ").
Proof.
  destruct (sanitize_input_bounded (py "  I   am   Ann ")) as (_ & _ & Hfix).
  apply Hfix. apply Nat.leb_le. vm_compute. reflexivity.
Defined.

(* ===================================================================== *)
(** ** Properties: what a pattern accepts *)
(* ===================================================================== *)

Definition within (hi : option nat) (n : nat) : Prop :=
  match hi with
  | None => True
  | Some h => n <= h
  end.

(** The texts of a pattern made of literals and repetitions. *)
Fixpoint lang (r : regex) (a : str) : Prop :=
  match r with
  | Lit l => a = l
  | Rep _ lo hi cls =>
      lo <= length a /\ within hi (length a) /\ Forall (fun c => cls c = true) a
  | Seq r1 r2 => exists a1 a2, a = a1 ++ a2 /\ lang r1 a1 /\ lang r2 a2
  | _ => False
  end.

Fixpoint plain (r : regex) : Prop :=
  match r with
  | Lit _ | Rep _ _ _ _ => True
  | Seq r1 r2 => plain r1 /\ plain r2
  | _ => False
  end.

Lemma startswith_split (s l : str) :
  startswith s l = true -> s = l ++ skipn (length l) s.
Proof.
  revert s. induction l as [|a l IH]; intros s H; [reflexivity|].
  destruct s as [|c s]; [discriminate H|].
  simpl in H. apply andb_prop in H as [Hc Hs].
  apply N.eqb_eq in Hc. subst c. simpl. f_equal. apply IH, Hs.
Qed.

Lemma within_took (hi : option nat) (n : nat) :
  may_take hi = true -> within (took hi) n -> within hi (S n).
Proof.
  destruct hi as [[|h]|]; simpl; intros Ht Hn; try discriminate Ht; try exact I.
  lia.
Qed.

Lemma within_may_take (hi : option nat) (n : nat) :
  within hi (S n) -> may_take hi = true /\ within (took hi) n.
Proof.
  destruct hi as [[|h]|]; simpl; intros H; try (split; [reflexivity|]); try exact I; lia.
Qed.

(** What a repetition hands on was read from the class, within the
    bounds. *)
Lemma rep_sound (lazy : bool) (cls : char -> bool)
    (k : mstate -> option mstate) (g : option str) (r : mstate) :
  forall s lo hi pos,
    rep lazy cls lo hi k pos g s = Some r ->
    exists a b,
      s = a ++ b /\ lo <= length a /\ within hi (length a)
      /\ Forall (fun c => cls c = true) a
      /\ k (MState (pos + length a) b g) = Some r.
Proof.
  assert (forall lo hi pos s,
             match lo with 0 => k (MState pos s g) | S _ => None end = Some r ->
             exists a b,
               s = a ++ b /\ lo <= length a /\ within hi (length a)
               /\ Forall (fun c => cls c = true) a
               /\ k (MState (pos + length a) b g) = Some r) as Hstop.
  { intros lo hi pos s H. destruct lo; [|discriminate H].
    exists [], s. rewrite Nat.add_0_r.
    repeat split; [lia|destruct hi; simpl; [lia|exact I]|constructor|exact H]. }
  assert (forall c s lo hi pos,
             (forall lo hi pos,
                 rep lazy cls lo hi k pos g s = Some r ->
                 exists a b,
                   s = a ++ b /\ lo <= length a /\ within hi (length a)
                   /\ Forall (fun c => cls c = true) a
                   /\ k (MState (pos + length a) b g) = Some r) ->
             (if (cls c && may_take hi)%bool
              then rep lazy cls (pred lo) (took hi) k (S pos) g s
              else None) = Some r ->
             exists a b,
               c :: s = a ++ b /\ lo <= length a /\ within hi (length a)
               /\ Forall (fun c => cls c = true) a
               /\ k (MState (pos + length a) b g) = Some r) as Hmore.
  { intros c s lo hi pos IH H.
    destruct (cls c) eqn:Hc; [|discriminate H].
    destruct (may_take hi) eqn:Ht; [|discriminate H].
    simpl in H. apply IH in H as (a & b & -> & Hlo & Hhi & Ha & Hk).
    exists (c :: a), b. simpl. rewrite Nat.add_succ_r.
    repeat split; [lia|apply within_took; assumption|constructor; assumption|exact Hk]. }
  induction s as [|c s IH]; intros lo hi pos H.
  - apply Hstop. destruct lazy; simpl in H;
      destruct lo; try discriminate H; try exact H.
    destruct (k (MState pos [] g)); [exact H|discriminate H].
  - simpl in H. destruct lazy.
    + destruct (match lo with 0 => k (MState pos (c :: s) g) | S _ => None end)
        eqn:E; [rewrite H in E; apply Hstop, E|].
      apply Hmore; assumption.
    + destruct (if (cls c && may_take hi)%bool
                then rep false cls (pred lo) (took hi) k (S pos) g s
                else None) eqn:E.
      * rewrite H in E. apply Hmore; assumption.
      * apply Hstop, H.
Qed.

(** A repetition finds a way on when there is one. *)
Lemma rep_complete (lazy : bool) (cls : char -> bool)
    (k : mstate -> option mstate) (g : option str) (b : str) :
  forall a lo hi pos,
    lo <= length a -> within hi (length a) ->
    Forall (fun c => cls c = true) a ->
    k (MState (pos + length a) b g) <> None ->
    rep lazy cls lo hi k pos g (a ++ b) <> None.
Proof.
  induction a as [|c a IH]; intros lo hi pos Hlo Hhi Ha Hk.
  - simpl in *. rewrite Nat.add_0_r in Hk.
    assert (lo = 0) as -> by lia.
    destruct b as [|d b]; destruct lazy; simpl.
    + destruct (k (MState pos [] g)); [discriminate|exact Hk].
    + exact Hk.
    + destruct (k (MState pos (d :: b) g)); [discriminate|contradiction Hk; reflexivity].
    + destruct (if (cls d && may_take hi)%bool
                then rep false cls 0 (took hi) k (S pos) g b else None);
        [discriminate|exact Hk].
  - inversion Ha as [|? ? Hc Ha']; subst.
    simpl in Hhi, Hk. apply within_may_take in Hhi as [Ht Hhi].
    rewrite Nat.add_succ_r in Hk.
    specialize (IH (pred lo) (took hi) (S pos) ltac:(simpl in Hlo; lia) Hhi Ha' Hk).
    simpl. rewrite Hc, Ht. simpl. destruct lazy.
    + destruct (match lo with 0 => k (MState pos (c :: a ++ b) g) | S _ => None end);
        [discriminate|exact IH].
    + destruct (rep false cls (pred lo) (took hi) k (S pos) g (a ++ b));
        [discriminate|contradiction IH; reflexivity].
Qed.

(** The matcher finds a way through a pattern of literals and repetitions
    exactly when the text opens with a text of the pattern after which the
    continuation goes on. *)
Lemma run_accepts (r : regex) :
  plain r ->
  forall k pos g s,
    run r k (MState pos s g) <> None
    <-> exists a b,
          s = a ++ b /\ lang r a /\ k (MState (pos + length a) b g) <> None.
Proof.
  induction r as [| |l|lazy lo hi cls|r IH|r1 IH1 r2 IH2]; intros Hp k pos g s;
    try contradiction Hp.
  - cbn [run m_pos m_rest m_grp lang]. rewrite lit_run. split.
    + destruct (startswith s l) eqn:E; [|intros H; contradiction H; reflexivity].
      intros H. exists l, (skipn (length l) s).
      split; [apply startswith_split, E|]. split; [reflexivity|exact H].
    + intros (a & b & -> & -> & H).
      rewrite startswith_app, skipn_app_exact. exact H.
  - cbn [run m_pos m_rest m_grp lang]. split.
    + intros H. destruct (rep lazy cls lo hi k pos g s) as [res|] eqn:E;
        [|contradiction H; reflexivity].
      apply rep_sound in E as (a & b & Hs & Hlo & Hhi & Ha & Hk).
      exists a, b. repeat split; try assumption. rewrite Hk. discriminate.
    + intros (a & b & -> & (Hlo & Hhi & Ha) & Hk).
      apply rep_complete; assumption.
  - destruct Hp as [Hp1 Hp2]. cbn [run lang]. rewrite (IH1 Hp1). split.
    + intros (a1 & b1 & -> & H1 & H2).
      apply (IH2 Hp2) in H2 as (a2 & b2 & -> & H2 & Hk).
      exists (a1 ++ a2), b2. rewrite <- app_assoc. split; [reflexivity|].
      split; [exists a1, a2; repeat split; assumption|].
      rewrite length_app, Nat.add_assoc. exact Hk.
    + intros (a & b & -> & (a1 & a2 & -> & H1 & H2) & Hk).
      exists a1, (a2 ++ b). rewrite <- app_assoc. split; [reflexivity|].
      split; [exact H1|]. apply (IH2 Hp2).
      exists a2, b. split; [reflexivity|]. split; [exact H2|].
      rewrite length_app, Nat.add_assoc in Hk. exact Hk.
Qed.

(** A pattern between [^] and [$], tried at the start of a text. *)
Lemma anchored_accepts (r : regex) (s : str) :
  plain r ->
  is_some (match_at (Bol ;; r ;; Eol) 0 s) = true
  <-> exists a, lang r a /\ (s = a \/ s = a ++ [LF]).
Proof.
  intros Hp. unfold match_at. cbn [run m_pos].
  assert (forall o : option mstate, is_some o = true <-> o <> None) as Hsome
    by (intros [x|]; simpl; split; congruence).
  rewrite Hsome, (@run_accepts r Hp). split.
  - intros (a & b & -> & Ha & Hk). exists a. split; [exact Ha|].
    cbn [run m_rest] in Hk.
    destruct b as [|c [|d b]]; [left; apply app_nil_r| |contradiction Hk; reflexivity].
    destruct (chr_eqb c LF) eqn:E; [|contradiction Hk; reflexivity].
    apply N.eqb_eq in E. subst c. right. reflexivity.
  - intros (a & Ha & [-> | ->]).
    + exists a, []. rewrite app_nil_r. repeat split; [exact Ha|]. discriminate.
    + exists a, [LF]. repeat split; [exact Ha|]. discriminate.
Qed.

(* ===================================================================== *)
(** ** Properties: the validators *)
(* ===================================================================== *)

Lemma strip_end (s : str) :
  strip s = [] \/ exists t c, strip s = t ++ [c] /\ isspace c = false.
Proof. unfold strip, strip_by. apply rstrip_cases. Qed.

Lemma strip_not_before_newline (s a : str) : strip s <> a ++ [LF].
Proof.
  intros H. destruct (strip_end s) as [E|(t & c & E & Hc)]; rewrite E in H.
  - destruct a; discriminate H.
  - apply app_inj_tail in H as [_ ->]. discriminate Hc.
Qed.

(** X1: [validate_email] accepts a text exactly when, trimmed, it is
    a local part, an at sign, a domain, a dot and a top-level part: local
    part and domain not empty and in their classes, the top-level part of
    two letters or more. *)
Theorem validate_email_shape (email : str) :
  validate_email email = true
  <-> exists loc domain tld,
        strip email = loc ++ py "@" ++ domain ++ py "." ++ tld
        /\ loc <> [] /\ Forall (fun c => email_local c = true) loc
        /\ domain <> [] /\ Forall (fun c => email_domain c = true) domain
        /\ 2 <= length tld /\ Forall (fun c => isalpha_ascii c = true) tld.
Proof.
  unfold validate_email.
  change (match_at RE_EMAIL 0 (strip email))
    with (match_at
            (Bol ;; (plus email_local ;; Lit (py "@") ;; plus email_domain ;;
                     Lit (py ".") ;; Rep false 2 None isalpha_ascii) ;; Eol)
            0 (strip email)).
  rewrite anchored_accepts by (cbn; tauto). split.
  - intros (a & Ha & [Hs|Hs]); [|contradiction (strip_not_before_newline _ _ Hs)].
    cbn [lang plus] in Ha.
    destruct Ha as (loc & a1 & -> & (Hl & _ & Hloc) & at_ & a2 & -> & ->
                    & domain & a3 & -> & (Hd & _ & Hdom) & dot_ & tld & -> & ->
                    & Ht & _ & Htld).
    exists loc, domain, tld. rewrite Hs.
    repeat split; try assumption.
    + intros ->. simpl in Hl. lia.
    + intros ->. simpl in Hd. lia.
  - intros (loc & domain & tld & Hs & Hl & Hloc & Hd & Hdom & Ht & Htld).
    exists (loc ++ py "@" ++ domain ++ py "." ++ tld).
    split; [|left; exact Hs].
    cbn [lang plus].
    exists loc, (py "@" ++ domain ++ py "." ++ tld). split; [reflexivity|].
    split; [repeat split; [destruct loc; [contradiction Hl; reflexivity|simpl; lia]|exact Hloc]|].
    exists (py "@"), (domain ++ py "." ++ tld). split; [reflexivity|].
    split; [reflexivity|].
    exists domain, (py "." ++ tld). split; [reflexivity|].
    split; [repeat split; [destruct domain; [contradiction Hd; reflexivity|simpl; lia]|exact Hdom]|].
    exists (py "."), tld. repeat split; assumption.
Qed.

(** [re.sub] of the runs of a class by nothing drops the class. *)
Lemma match_plus (cls : char -> bool) (pos : nat) (s : str) :
  match_at (plus cls) pos s
  = match run_length cls s with
    | 0 => None
    | S n => Some (MState (pos + S n) (dropwhile cls s) None)
    end.
Proof.
  unfold match_at, plus. cbn [run m_pos m_grp m_rest].
  rewrite rep_greedy_last. destruct (run_length cls s); reflexivity.
Qed.

Lemma sub_plus_filter (cls : char -> bool) (s : str) :
  forall pos,
    sub_from (plus cls) [] pos 0 s = filter (fun c => negb (cls c)) s
    /\ sub_from (plus cls) [] pos (run_length cls s) s
       = filter (fun c => negb (cls c)) s.
Proof.
  induction s as [|c s IH]; intros pos.
  - split; reflexivity.
  - assert (sub_from (plus cls) [] pos 0 (c :: s)
            = filter (fun c => negb (cls c)) (c :: s)) as Hzero.
    { cbn [sub_from]. rewrite match_plus. cbn [run_length filter].
      destruct (cls c) eqn:Hc; cbn [negb].
      - cbn [m_pos]. replace (pos + S (run_length cls s) - pos)
          with (S (run_length cls s)) by lia.
        destruct (IH (S pos)) as [_ ->]. reflexivity.
      - destruct (IH (S pos)) as [-> _]. reflexivity. }
    split; [exact Hzero|].
    cbn [run_length]. destruct (cls c) eqn:Hc.
    + cbn [sub_from filter]. rewrite Hc. cbn [negb]. apply IH.
    + exact Hzero.
Qed.

Lemma dropwhile_split_class (cls : char -> bool) (s : str) :
  exists t, s = t ++ dropwhile cls s /\ Forall (fun c => cls c = true) t.
Proof.
  induction s as [|c s (t & IH & Ht)]; simpl.
  - exists []. split; [reflexivity|constructor].
  - destruct (cls c) eqn:Hc.
    + exists (c :: t). simpl. split; [f_equal; exact IH|constructor; assumption].
    + exists []. split; [reflexivity|constructor].
Qed.

Lemma filter_none (P : char -> bool) (t : str) :
  Forall (fun c => P c = false) t -> filter P t = [].
Proof.
  induction 1 as [|c t Hc _ IH]; simpl; [reflexivity|]. rewrite Hc. exact IH.
Qed.

(** Trimming first changes nothing for a filter that drops whitespace. *)
Lemma filter_strip (P : char -> bool) (s : str) :
  (forall c, isspace c = true -> P c = false) ->
  filter P (strip s) = filter P s.
Proof.
  intros HP.
  assert (forall t, Forall (fun c => isspace c = true) t -> filter P t = [])
    as Hnone.
  { intros t Ht. apply filter_none. revert Ht. apply Forall_impl. exact HP. }
  unfold strip, strip_by, lstrip_by, rstrip_by.
  destruct (dropwhile_split_class isspace s) as (t1 & Hs & Ht1).
  destruct (dropwhile_split_class isspace (rev (dropwhile isspace s)))
    as (t2 & Hw & Ht2).
  apply (f_equal (@rev _)) in Hw. rewrite rev_involutive, rev_app_distr in Hw.
  apply (f_equal (filter P)) in Hs, Hw. rewrite filter_app in Hs, Hw.
  rewrite (Hnone t1 Ht1) in Hs.
  rewrite (Hnone (rev t2)), app_nil_r in Hw by (apply Forall_rev, Ht2).
  rewrite Hs. symmetry. exact Hw.
Qed.

Lemma phone_cleaned (phone : str) :
  re_sub RE_PHONE_SEPARATORS [] (strip phone)
  = filter (fun c => negb (phone_separator c)) phone.
Proof.
  unfold re_sub, RE_PHONE_SEPARATORS.
  destruct (sub_plus_filter phone_separator (strip phone) 0) as [-> _].
  apply filter_strip. intros c Hc. unfold phone_separator. rewrite Hc. reflexivity.
Qed.

(** X2: [validate_phone] looks only at the characters that are not
    separators (whitespace, hyphen, parentheses, dot): it accepts exactly
    when they are an optional plus sign and then 7 to 15 decimal digits. *)
Theorem validate_phone_shape (isdecimal : char -> bool) (phone : str) :
  validate_phone isdecimal phone = true
  <-> exists sign ds,
        filter (fun c => negb (phone_separator c)) phone = sign ++ ds
        /\ (sign = [] \/ sign = py "+")
        /\ 7 <= length ds <= 15
        /\ Forall (fun c => isdecimal c = true) ds.
Proof.
  unfold validate_phone. rewrite phone_cleaned.
  set (cleaned := filter (fun c => negb (phone_separator c)) phone).
  change (match_at (RE_PHONE isdecimal) 0 cleaned)
    with (match_at
            (Bol ;; (opt (just 43%N) ;; Rep false 7 (Some 15) isdecimal) ;; Eol)
            0 cleaned).
  rewrite anchored_accepts by (cbn; tauto). cbn [lang opt within]. split.
  - intros (a & (sign & ds & -> & (_ & Hs1 & Hsign) & Hlo & Hhi & Hds) & [Hs|Hs]).
    + exists sign, ds. repeat split; try assumption.
      destruct sign as [|c [|d sign]]; [left; reflexivity| |simpl in Hs1; lia].
      inversion Hsign as [|? ? Hc _]; subst. apply N.eqb_eq in Hc. subst c.
      right. reflexivity.
    + exfalso.
      assert (In LF cleaned) as Hin
        by (rewrite Hs; apply in_or_app; right; left; reflexivity).
      unfold cleaned in Hin. apply filter_In in Hin as [_ Hin].
      discriminate Hin.
  - intros (sign & ds & Hs & Hsign & [Hlo Hhi] & Hds).
    exists (sign ++ ds). split; [|left; exact Hs].
    exists sign, ds. split; [reflexivity|].
    split; [|repeat split; assumption].
    destruct Hsign as [-> | ->]; repeat split; simpl; try lia; repeat constructor.
Qed.

(* ===================================================================== *)
(** ** Properties: the shape of sanitised text *)
(* ===================================================================== *)

Lemma squeezed_spaces (s : str) :
  forall b, squeezed b s = true ->
            Forall (fun c => isspace c = true -> c = 32%N) s.
Proof.
  induction s as [|c s IH]; intros b H; [constructor|].
  cbn in H. destruct (isspace c) eqn:Hc.
  - apply andb_prop in H as [H Hs]. apply andb_prop in H as [Heq _].
    apply N.eqb_eq in Heq.
    constructor; [intros _; exact Heq|exact (IH _ Hs)].
  - constructor; [rewrite Hc; discriminate|exact (IH _ H)].
Qed.

Lemma squeezed_no_pair (s : str) :
  forall b a c d t,
    squeezed b s = true -> s = a ++ c :: d :: t ->
    isspace c = true -> isspace d = false.
Proof.
  induction s as [|x s IH]; intros b a c d t H Hs Hc.
  - destruct a; discriminate Hs.
  - destruct a as [|y a]; cbn [app] in Hs.
    + injection Hs as -> ->. cbn in H. rewrite Hc in H.
      apply andb_prop in H as [_ H].
      destruct (isspace d); [|reflexivity].
      rewrite !andb_false_r in H. discriminate H.
    + injection Hs as -> ->. cbn [squeezed] in H.
      destruct (isspace y).
      * apply andb_prop in H as [_ H]. exact (IH _ _ _ _ _ H eq_refl Hc).
      * exact (IH _ _ _ _ _ H eq_refl Hc).
Qed.

Lemma dropwhile_nil (cls : char -> bool) (s : str) :
  dropwhile cls s = [] <-> Forall (fun c => cls c = true) s.
Proof.
  induction s as [|c s IH]; simpl.
  - split; [constructor|reflexivity].
  - destruct (cls c) eqn:Hc.
    + rewrite IH. split; [intros H; constructor; assumption|].
      intros H. inversion H; assumption.
    + split; [discriminate|]. intros H. inversion H; congruence.
Qed.

(** Trimming leaves nothing exactly of a text that is all whitespace. *)
Lemma strip_nil (s : str) :
  strip s = [] <-> Forall (fun c => isspace c = true) s.
Proof.
  unfold strip, strip_by, rstrip_by, lstrip_by. split.
  - intros H. apply (f_equal (@rev _)) in H. rewrite rev_involutive in H.
    cbn in H. apply dropwhile_nil in H. apply Forall_rev in H.
    rewrite rev_involutive in H.
    pose proof (dropwhile_starts isspace s) as Hd.
    destruct (dropwhile isspace s) as [|c t] eqn:E.
    + apply dropwhile_nil, E.
    + inversion H; congruence.
  - intros H. apply dropwhile_nil in H. rewrite H. reflexivity.
Qed.

Lemma squeeze_nil (s : str) : squeeze false s = [] -> s = [].
Proof.
  destruct s as [|c s]; [reflexivity|]. cbn.
  destruct (isspace c); discriminate.
Qed.

(** X3: What [sanitize_input] returns never opens with
    whitespace, holds no whitespace character but the space (so no line
    break and no tab), never two spaces in a row, and is empty exactly for
    a text of whitespace only. *)
Theorem sanitize_input_normal_form (x : str) :
  let y := sanitize_input x in
  (forall c t, y = c :: t -> isspace c = false)
  /\ Forall (fun c => isspace c = true -> c = 32%N) y
  /\ (forall a c d t, y = a ++ c :: d :: t ->
                      isspace c = true -> isspace d = false)
  /\ (y = [] <-> Forall (fun c => isspace c = true) x).
Proof.
  cbv zeta.
  destruct (collapsed_trimmed x) as (Hsq & Hstart & _).
  assert (squeezed false (sanitize_input x) = true) as Hz
    by (apply squeezed_firstn, Hsq).
  assert (starts_clean (sanitize_input x) = true) as Hzs
    by (apply firstn_starts_clean, Hstart).
  split_all.
  - intros c t E. rewrite E in Hzs. apply negb_true_iff, Hzs.
  - exact (@squeezed_spaces _ _ Hz).
  - intros a c d t E. exact (@squeezed_no_pair _ _ _ _ _ _ Hz E).
  - rewrite <- strip_nil. unfold sanitize_input. rewrite re_sub_spaces. split.
    + intros H. apply squeeze_nil.
      destruct (squeeze false (strip x)); [reflexivity|discriminate H].
    + intros ->. reflexivity.
Qed.

(* ===================================================================== *)
(** ** Properties: blank lines in a cleaned reply *)
(* ===================================================================== *)

(** No three line breaks in a row. *)
Fixpoint blank_free (s : str) : bool :=
  match s with
  | [] => true
  | _ :: s' => negb (startswith s [LF; LF; LF]) && blank_free s'
  end.

Lemma blank_free_spec (s : str) :
  blank_free s = true -> forall a b, s <> a ++ [LF; LF; LF] ++ b.
Proof.
  induction s as [|c s IH]; intros H a b E.
  - destruct a; discriminate E.
  - cbn [blank_free] in H. apply andb_prop in H as [H1 H2].
    destruct a as [|x a].
    + cbn [app] in E. rewrite E in H1. discriminate H1.
    + cbn [app] in E. inversion E; subst. exact (IH H2 a b eq_refl).
Qed.

Lemma match_blank_lines (pos : nat) (s : str) :
  match_at RE_BLANK_LINES pos s
  = if 3 <=? run_length (just LF) s
    then Some (MState (pos + run_length (just LF) s) (dropwhile (just LF) s) None)
    else None.
Proof.
  unfold match_at, RE_BLANK_LINES. cbn [run m_pos m_grp m_rest].
  apply rep_greedy_last.
Qed.

Lemma starts_two_breaks (s : str) :
  startswith s [LF; LF] = true -> 2 <= run_length (just LF) s.
Proof.
  destruct s as [|c [|d s]]; simpl; try discriminate.
  - rewrite andb_false_r. discriminate.
  - unfold chr_eqb, just, chr_eqb. rewrite andb_true_r.
    intros H. apply andb_prop in H as [Hc Hd].
    apply N.eqb_eq in Hc, Hd. subst. cbn. lia.
Qed.

Lemma blank_free_break (s : str) :
  blank_free s = true -> run_length (just LF) s <= 1 ->
  blank_free (LF :: s) = true.
Proof.
  intros H Hrun. cbn [blank_free]. rewrite H, andb_true_r.
  apply negb_true_iff.
  destruct (startswith (LF :: s) [LF; LF; LF]) eqn:E; [|reflexivity].
  simpl in E. apply starts_two_breaks in E. lia.
Qed.

Lemma blank_free_other (c : char) (s : str) :
  just LF c = false -> blank_free s = true -> blank_free (c :: s) = true.
Proof.
  intros Hc H. cbn [blank_free]. rewrite H, andb_true_r.
  simpl. unfold just, chr_eqb in *. rewrite N.eqb_sym, Hc. reflexivity.
Qed.

(** [re.sub(r'\n{3,}', '\n\n', s)] leaves no run of three line breaks, and
    opens with no more line breaks than [s]. *)
Lemma sub_blank_lines (s : str) :
  forall pos,
    (blank_free (sub_from RE_BLANK_LINES [LF; LF] pos 0 s) = true
     /\ run_length (just LF) (sub_from RE_BLANK_LINES [LF; LF] pos 0 s) <= 2
     /\ run_length (just LF) (sub_from RE_BLANK_LINES [LF; LF] pos 0 s)
        <= run_length (just LF) s)
    /\ (blank_free (sub_from RE_BLANK_LINES [LF; LF] pos
                      (run_length (just LF) s) s) = true
        /\ run_length (just LF)
             (sub_from RE_BLANK_LINES [LF; LF] pos (run_length (just LF) s) s)
           = 0).
Proof.
  induction s as [|c s IH]; intros pos.
  - cbn. repeat split; lia.
  - destruct (IH (S pos)) as ((Hf0 & Hr0 & Hle0) & (Hfk & Hrk)).
    assert (blank_free (sub_from RE_BLANK_LINES [LF; LF] pos 0 (c :: s)) = true
            /\ run_length (just LF)
                 (sub_from RE_BLANK_LINES [LF; LF] pos 0 (c :: s)) <= 2
            /\ run_length (just LF)
                 (sub_from RE_BLANK_LINES [LF; LF] pos 0 (c :: s))
               <= run_length (just LF) (c :: s)) as Hzero.
    { cbn [sub_from]. rewrite match_blank_lines. cbn [run_length].
      destruct (just LF c) eqn:Hc.
      - assert (c = LF) as -> by (symmetry; apply N.eqb_eq, Hc).
        destruct (3 <=? S (run_length (just LF) s)) eqn:H3.
        + apply Nat.leb_le in H3. cbn [m_pos].
          replace (pos + S (run_length (just LF) s) - pos)
            with (S (run_length (just LF) s)) by lia.
          cbn [app].
          set (out := sub_from RE_BLANK_LINES [LF; LF] (S pos)
                        (run_length (just LF) s) s) in *.
          split_all.
          * apply blank_free_break; [apply blank_free_break; [exact Hfk|lia]|].
            cbn [run_length]. change (just LF LF) with true. cbv iota. lia.
          * cbn [run_length]. change (just LF LF) with true. cbv iota. lia.
          * cbn [run_length]. change (just LF LF) with true. cbv iota. lia.
        + apply Nat.leb_gt in H3.
          set (out := sub_from RE_BLANK_LINES [LF; LF] (S pos) 0 s) in *.
          split_all.
          * apply blank_free_break; [exact Hf0|lia].
          * cbn [run_length]. change (just LF LF) with true. cbv iota. lia.
          * cbn [run_length]. change (just LF LF) with true. cbv iota. lia.
      - cbn [Nat.leb].
        split_all.
        + apply blank_free_other; assumption.
        + cbn [run_length]. rewrite Hc. lia.
        + cbn [run_length]. rewrite Hc. lia. }
    split; [exact Hzero|].
    cbn [run_length]. destruct (just LF c) eqn:Hc.
    + cbn [sub_from]. split; assumption.
    + destruct Hzero as (Hz1 & _ & Hz3). cbn [run_length] in Hz3.
      rewrite Hc in Hz3. split; [exact Hz1|lia].
Qed.

Lemma sub_blank_lines_start (s : str) (pos : nat) :
  starts_clean s = true ->
  starts_clean (sub_from RE_BLANK_LINES [LF; LF] pos 0 s) = true.
Proof.
  destruct s as [|c s]; intros H.
  - reflexivity.
  - cbn [sub_from]. rewrite match_blank_lines. cbn [run_length].
    cbn in H. apply negb_true_iff in H.
    assert (just LF c = false) as ->.
    { unfold just, chr_eqb. destruct (N.eqb_spec LF c) as [<-|]; [|reflexivity].
      discriminate H. }
    cbn. rewrite H. reflexivity.
Qed.

(** X4: Whatever the reply, [strip_json_from_response] returns a text
    with no three line breaks in a row (never more than one blank line
    between two paragraphs) and that does not open with whitespace. *)
Theorem strip_json_never_three_breaks (response : str) :
  (forall a b, strip_json_from_response response <> a ++ [LF; LF; LF] ++ b)
  /\ (forall c t, strip_json_from_response response = c :: t ->
                  isspace c = false).
Proof.
  unfold strip_json_from_response, re_sub.
  set (cleaned := strip _).
  split.
  - apply blank_free_spec, sub_blank_lines.
  - intros c t E.
    pose proof (@sub_blank_lines_start cleaned 0 (strip_starts_clean _)) as H.
    rewrite E in H. apply negb_true_iff, H.
Qed.

(** Trimming keeps a stretch of the text. *)
Lemma strip_infix (s : str) : exists t1 t2, s = t1 ++ strip s ++ t2.
Proof.
  unfold strip, strip_by. fold (rstrip (lstrip_by isspace s)).
  destruct (dropwhile_split isspace s) as [t1 H1].
  destruct (rstrip_prefix (lstrip_by isspace s)) as [t2 H2].
  exists t1, t2. rewrite <- H2. exact H1.
Qed.

Lemma run_length_three (s : str) :
  3 <= run_length (just LF) s -> exists t, s = [LF; LF; LF] ++ t.
Proof.
  intros H.
  destruct s as [|a s]; cbn [run_length] in H; [lia|].
  destruct (just LF a) eqn:Ea; [|lia].
  destruct s as [|b s]; cbn [run_length] in H; [lia|].
  destruct (just LF b) eqn:Eb; [|lia].
  destruct s as [|c s]; cbn [run_length] in H; [lia|].
  destruct (just LF c) eqn:Ec; [|lia].
  apply N.eqb_eq in Ea, Eb, Ec. subst a b c.
  exists s. reflexivity.
Qed.

(** X5: A reply with no brace and no three line breaks in a row is
    returned trimmed and otherwise untouched. *)
Theorem strip_json_plain_reply (response : str) :
  Forall (fun c => no_brace c = true) response ->
  (forall a b, response <> a ++ [LF; LF; LF] ++ b) ->
  strip_json_from_response response = strip response.
Proof.
  intros Hb Hn. unfold strip_json_from_response, re_sub.
  rewrite (@clean_text_sub RE_FENCED response 0) by (auto; exact Hb).
  rewrite (@clean_text_sub RE_RAW response 0) by (auto; exact Hb).
  apply sub_from_none. intros p1 p2 Hsplit.
  rewrite match_blank_lines.
  destruct (3 <=? run_length (just LF) p2) eqn:H3; [|reflexivity].
  exfalso. apply Nat.leb_le, run_length_three in H3 as [t Ht].
  destruct (strip_infix response) as (t1 & t2 & Hs).
  apply (Hn (t1 ++ p1) (t ++ t2)).
  rewrite Hs at 1. rewrite Hsplit, Ht, <- !app_assoc. reflexivity.
Qed.

(* ===================================================================== *)
(** ** Properties: the exit keywords *)
(* ===================================================================== *)

Lemma startswith_refl (s : str) : startswith s s = true.
Proof.
  induction s as [|c s IH]; simpl; [reflexivity|].
  unfold chr_eqb. rewrite N.eqb_refl. exact IH.
Qed.

Lemma check_exit_intent_iff (lower : str -> str) (message : str)
    (exit_keywords : list str) :
  check_exit_intent lower message exit_keywords = true
  <-> exists k, In k exit_keywords
                /\ startswith (lower (strip message)) k = true.
Proof.
  unfold check_exit_intent.
  destruct (existsb (str_eqb (lower (strip message))) exit_keywords) eqn:E.
  - split; [intros _|reflexivity].
    apply existsb_exists in E as (k & Hin & Hk).
    apply str_eqb_eq in Hk. exists k. split; [exact Hin|].
    rewrite Hk. apply startswith_refl.
  - apply existsb_exists.
Qed.

(** X6: [check_exit_intent] holds exactly when the trimmed, lower-cased
    message starts with one of the keywords (the test for equality adds
    nothing), so it depends on the keywords as a set: neither their order
    nor repetitions matter. *)
Theorem check_exit_intent_prefix (lower : str -> str) (message : str)
    (exit_keywords : list str) :
  (check_exit_intent lower message exit_keywords = true
   <-> exists k, In k exit_keywords
                 /\ startswith (lower (strip message)) k = true)
  /\ (forall keywords',
        (forall k, In k exit_keywords <-> In k keywords') ->
        check_exit_intent lower message keywords'
        = check_exit_intent lower message exit_keywords).
Proof.
  split; [apply check_exit_intent_iff|].
  intros keywords' Hsame.
  destruct (check_exit_intent lower message exit_keywords) eqn:E.
  - apply check_exit_intent_iff in E as (k & Hin & Hk).
    apply check_exit_intent_iff. exists k. split; [apply Hsame, Hin|exact Hk].
  - destruct (check_exit_intent lower message keywords') eqn:E'; [|reflexivity].
    apply check_exit_intent_iff in E' as (k & Hin & Hk).
    rewrite <- E. symmetry. apply check_exit_intent_iff.
    exists k. split; [apply Hsame, Hin|exact Hk].
Qed.

(* ===================================================================== *)
(** ** Properties: the technology list *)
(* ===================================================================== *)

Definition tech_delimiter : char -> bool := oneof (py ",;/" ++ [LF]).

Definition delimiter_free (t : str) : Prop :=
  Forall (fun c => tech_delimiter c = false) t.

Lemma cons_head_free (c : char) (l : list str) :
  tech_delimiter c = false -> Forall delimiter_free l ->
  Forall delimiter_free
    match l with [] => [[c]] | w :: ws => (c :: w) :: ws end.
Proof.
  intros Hc Hl. destruct Hl as [|w ws Hw Hws].
  - repeat constructor. exact Hc.
  - constructor; [constructor; assumption|exact Hws].
Qed.

(** No piece of [re.split(r'[,;/\n]+', s)] holds a delimiter. *)
Lemma split_delimiter_free (s : str) :
  forall pos,
    Forall delimiter_free (split_from RE_TECH_DELIMITERS pos 0 s)
    /\ Forall delimiter_free
         (split_from RE_TECH_DELIMITERS pos (run_length tech_delimiter s) s).
Proof.
  unfold RE_TECH_DELIMITERS. fold tech_delimiter.
  induction s as [|c s IH]; intros pos.
  - cbn. split; repeat constructor.
  - destruct (IH (S pos)) as [H0 Hk].
    assert (Forall delimiter_free
              (split_from (plus tech_delimiter) pos 0 (c :: s))) as Hzero.
    { cbn [split_from]. rewrite match_plus. cbn [run_length].
      destruct (tech_delimiter c) eqn:Hc.
      - cbn [m_pos].
        replace (pos + S (run_length tech_delimiter s) - pos)
          with (S (run_length tech_delimiter s)) by lia.
        constructor; [constructor|exact Hk].
      - apply cons_head_free; assumption. }
    split; [exact Hzero|].
    cbn [run_length]. destruct (tech_delimiter c) eqn:Hc.
    + cbn [split_from]. exact Hk.
    + exact Hzero.
Qed.

Lemma strip_by_forall (P : char -> Prop) (cls : char -> bool) (s : str) :
  Forall P s -> Forall P (strip_by cls s).
Proof.
  intros Hs. unfold strip_by, rstrip_by, lstrip_by.
  apply Forall_rev, dropwhile_forall, Forall_rev, dropwhile_forall, Hs.
Qed.

(** Trimming twice is trimming once. *)
Lemma strip_strip (s : str) : strip (strip s) = strip s.
Proof.
  pose proof (strip_starts_clean s) as Hstart.
  destruct (strip_end s) as [E|(t & c & E & Hc)].
  - rewrite E. reflexivity.
  - unfold strip at 1, strip_by.
    rewrite (@starts_clean_lstrip (strip s) Hstart).
    fold (rstrip (strip s)). rewrite E. apply rstrip_clean_end, Hc.
Qed.

Definition clean_entry (t : str) : Prop := strip t = t /\ delimiter_free t.

Lemma clean_tech_entry (t : str) : delimiter_free t -> clean_entry (clean_tech t).
Proof.
  intros Ht. unfold clean_tech. split; [apply strip_strip|].
  apply strip_forall. unfold strip_chars.
  apply strip_by_forall, strip_by_forall, strip_forall, Ht.
Qed.

Lemma nodup_snoc {A} (l : list A) (x : A) :
  NoDup l -> ~ In x l -> NoDup (l ++ [x]).
Proof.
  intros Hl Hx. apply NoDup_rev in Hl.
  rewrite <- (rev_involutive (l ++ [x])). apply NoDup_rev.
  rewrite rev_app_distr. cbn. constructor; [|exact Hl].
  rewrite <- in_rev. exact Hx.
Qed.

(** The loop of [format_tech_stack]: [seen] holds the lower-cased entries
    kept so far. *)
Lemma keep_tech_loop (lower : str -> str) (cleaned : list str) :
  forall seen result,
    Forall clean_entry cleaned ->
    Forall (fun t => t <> [] /\ clean_entry t) result ->
    NoDup (map lower result) ->
    (forall x, In x (map lower result) -> In x seen) ->
    Forall (fun t => t <> [] /\ clean_entry t)
      (snd (fold_left (keep_tech lower) cleaned (seen, result)))
    /\ NoDup (map lower (snd (fold_left (keep_tech lower) cleaned (seen, result)))).
Proof.
  induction cleaned as [|tech cleaned IH]; intros seen result Hc Hr Hn Hs.
  - cbn. split; assumption.
  - inversion Hc as [|? ? Htech Hrest]; subst.
    cbn [fold_left].
    change (keep_tech lower (seen, result) tech)
      with (if (nonempty tech
                && negb (existsb (str_eqb (lower tech)) seen))%bool
            then (lower tech :: seen, result ++ [tech])
            else (seen, result)).
    destruct (nonempty tech && negb (existsb (str_eqb (lower tech)) seen))%bool
      eqn:E.
    + apply andb_prop in E as [Hne Hnew]. apply negb_true_iff in Hnew.
      apply IH; [exact Hrest| | |].
      * apply Forall_app. split; [exact Hr|].
        constructor; [|constructor].
        split; [|exact Htech]. intros ->. discriminate Hne.
      * rewrite map_app. cbn [map]. apply nodup_snoc; [exact Hn|].
        intros Hin. apply Hs in Hin.
        assert (existsb (str_eqb (lower tech)) seen = true) as Hex.
        { apply existsb_exists. exists (lower tech).
          split; [exact Hin|apply str_eqb_eq; reflexivity]. }
        congruence.
      * intros x Hx. rewrite map_app in Hx. apply in_app_or in Hx as [Hx|Hx].
        -- right. apply Hs, Hx.
        -- destruct Hx as [<-|[]]. left. reflexivity.
    + apply IH; assumption.
Qed.

(** X7: Every entry [format_tech_stack] returns is non-empty, trimmed
    and free of delimiters, and no two entries agree when lower-cased. *)
Theorem format_tech_stack_entries (lower : str -> str) (tech_stack : str) :
  Forall (fun t => t <> [] /\ strip t = t
                   /\ Forall (fun c => tech_delimiter c = false) t)
    (format_tech_stack lower tech_stack)
  /\ NoDup (map lower (format_tech_stack lower tech_stack)).
Proof.
  unfold format_tech_stack, re_split.
  apply keep_tech_loop.
  - apply Forall_map.
    destruct (split_delimiter_free tech_stack 0) as [H _].
    revert H. apply Forall_impl. exact clean_tech_entry.
  - constructor.
  - constructor.
  - intros x [].
Qed.

(* ===================================================================== *)
(** ** Properties: lines the question parser passes over *)
(* ===================================================================== *)

(** A line that, trimmed, opens with neither a hash sign nor an asterisk. *)
Definition opens_plain (line : str) : Prop :=
  match strip line with
  | c :: _ => oneof (py "#*") c = false
  | [] => True
  end.

(** Such a line is no header. *)
Lemma plain_line_no_header (c : char) (t : str) :
  oneof (py "#*") c = false ->
  orelse (re_match RE_TECH_HEADING (c :: t)) (re_match RE_TECH_BOLD (c :: t))
  = None.
Proof.
  intros H. unfold oneof in H. simpl in H.
  apply orb_false_elim in H as [H35 H]. apply orb_false_elim in H as [H42 _].
  unfold re_match, match_at, RE_TECH_HEADING, RE_TECH_BOLD.
  unfold chr_eqb in H35. rewrite N.eqb_sym in H35. fold (chr_eqb 35%N c) in H35.
  cbn [run m_pos m_rest m_grp rep].
  change (just 35%N c) with (chr_eqb 35%N c). rewrite H35.
  change (py "**") with [42%N; 42%N]. cbn [lit]. rewrite H42. reflexivity.
Qed.

(** Before the first header the scanning loop stays in its initial state,
    whatever the digit class. *)
Lemma scan_line_plain (isdecimal : char -> bool) (line : str) :
  opens_plain line ->
  scan_line isdecimal (Scan [] None []) line = Scan [] None [].
Proof.
  unfold opens_plain, scan_line. intros H.
  destruct (strip line) as [|c t]; [reflexivity|].
  cbn [nonempty negb]. rewrite (@plain_line_no_header c t H).
  destruct (orelse _ _); reflexivity.
Qed.

Lemma scan_lines_plain (isdecimal : char -> bool) (lines : list str) :
  Forall opens_plain lines ->
  fold_left (scan_line isdecimal) lines (Scan [] None []) = Scan [] None [].
Proof.
  induction 1 as [|line lines Hl _ IH]; cbn [fold_left]; [reflexivity|].
  rewrite (@scan_line_plain isdecimal line Hl). exact IH.
Qed.

Lemma split_on_nonempty (sep : char) (s : str) : split_on sep s <> [].
Proof.
  destruct s as [|c s]; cbn; [discriminate|].
  destruct (chr_eqb c sep); [discriminate|].
  destruct (split_on sep s); discriminate.
Qed.

(** Splitting at a separator splits both sides. *)
Lemma split_on_app (sep : char) (a b : str) :
  split_on sep (a ++ sep :: b) = split_on sep a ++ split_on sep b.
Proof.
  induction a as [|c a IH]; cbn [app split_on].
  - unfold chr_eqb. rewrite N.eqb_refl. reflexivity.
  - rewrite IH. destruct (chr_eqb c sep); [reflexivity|].
    pose proof (split_on_nonempty sep a) as Hne.
    destruct (split_on sep a); [contradiction Hne; reflexivity|reflexivity].
Qed.

(** X8: Lines before the first header count for nothing, whatever the
    digit class of the numbered lines: when no line of a text opens, once
    trimmed, with a hash sign or an asterisk, the text parses into no group
    at all, and put in front of any other text it does not change what
    that text parses into. (Numbered lines of such a preamble are dropped:
    no technology is active yet.) *)
Theorem parse_technical_questions_preamble (isdecimal : char -> bool)
    (preamble : str) :
  Forall opens_plain (split_on LF preamble) ->
  parse_technical_questions isdecimal preamble = []
  /\ (forall rest,
        parse_technical_questions isdecimal (preamble ++ LF :: rest)
        = parse_technical_questions isdecimal rest).
Proof.
  intros H. unfold parse_technical_questions. split.
  - rewrite (@scan_lines_plain isdecimal _ H). reflexivity.
  - intros rest.
    rewrite split_on_app, fold_left_app, (@scan_lines_plain isdecimal _ H).
    reflexivity.
Qed.

Lemma parse_technical_questions_preamble_witness :
  parse_technical_questions ascii_digit
    (py "Here are your questions:" ++ LF :: py "1. What is recursion and why?")
  = []
  /\ parse_technical_questions ascii_digit
       ((py "Here are your questions:" ++ LF :: py "1. What is recursion and why?")
        ++ LF :: sample_questions)
     = parse_technical_questions ascii_digit sample_questions.
Proof.
  assert (Forall opens_plain
            (split_on LF
               (py "Here are your questions:" ++ LF
                  :: py "1. What is recursion and why?"))) as H
    by (repeat constructor).
  split.
  - exact (proj1 (@parse_technical_questions_preamble ascii_digit _ H)).
  - exact (proj2 (@parse_technical_questions_preamble ascii_digit _ H)
             sample_questions).
Defined.

(** What the scanning loop keeps is trimmed. *)
Definition trimmed (s : str) : Prop := strip s = s.

Definition trimmed_group (g : TechQuestionGroup) : Prop :=
  trimmed (technology g) /\ Forall trimmed (questions g).

Definition scan_trimmed (st : scan) : Prop :=
  Forall trimmed_group (result st)
  /\ match current_tech st with Some t => trimmed t | None => True end
  /\ Forall trimmed (current_questions st).

Lemma flush_trimmed (st : scan) :
  scan_trimmed st -> Forall trimmed_group (flush st).
Proof.
  intros (Hres & Ht & Hqs). unfold flush.
  destruct (current_tech st) as [tech|]; [|exact Hres].
  destruct (nonempty tech && _)%bool; [|exact Hres].
  apply Forall_app. split; [exact Hres|].
  constructor; [split; assumption|constructor].
Qed.

Lemma scan_line_trimmed (isdecimal : char -> bool) (st : scan) (line : str) :
  scan_trimmed st -> scan_trimmed (scan_line isdecimal st line).
Proof.
  intros Hok. pose proof (@flush_trimmed st Hok) as Hflush.
  destruct Hok as (Hres & Ht & Hqs). unfold scan_line.
  destruct (negb (nonempty (strip line))); [repeat split; assumption|].
  destruct (orelse _ _).
  { repeat split; cbn; [exact Hflush|apply strip_strip|constructor]. }
  destruct (orelse _ _) as [g|]; [|repeat split; assumption].
  destruct (tech_active (current_tech st)); [|repeat split; assumption].
  destruct (nonempty (strip g) && (10 <? length (strip g)))%bool;
    [|repeat split; assumption].
  repeat split; cbn; [exact Hres|exact Ht|].
  apply Forall_app. split; [exact Hqs|].
  constructor; [apply strip_strip|constructor].
Qed.

(** X9: Whatever the digit class of the numbered lines, neither a
    technology nor a question of a parse opens or ends with whitespace. *)
Theorem parse_technical_questions_trimmed (isdecimal : char -> bool)
    (response : str) :
  Forall (fun g => strip (technology g) = technology g
                   /\ Forall (fun q => strip q = q) (questions g))
    (parse_technical_questions isdecimal response).
Proof.
  unfold parse_technical_questions. apply flush_trimmed.
  generalize (split_on LF response). intros lines.
  assert (scan_trimmed (Scan [] None [])) as H0
    by (repeat split; constructor).
  revert H0. generalize (Scan [] None []).
  induction lines as [|line lines IH]; intros st Hst; cbn [fold_left].
  - exact Hst.
  - apply IH, scan_line_trimmed, Hst.
Qed.

(* ===================================================================== *)
(** ** Properties: filled and missing fields *)
(* ===================================================================== *)

Lemma field_name_inj (f f' : Field) : field_name f = field_name f' -> f = f'.
Proof.
  intros H. apply (f_equal field_of_name) in H.
  rewrite !field_of_name_field in H. congruence.
Qed.

Lemma in_candidate_fields (f : Field) : In f CANDIDATE_FIELDS.
Proof. destruct f; cbn; tauto. Qed.

Lemma missing_field_iff (c : CandidateInfo) (f : Field) :
  In (field_name f) (get_missing_fields c) <-> getattr c f = None.
Proof.
  unfold get_missing_fields, model_dump. rewrite in_flat_map. split.
  - intros (kv & Hkv & Hin). apply in_map_iff in Hkv as (f' & <- & _).
    cbn [fst snd] in Hin. destruct (getattr c f') eqn:E; [destruct Hin|].
    destruct Hin as [Hin|[]]. apply field_name_inj in Hin. congruence.
  - intros H. exists (field_name f, getattr c f). split.
    + apply in_map_iff. exists f. split; [reflexivity|apply in_candidate_fields].
    + cbn [fst snd]. rewrite H. left. reflexivity.
Qed.

Lemma filled_field_iff (c : CandidateInfo) (f : Field) (v : str) :
  In (field_name f, v) (get_filled_fields c) <-> getattr c f = Some v.
Proof.
  unfold get_filled_fields, model_dump. rewrite in_flat_map. split.
  - intros (kv & Hkv & Hin). apply in_map_iff in Hkv as (f' & <- & _).
    cbn [fst snd] in Hin. destruct (getattr c f') eqn:E; [|destruct Hin].
    destruct Hin as [Hin|[]]. injection Hin as Hn ->.
    apply field_name_inj in Hn. congruence.
  - intros H. exists (field_name f, getattr c f). split.
    + apply in_map_iff. exists f. split; [reflexivity|apply in_candidate_fields].
    + cbn [fst snd]. rewrite H. left. reflexivity.
Qed.

(** X10: The filled and the missing fields split the seven fields of a
    profile: a field is missing exactly when it is unset, filled with the
    value it is set to, and the profile is complete exactly when every
    field is set. *)
Theorem fields_filled_or_missing (c : CandidateInfo) :
  (forall f, In (field_name f) (get_missing_fields c) <-> getattr c f = None)
  /\ (forall f v, In (field_name f, v) (get_filled_fields c)
                  <-> getattr c f = Some v)
  /\ length (get_filled_fields c) + length (get_missing_fields c) = 7
  /\ (is_complete c = true <-> forall f, getattr c f <> None).
Proof.
  split_all.
  - apply missing_field_iff.
  - apply filled_field_iff.
  - destruct c as [[?|] [?|] [?|] [?|] [?|] [?|] [?|]]; reflexivity.
  - unfold is_complete. rewrite Nat.eqb_eq, length_zero_iff_nil. split.
    + intros H f Hf. apply missing_field_iff in Hf. rewrite H in Hf. exact Hf.
    + intros H. destruct (get_missing_fields c) as [|name l] eqn:E;
        [reflexivity|exfalso].
      assert (In name (get_missing_fields c)) as Hin by (rewrite E; now left).
      unfold get_missing_fields, model_dump in Hin.
      apply in_flat_map in Hin as (kv & Hkv & Hin).
      apply in_map_iff in Hkv as (f & <- & _). cbn [fst snd] in Hin.
      destruct (getattr c f) eqn:Ef; [destruct Hin|]. exact (H f Ef).
Qed.

(* ===================================================================== *)
(** ** Properties: the anonymised export *)
(* ===================================================================== *)



(* ===================================================================== *)
(** ** Properties: replies without a structured block *)
(* ===================================================================== *)

Lemma search_from_none (r : regex) (t : str) :
  forall pos,
    (forall p1 p2, t = p1 ++ p2 -> match_at r (pos + length p1) p2 = None) ->
    search_from r pos t = None.
Proof.
  induction t as [|c t IH]; intros pos Hnone.
  - cbn [search_from]. pose proof (Hnone [] [] eq_refl) as H0.
    cbn [length] in H0. rewrite Nat.add_0_r in H0. rewrite H0. reflexivity.
  - cbn [search_from]. pose proof (Hnone [] (c :: t) eq_refl) as H0.
    cbn [length] in H0. rewrite Nat.add_0_r in H0. rewrite H0.
    apply IH. intros p1 p2 Hsplit.
    specialize (Hnone (c :: p1) p2). cbn [length] in Hnone.
    rewrite Nat.add_succ_r in Hnone. apply Hnone.
    rewrite Hsplit. reflexivity.
Qed.

(** Neither pattern of [extract_json_from_response] is found in text
    without braces. *)
Lemma search_without_braces (response : str) (r : regex) :
  Forall (fun c => no_brace c = true) response ->
  r = RE_FENCED_GROUP \/ r = RE_RAW ->
  re_search r response = None.
Proof.
  intros Hb Hr. unfold re_search. apply search_from_none.
  intros p1 p2 Hsplit.
  rewrite Hsplit in Hb. apply forall_suffix in Hb.
  destruct (@clean_text_no_match p2 (0 + length p1) Hb) as (_ & H2 & H3).
  destruct Hr as [-> | ->]; assumption.
Qed.

(** X12: A reply that holds no brace carries no structured block:
    [extract_json_from_response] returns None for it, whatever [json.loads]
    would read. *)
Theorem extract_json_needs_braces (rt : Python) (response : str) :
  Forall (fun c => no_brace c = true) response ->
  extract_json_from_response rt response = None.
Proof.
  intros Hb. unfold extract_json_from_response.
  rewrite (@search_without_braces response RE_FENCED_GROUP Hb)
    by (left; reflexivity).
  rewrite (@search_without_braces response RE_RAW Hb)
    by (right; reflexivity).
  reflexivity.
Qed.

Lemma extract_json_needs_braces_witness :
  extract_json_from_response sample_python (py "Nice to meet you, Ann!")
  = None.
Proof.
  apply extract_json_needs_braces. repeat constructor.
Defined.

(* ===================================================================== *)
(** ** Properties: the course of a conversation *)
(* ===================================================================== *)

(** The phases in the order of a screening. *)
Definition phase_rank (st : ConversationState) : nat :=
  match st with
  | GREETING => 0
  | GATHERING_INFO => 1
  | TECH_QUESTIONS => 2
  | ANSWERING_QUESTIONS => 3
  | CLOSING => 4
  | ENDED => 5
  end.

(** Conjunctions and alternatives of facts that hold by computation or by
    assumption. *)
Ltac settle :=
  lazymatch goal with
  | |- _ /\ _ => split; settle
  | |- _ \/ _ => solve [left; settle | right; settle]
  | |- _ => solve [reflexivity | assumption | symmetry; assumption]
  end.

Ltac turn_facts :=
  first [ assumption
        | settle
        | cbn [messages append_message set_llm set_state];
          rewrite <- app_assoc; reflexivity ].

Section EngineCourse.

Variable rt : Python.
Variable prompts : Prompts.
Variable provider : Provider.

(** The request [_handle_tech_interaction] sends: the whole transcript. *)
Definition tech_request (s : ConversationManager) : Request :=
  Build_Request (model (llm s))
    (with_system (system_prompt_of rt prompts s) (messages s))
    TEMPERATURE MAX_TOKENS.

(** The request [_handle_closing] sends. *)
Definition closing_request (s : ConversationManager) : Request :=
  Build_Request (model (llm s))
    (with_system (system_prompt_of rt prompts s)
       [Msg user
          (CLOSING_PROMPT prompts
             (or_default (full_name (candidate s)) (py "there"))
             (or_default (desired_positions (candidate s)) (py "the position")))])
    TEMPERATURE MAX_TOKENS.

Lemma _handle_tech_interaction_exact (text : str) (s : ConversationManager) :
  _handle_tech_interaction rt prompts provider text s
  = (Returns (reply provider (llm s) (tech_request s)),
     set_llm (log (llm s) (tech_request s)) s).
Proof.
  unfold _handle_tech_interaction, _build_system_prompt. run_method.
  rewrite chat_run. reflexivity.
Qed.

Lemma _handle_closing_exact (s : ConversationManager) :
  _handle_closing rt prompts provider s
  = (Returns (reply provider (llm s) (closing_request s)),
     set_state ENDED (set_llm (log (llm s) (closing_request s)) s)).
Proof.
  unfold _handle_closing, _build_system_prompt. run_method.
  rewrite chat_run. reflexivity.
Qed.

(** What the second step of the gathering handler does, field by field:
    it generates the questions, or it leaves the client, the flag and the
    questions alone. *)
Lemma conclude_fields (r : str) (s : ConversationManager) :
  state s = GATHERING_INFO \/ state s = TECH_QUESTIONS ->
  candidate (snd (conclude prompts provider r s)) = candidate s
  /\ messages (snd (conclude prompts provider r s)) = messages s
  /\ current_sentiment (snd (conclude prompts provider r s)) = current_sentiment s
  /\ ((llm (snd (conclude prompts provider r s)) = llm s
       /\ technical_questions_asked (snd (conclude prompts provider r s))
          = technical_questions_asked s
       /\ raw_tech_questions (snd (conclude prompts provider r s))
          = raw_tech_questions s
       /\ fst (conclude prompts provider r s)
          = Returns (strip_json_from_response r)
       /\ (state (snd (conclude prompts provider r s)) = GATHERING_INFO
           /\ state s = GATHERING_INFO
           /\ is_complete (candidate s) = false
           \/ state (snd (conclude prompts provider r s)) = TECH_QUESTIONS
              /\ technical_questions_asked s = true))
      \/ (technical_questions_asked s = false
          /\ (state s = TECH_QUESTIONS \/ is_complete (candidate s) = true)
          /\ state (snd (conclude prompts provider r s)) = ANSWERING_QUESTIONS
          /\ technical_questions_asked (snd (conclude prompts provider r s)) = true
          /\ llm (snd (conclude prompts provider r s))
             = log (llm s) (questions_request prompts (llm s) (candidate s))
          /\ raw_tech_questions (snd (conclude prompts provider r s))
             = reply provider (llm s)
                 (questions_request prompts (llm s) (candidate s))
          /\ fst (conclude prompts provider r s)
             = Returns (rstrip (strip_json_from_response r) ++ [LF; LF]
                        ++ reply provider (llm s)
                             (questions_request prompts (llm s) (candidate s))))).
Proof.
  intros Hphase. unfold conclude.
  destruct (is_complete (candidate s)) eqn:Hc,
           (technical_questions_asked s) eqn:Ha;
    destruct Hphase as [Hst|Hst]; rewrite Hst;
    cbn [andb negb state_eqb state set_state technical_questions_asked];
    rewrite ?Hst, ?Ha;
    cbn [andb negb state_eqb state set_state technical_questions_asked
         set_technical_questions_asked set_raw_tech_questions set_llm
         candidate messages current_sentiment llm raw_tech_questions snd fst];
    rewrite ?Hc; settle.
Qed.


Lemma absorbed_fields (d ex : list (str * json)) (s : ConversationManager) :
  llm (absorbed rt d ex s) = llm s
  /\ messages (absorbed rt d ex s) = messages s
  /\ current_sentiment (absorbed rt d ex s) = current_sentiment s
  /\ technical_questions_asked (absorbed rt d ex s) = technical_questions_asked s
  /\ raw_tech_questions (absorbed rt d ex s) = raw_tech_questions s
  /\ candidate (absorbed rt d ex s) = merged rt ex (candidate s)
  /\ (state (absorbed rt d ex s) = state s
      \/ state (absorbed rt d ex s) = TECH_QUESTIONS).
Proof. unfold absorbed. cbv zeta. split_if; settle. Qed.

(** One call of [process_message], by what it does: an exit, an answer, an
    answer with the questions generated, or an exception. [text] is the
    sanitised message. *)
Inductive turn (text : str) (s : ConversationManager)
    : outcome (str * str) -> ConversationManager -> Prop :=
| turn_exit : forall s' response mood rq,
    check_exit_intent (str_lower rt) text EXIT_KEYWORDS = true ->
    mood = current_sentiment s ->
    current_sentiment s' = current_sentiment s ->
    state s' = ENDED ->
    candidate s' = candidate s ->
    messages s' = messages s ++ [Msg user text] ->
    technical_questions_asked s' = technical_questions_asked s ->
    raw_tech_questions s' = raw_tech_questions s ->
    llm s' = log (llm s) rq ->
    turn text s (Returns (response, mood)) s'
| turn_answer : forall s' response mood rq,
    check_exit_intent (str_lower rt) text EXIT_KEYWORDS = false ->
    mood = current_sentiment s' ->
    (state s' = state s
     \/ (state s = GATHERING_INFO /\ state s' = TECH_QUESTIONS
         /\ technical_questions_asked s = true)
     \/ (state s = CLOSING /\ state s' = ENDED)) ->
    (candidate s' = candidate s
     \/ (state s = GATHERING_INFO
         /\ exists ex, candidate s' = merged rt ex (candidate s))) ->
    messages s' = messages s ++ [Msg user text; Msg assistant response] ->
    technical_questions_asked s' = technical_questions_asked s ->
    raw_tech_questions s' = raw_tech_questions s ->
    llm s' = log (log (llm s) (sentiment_request prompts text s)) rq ->
    turn text s (Returns (response, mood)) s'
| turn_questions : forall s' response mood rq rq',
    check_exit_intent (str_lower rt) text EXIT_KEYWORDS = false ->
    mood = current_sentiment s' ->
    state s = GATHERING_INFO ->
    state s' = ANSWERING_QUESTIONS ->
    technical_questions_asked s = false ->
    technical_questions_asked s' = true ->
    (candidate s' = candidate s
     \/ exists ex, candidate s' = merged rt ex (candidate s)) ->
    messages s' = messages s ++ [Msg user text; Msg assistant response] ->
    llm s' = log (log (log (llm s) (sentiment_request prompts text s)) rq) rq' ->
    turn text s (Returns (response, mood)) s'
| turn_raise : forall s' e rq,
    check_exit_intent (str_lower rt) text EXIT_KEYWORDS = false ->
    state s = GATHERING_INFO ->
    state s' = GATHERING_INFO ->
    (candidate s' = candidate s
     \/ exists ex, candidate s' = merged rt ex (candidate s)) ->
    messages s' = messages s ++ [Msg user text] ->
    technical_questions_asked s' = technical_questions_asked s ->
    raw_tech_questions s' = raw_tech_questions s ->
    llm s' = log (log (llm s) (sentiment_request prompts text s)) rq ->
    turn text s (Raises e) s'.

(** A gathering turn from the second step of its handler on. *)
Lemma gathering_turn (text r : str) (s sA : ConversationManager)
    (label : str) (rq : Request) :
  check_exit_intent (str_lower rt) text EXIT_KEYWORDS = false ->
  state s = GATHERING_INFO ->
  state sA = GATHERING_INFO \/ state sA = TECH_QUESTIONS ->
  llm sA = log (log (llm s) (sentiment_request prompts text s)) rq ->
  messages sA = messages s ++ [Msg user text] ->
  current_sentiment sA = label ->
  technical_questions_asked sA = technical_questions_asked s ->
  raw_tech_questions sA = raw_tech_questions s ->
  (candidate sA = candidate s
   \/ exists ex, candidate sA = merged rt ex (candidate s)) ->
  exists response,
    conclude prompts provider r sA
    = (Returns response, snd (conclude prompts provider r sA))
    /\ turn text s (Returns (response, label))
         (append_message (Msg assistant response)
            (snd (conclude prompts provider r sA))).
Proof.
  intros Hstay Hphase HphA Hllm Hmsgs Hmood Hasked Hraw Hcand.
  destruct (conclude_returns prompts provider r sA) as [response Hret].
  exists response. split; [exact Hret|].
  destruct (@conclude_fields r sA HphA) as (Hc2 & Hm2 & Hs2 & Hcases).
  set (s2 := snd (conclude prompts provider r sA)) in *. clearbody s2.
  destruct Hcases as [(Hl2 & Ha2 & Hr2 & _ & Hst2)|(Ha & _ & Hst2 & Ha2 & Hl2 & _)].
  - apply turn_answer with (rq := rq); cbn; try congruence.
    + destruct Hst2 as [(Hst2 & _ & _)|(Hst2 & HaA)].
      * left. congruence.
      * right. left. repeat split; congruence.
    + rewrite Hc2. destruct Hcand as [Hcand|Hcand]; [left; exact Hcand|].
      right. split; assumption.
    + rewrite Hm2, Hmsgs, <- app_assoc. reflexivity.
  - apply turn_questions
      with (rq := rq)
           (rq' := questions_request prompts (llm sA) (candidate sA));
      cbn; try congruence.
    + rewrite Hc2. exact Hcand.
    + rewrite Hm2, Hmsgs, <- app_assoc. reflexivity.
Qed.

Lemma process_message_turn (user_message : str) (s : ConversationManager) :
  turn (sanitize_input user_message) s
    (fst (process_message rt prompts provider user_message s))
    (after (process_message rt prompts provider user_message) s).
Proof.
  set (text := sanitize_input user_message).
  destruct (check_exit_intent (str_lower rt) text EXIT_KEYWORDS) eqn:Hexit.
  - unfold after.
    rewrite (@process_message_exit rt prompts provider user_message s Hexit).
    cbn [fst snd].
    eapply turn_exit; try reflexivity. exact Hexit.
  - unfold after.
    rewrite (@process_message_run rt prompts provider user_message s Hexit).
    destruct (turn_start_eq rt prompts provider user_message s)
      as (label & _ & Hs1).
    fold text in Hs1.
    set (s1 := turn_start rt prompts provider user_message s) in *.
    clearbody s1. subst s1.
    destruct (state s) eqn:Hphase; cbn [handler_of].
    + rewrite _handle_fallback_run. cbn [fst snd].
      eapply turn_answer; try reflexivity; turn_facts.
    + rewrite _handle_info_gathering_run.
      match goal with
      | |- context [absorb rt ?r ?s0] =>
          destruct (absorb_cases rt r s0)
            as [->|[->|[(d & ex & _ & _ & _ & ->)|(d & ex & _ & _ & _ & ->)]]];
          [destruct (@gathering_turn text r s s0 label
                       (gathering_request rt prompts
                          (Manager
                             (log (llm s) (sentiment_request prompts text s))
                             GATHERING_INFO (candidate s)
                             (messages s ++ [Msg user text])
                             (technical_questions_asked s) label
                             (raw_tech_questions s)))
                       Hexit Hphase)
             as (response & -> & Hturn); try settle; exact Hturn
          | cbn [fst snd];
            eapply turn_raise; try reflexivity;
            [exact Hexit|exact Hphase|left; reflexivity]
          | destruct (absorbed_fields d ex s0)
              as (Hl & Hm & Hs & Ha & Hr & Hc & Hst);
            destruct (@gathering_turn text r s (absorbed rt d ex s0) label
                        (gathering_request rt prompts
                           (Manager
                              (log (llm s) (sentiment_request prompts text s))
                              GATHERING_INFO (candidate s)
                              (messages s ++ [Msg user text])
                              (technical_questions_asked s) label
                              (raw_tech_questions s)))
                        Hexit Hphase)
              as (response & -> & Hturn);
            [destruct Hst as [Hst|Hst]; [left|right]; exact Hst
            |exact Hl|exact Hm|exact Hs|exact Ha|exact Hr
            |right; eexists; exact Hc
            |exact Hturn]
          | cbn [fst snd];
            eapply turn_raise; try reflexivity;
            [exact Hexit|exact Hphase|right; exists ex; reflexivity]]
      end.
    + rewrite _handle_tech_interaction_exact. cbn [fst snd].
      eapply turn_answer; try reflexivity; turn_facts.
    + rewrite _handle_tech_interaction_exact. cbn [fst snd].
      eapply turn_answer; try reflexivity; turn_facts.
    + rewrite _handle_closing_exact. cbn [fst snd].
      eapply turn_answer; try reflexivity; turn_facts.
    + rewrite _handle_fallback_run. cbn [fst snd].
      eapply turn_answer; try reflexivity; turn_facts.
Qed.


(** *** The phase *)

Lemma phase_rank_max (st : ConversationState) : phase_rank st <= 5.
Proof. destruct st; cbn; lia. Qed.

Lemma turn_rank (text : str) (s s' : ConversationManager) o :
  turn text s o s' -> phase_rank (state s) <= phase_rank (state s').
Proof.
  destruct 1 as [s' ? ? ? _ _ _ Hst|s' ? ? ? _ _ Hst|s' ? ? ? ? _ _ Hs Hst
                |s' ? ? _ Hs Hst].
  - rewrite Hst. apply phase_rank_max.
  - destruct Hst as [->|[(-> & -> & _)|(-> & ->)]]; cbn; lia.
  - rewrite Hs, Hst. cbn. lia.
  - rewrite Hs, Hst. cbn. lia.
Qed.

(** X13: [process_message] never moves the phase backwards in the
    order greeting, gathering, questions, answering, closing, ended; so
    neither does a sequence of calls, and an ended conversation stays
    ended whatever is sent to it. *)
Theorem phase_never_goes_back :
  (forall m s,
      phase_rank (state s)
      <= phase_rank (state (after (process_message rt prompts provider m) s)))
  /\ (forall ms s,
        phase_rank (state s)
        <= phase_rank (state (run_messages rt prompts provider ms s)))
  /\ (forall ms s,
        state s = ENDED ->
        state (run_messages rt prompts provider ms s) = ENDED).
Proof.
  assert (forall m s,
             phase_rank (state s)
             <= phase_rank
                  (state (after (process_message rt prompts provider m) s)))
    as Hstep
    by (intros m s; exact (turn_rank (process_message_turn m s))).
  assert (forall ms s,
             phase_rank (state s)
             <= phase_rank (state (run_messages rt prompts provider ms s)))
    as Hrun.
  { induction ms as [|m ms IH]; intros s; cbn [run_messages fold_left];
      [lia|].
    etransitivity; [apply (Hstep m)|apply IH]. }
  split_all; [exact Hstep|exact Hrun|].
  intros ms s Hended. specialize (Hrun ms s). rewrite Hended in Hrun.
  destruct (state (run_messages rt prompts provider ms s)); cbn in Hrun;
    try lia. reflexivity.
Qed.

(** What holds of the phase and the questions flag between calls. *)
Definition phases_consistent (s : ConversationManager) : Prop :=
  (state s = GREETING \/ state s = GATHERING_INFO ->
   technical_questions_asked s = false /\ raw_tech_questions s = [])
  /\ (state s = ANSWERING_QUESTIONS -> technical_questions_asked s = true)
  /\ state s <> TECH_QUESTIONS
  /\ state s <> CLOSING.

Lemma turn_consistent (text : str) (s s' : ConversationManager) o :
  turn text s o s' -> phases_consistent s -> phases_consistent s'.
Proof.
  intros Hturn (Hearly & Hlate & Hnt & Hnc).
  destruct Hturn as [s' ? ? ? _ _ _ Hst|s' ? ? ? _ _ Hst _ _ Ha Hr
                    |s' ? ? ? ? _ _ Hs Hst _ Ha|s' ? ? _ Hs Hst _ _ Ha Hr];
    unfold phases_consistent.
  - rewrite Hst. split_all; try discriminate.
    intros [Hx|Hx]; discriminate Hx.
  - destruct Hst as [Hst|[(Hs & _ & Hasked)|(Hs & _)]].
    + rewrite Hst, Ha, Hr. split_all; assumption.
    + destruct (Hearly (or_intror Hs)) as [Hf _]. congruence.
    + contradiction (Hnc Hs).
  - rewrite Hst, Ha. split_all; try discriminate; try reflexivity.
    intros [Hx|Hx]; discriminate Hx.
  - rewrite Hst, Ha, Hr. rewrite Hs in Hearly, Hlate.
    split_all; try discriminate; assumption.
Qed.

Lemma reachable_consistent (s : ConversationManager) :
  reachable rt prompts provider s -> phases_consistent s.
Proof.
  induction 1 as [l|s Hr IH Hphase|s m Hr IH].
  - unfold phases_consistent. cbn. split_all; try discriminate.
    intros _. split; reflexivity.
  - unfold after.
    destruct (generate_greeting_run rt prompts provider s)
      as (response & l & ->).
    destruct IH as (Hearly & _). destruct (Hearly (or_introl Hphase)) as [Ha Hr'].
    unfold phases_consistent. cbn. split_all; try discriminate.
    intros _. split; assumption.
  - exact (turn_consistent (process_message_turn m s) IH).
Qed.

(** X14: In a conversation (a fresh manager, greeted once, then any
    messages) the phase between two calls is never TECH_QUESTIONS and never
    CLOSING, so the closing handler never runs; while the phase is
    greeting or gathering no questions have been generated, and in the
    answering phase the questions flag is set. *)
Theorem reachable_phases (s : ConversationManager) :
  reachable rt prompts provider s ->
  (state s = GREETING \/ state s = GATHERING_INFO
   \/ state s = ANSWERING_QUESTIONS \/ state s = ENDED)
  /\ (state s = GREETING \/ state s = GATHERING_INFO ->
      technical_questions_asked s = false
      /\ raw_tech_questions s = [])
  /\ (state s = ANSWERING_QUESTIONS -> technical_questions_asked s = true).
Proof.
  intros Hreach.
  destruct (reachable_consistent Hreach) as (Hearly & Hlate & Hnt & Hnc).
  split_all.
  - destruct (state s);
      first [tauto|contradiction Hnt; reflexivity|contradiction Hnc; reflexivity].
  - exact Hearly.
  - exact Hlate.
Qed.

(** *** The transcript and the requests *)

(** X15: A call appends the sanitised message to the transcript
    and, when it returns without exit intent, the reply after it. The
    farewell of an exit is returned but not recorded, and a call that
    raises leaves the message without an answer. Earlier entries are never
    changed. *)
Theorem transcript_grows_by_turn :
  (forall m s,
      messages (after (process_message rt prompts provider m) s)
      = messages s
        ++ Msg user (sanitize_input m)
           :: match fst (process_message rt prompts provider m s) with
              | Returns (response, _) =>
                  if check_exit_intent (str_lower rt) (sanitize_input m)
                       EXIT_KEYWORDS
                  then []
                  else [Msg assistant response]
              | Raises _ => []
              end)
  /\ (forall ms s,
        exists tail,
          messages (run_messages rt prompts provider ms s) = messages s ++ tail).
Proof.
  assert (forall m s,
             messages (after (process_message rt prompts provider m) s)
             = messages s
               ++ Msg user (sanitize_input m)
                  :: match fst (process_message rt prompts provider m s) with
                     | Returns (response, _) =>
                         if check_exit_intent (str_lower rt) (sanitize_input m)
                              EXIT_KEYWORDS
                         then []
                         else [Msg assistant response]
                     | Raises _ => []
                     end) as Hstep.
  { intros m s.
    destruct (process_message_turn m s)
      as [s' ? ? ? Hx _ _ _ _ Hm|s' ? ? ? Hx _ _ _ Hm|s' ? ? ? ? Hx _ _ _ _ _ _ Hm
         |s' ? ? Hx _ _ _ Hm];
      rewrite ?Hx; exact Hm. }
  split; [exact Hstep|].
  induction ms as [|m ms IH]; intros s; cbn [run_messages fold_left].
  - exists []. symmetry. apply app_nil_r.
  - destruct (IH (after (process_message rt prompts provider m) s))
      as [tail Htail].
    fold (run_messages rt prompts provider ms
            (after (process_message rt prompts provider m) s)).
    rewrite Htail, Hstep. eexists. rewrite <- app_assoc. reflexivity.
Qed.

(** X16: A call keeps the model name and only adds to the log of
    requests: one request when the message shows exit intent; otherwise
    the mood request and one more, or two more in the one turn that
    generates the questions, which starts in the gathering phase with the
    flag unset and ends in the answering phase. *)
Theorem requests_per_turn (m : str) (s : ConversationManager) :
  let s' := after (process_message rt prompts provider m) s in
  model (llm s') = model (llm s)
  /\ exists new,
       requests (llm s') = requests (llm s) ++ new
       /\ if check_exit_intent (str_lower rt) (sanitize_input m) EXIT_KEYWORDS
          then length new = 1
          else hd_error new
               = Some (sentiment_request prompts (sanitize_input m) s)
               /\ (length new = 2
                   \/ (length new = 3
                       /\ state s = GATHERING_INFO
                       /\ technical_questions_asked s = false
                       /\ state s' = ANSWERING_QUESTIONS
                       /\ technical_questions_asked s' = true)).
Proof.
  cbv zeta.
  destruct (process_message_turn m s)
    as [s' ? ? rq Hx _ _ _ _ _ _ _ Hl|s' ? ? rq Hx _ _ _ _ _ _ Hl
       |s' ? ? rq rq' Hx _ Hs Hs' Ha Ha' _ _ Hl|s' ? rq Hx _ _ _ _ _ _ Hl];
    rewrite Hx, Hl; (split; [reflexivity|]).
  - exists [rq]. split; reflexivity.
  - exists [sentiment_request prompts (sanitize_input m) s; rq].
    cbn [log requests]. rewrite <- app_assoc. split_all; try reflexivity.
    left. reflexivity.
  - exists [sentiment_request prompts (sanitize_input m) s; rq; rq'].
    cbn [log requests]. rewrite <- !app_assoc. split_all; try reflexivity.
    right. split_all; try assumption. reflexivity.
  - exists [sentiment_request prompts (sanitize_input m) s; rq].
    cbn [log requests]. rewrite <- app_assoc. split_all; try reflexivity.
    left. reflexivity.
Qed.

Lemma turn_asked (text : str) (s s' : ConversationManager) o :
  turn text s o s' ->
  technical_questions_asked s = true ->
  technical_questions_asked s' = true
  /\ raw_tech_questions s' = raw_tech_questions s
  /\ length (requests (llm s')) <= length (requests (llm s)) + 2.
Proof.
  intros Hturn Hasked.
  destruct Hturn
    as [s' ? ? rq _ _ _ _ _ _ Ha Hr Hl|s' ? ? rq _ _ _ _ _ Ha Hr Hl
       |s' ? ? rq rq' _ _ _ _ Ha' _ _ _ _|s' ? rq _ _ _ _ _ Ha Hr Hl];
    try congruence;
    rewrite Ha, Hr, Hl; cbn [log requests]; rewrite ?length_app; cbn [length];
    split_all; try assumption; try reflexivity; lia.
Qed.

(** X17: Once the questions flag is set, no call generates questions
    again: over any messages the flag stays set, the stored questions stay
    as they are, and each call makes two requests at most. *)
Theorem questions_generated_once (ms : list str) (s : ConversationManager) :
  technical_questions_asked s = true ->
  technical_questions_asked (run_messages rt prompts provider ms s) = true
  /\ raw_tech_questions (run_messages rt prompts provider ms s)
     = raw_tech_questions s
  /\ length (requests (llm (run_messages rt prompts provider ms s)))
     <= length (requests (llm s)) + 2 * length ms.
Proof.
  revert s. induction ms as [|m ms IH]; intros s Hasked;
    cbn [run_messages fold_left].
  - split_all; [exact Hasked|reflexivity|cbn; lia].
  - destruct (turn_asked (process_message_turn m s) Hasked) as (Ha & Hr & Hl).
    destruct (IH _ Ha) as (Ha' & Hr' & Hl').
    unfold run_messages in Ha', Hr', Hl'.
    split_all; [exact Ha'|congruence|cbn [length]; lia].
Qed.

(** *** Exceptions *)



(** *** The profile *)

Lemma merge_item_count (c c' : CandidateInfo) (item : str * json) :
  merge_item rt c item = Some c' ->
  length (get_filled_fields c) <= length (get_filled_fields c').
Proof.
  destruct item as [k v]. unfold merge_item.
  destruct (usable v); [|intros H; injection H as <-; lia].
  destruct (field_of_name k) as [f|].
  - destruct (getattr c f); intros H; injection H as <-; [lia|].
    apply filled_count_setattr.
  - destruct (attribute_of rt k); intros H; try discriminate H;
      injection H as <-; lia.
Qed.

(** The loop only fills fields, also when it raises. *)
Lemma merged_count (ex : list (str * json)) :
  forall c,
    length (get_filled_fields c)
    <= length (get_filled_fields (merged rt ex c)).
Proof.
  unfold merged.
  induction ex as [|item ex IH]; intros c; cbn [merge_extracted snd]; [lia|].
  destruct (merge_item rt c item) as [c'|] eqn:E; [|cbn [snd]; lia].
  etransitivity; [apply (@merge_item_count c c' item E)|apply IH].
Qed.

Lemma run_messages_count (ms : list str) :
  forall s,
    length (get_filled_fields (candidate s))
    <= length (get_filled_fields
                 (candidate (run_messages rt prompts provider ms s))).
Proof.
  induction ms as [|m ms IH]; intros s; cbn [run_messages fold_left]; [lia|].
  etransitivity; [|apply IH].
  destruct (process_message_candidate rt prompts provider m s) as [->|[ex ->]];
    [lia|apply merged_count].
Qed.

(** X19: Over any messages the profile only fills up: the number of
    filled fields and the completion percentage never decrease, and a
    complete profile stays complete. *)
Theorem completion_never_decreases (ms : list str) (s : ConversationManager) :
  let s' := run_messages rt prompts provider ms s in
  length (get_filled_fields (candidate s))
  <= length (get_filled_fields (candidate s'))
  /\ (get_completion_percentage (candidate s)
      <= get_completion_percentage (candidate s'))%Z
  /\ (is_complete (candidate s) = true -> is_complete (candidate s') = true).
Proof.
  cbv zeta. pose proof (run_messages_count ms s) as Hcount.
  split_all.
  - exact Hcount.
  - rewrite !percentage_of_count. apply Z.div_le_mono; lia.
  - rewrite !complete_iff_count. intros H.
    pose proof (filled_count_le
                  (candidate (run_messages rt prompts provider ms s))).
    lia.
Qed.

(** *** Turns that stay in their phase *)



(** X21: In the questions and answering phases a message without
    exit intent is answered from the whole transcript, the new message
    included, however long it is; the phase, the profile, the flag and the
    stored questions stay as they are. *)
Theorem tech_turn_forwards_transcript
    (user_message : str) (s : ConversationManager)
    (Hphase : state s = TECH_QUESTIONS \/ state s = ANSWERING_QUESTIONS)
    (Hstay : check_exit_intent (str_lower rt) (sanitize_input user_message)
               EXIT_KEYWORDS = false) :
  let text := sanitize_input user_message in
  let s1 := turn_start rt prompts provider user_message s in
  let rq := tech_request s1 in
  let response := reply provider (llm s1) rq in
  process_message rt prompts provider user_message s
  = (Returns (response, current_sentiment s1),
     Manager (log (llm s1) rq) (state s) (candidate s)
       (messages s ++ [Msg user text; Msg assistant response])
       (technical_questions_asked s) (current_sentiment s1)
       (raw_tech_questions s))
  /\ rq_messages rq
     = with_system (system_prompt_of rt prompts s)
         (messages s ++ [Msg user text]).
Proof.
  cbv zeta.
  rewrite (@process_message_run rt prompts provider user_message s Hstay).
  destruct (turn_start_eq rt prompts provider user_message s)
    as (label & _ & Hs1).
  set (s1 := turn_start rt prompts provider user_message s) in *.
  assert (handler_of rt prompts provider (state s)
            (sanitize_input user_message) s1
          = _handle_tech_interaction rt prompts provider
              (sanitize_input user_message) s1) as ->
    by (destruct Hphase as [-> | ->]; reflexivity).
  rewrite _handle_tech_interaction_exact.
  clearbody s1. subst s1. split.
  - cbv beta iota delta
      [append_message set_state set_candidate set_llm llm state candidate
       messages technical_questions_asked current_sentiment raw_tech_questions].
    rewrite <- app_assoc. reflexivity.
  - reflexivity.
Qed.

(** *** The merged profile, field by field *)







(** *** The mood call *)

(** X23: [analyze_sentiment] makes one request, whatever comes
    back: the filled-in prompt as the only message, no system message,
    temperature 0.3 and 100 tokens at most. When the reply, trimmed, does
    not parse to a JSON object (as when the provider is down and the
    apology comes back) the result is neutral with confidence 0.5; when it
    parses to an object without a "sentiment" entry the label is neutral. *)
Theorem analyze_sentiment_falls_back
    (message : str) (template : str -> str) (l : LLMClient) :
  let rq := Build_Request (model l) [Msg user (template message)]
              (3 # 10)%Q 100%N in
  let response := reply provider l rq in
  snd (analyze_sentiment rt provider message template l) = log l rq
  /\ ((forall data, json_loads rt (strip response) <> Some (JObj data)) ->
      fst (analyze_sentiment rt provider message template l)
      = neutral_sentiment)
  /\ (forall data,
        json_loads rt (strip response) = Some (JObj data) ->
        dict_get (py "sentiment") data = None ->
        sentiment (fst (analyze_sentiment rt provider message template l))
        = py "neutral").
Proof.
  cbv zeta. unfold analyze_sentiment.
  rewrite get_chat_response_run. cbn [nonempty app fst snd].
  set (rq := Build_Request (model l) [Msg user (template message)]
               (3 # 10)%Q 100%N).
  split_all.
  - reflexivity.
  - intros Hno.
    destruct (json_loads rt (strip (reply provider l rq)))
      as [[| | | | |data]|]; try reflexivity.
    contradiction (Hno data). reflexivity.
  - intros data Hd Hs. rewrite Hd. unfold dict_get_default at 1. rewrite Hs.
    destruct (as_float rt _); reflexivity.
Qed.

(** X24: A gathering turn on an incomplete profile whose reply holds
    no brace changes neither the phase nor the profile: the reply is
    returned cleaned, both entries go to the transcript, and the mood
    request and the gathering request are the only ones made. *)
Theorem gathering_without_block_stalls
    (user_message : str) (s : ConversationManager)
    (Hphase : state s = GATHERING_INFO)
    (Hpending : is_complete (candidate s) = false)
    (Hstay : check_exit_intent (str_lower rt) (sanitize_input user_message)
               EXIT_KEYWORDS = false) :
  let s1 := turn_start rt prompts provider user_message s in
  let r := reply provider (llm s1) (gathering_request rt prompts s1) in
  let response := strip_json_from_response r in
  Forall (fun c => no_brace c = true) r ->
  process_message rt prompts provider user_message s
  = (Returns (response, current_sentiment s1),
     Manager (log (llm s1) (gathering_request rt prompts s1)) GATHERING_INFO
       (candidate s)
       (messages s ++ [Msg user (sanitize_input user_message);
                       Msg assistant response])
       (technical_questions_asked s) (current_sentiment s1)
       (raw_tech_questions s)).
Proof.
  intros s1 r response Hb.
  rewrite (@process_message_run rt prompts provider user_message s Hstay).
  fold s1. rewrite Hphase. cbn [handler_of].
  rewrite _handle_info_gathering_run. fold r.
  assert (extract_json_from_response rt r = None) as Hnone.
  { unfold extract_json_from_response.
    rewrite (@search_without_braces r RE_FENCED_GROUP Hb)
      by (left; reflexivity).
    rewrite (@search_without_braces r RE_RAW Hb) by (right; reflexivity).
    reflexivity. }
  rewrite (@absorb_none rt r _ Hnone).
  assert (candidate s1 = candidate s) as Hc by apply turn_start_candidate.
  assert (state s1 = GATHERING_INFO) as Hs
    by (unfold s1; rewrite turn_start_state; exact Hphase).
  rewrite conclude_unchanged
    by (cbn [candidate state set_llm]; rewrite ?Hc; assumption).
  fold response.
  destruct (turn_start_eq rt prompts provider user_message s)
    as (label & _ & Hs1).
  fold s1 in Hs1. clearbody s1. subst s1.
  unfold append_message, set_llm.
  cbn [llm state candidate messages technical_questions_asked
       current_sentiment raw_tech_questions].
  rewrite Hphase, <- app_assoc. reflexivity.
Qed.

End EngineCourse.

(* ===================================================================== *)
(** ** The further properties on the sample data *)
(* ===================================================================== *)

Lemma strip_json_plain_reply_witness :
  strip_json_from_response
    (py "  Hello Ann," ++ [LF; LF] ++ py "nice to meet you. ")
  = py "Hello Ann," ++ [LF; LF] ++ py "nice to meet you.".
Proof.
  rewrite strip_json_plain_reply.
  - vm_compute. reflexivity.
  - repeat constructor.
  - apply blank_free_spec. vm_compute. reflexivity.
Defined.

Lemma answering_reachable :
  reachable sample_python sample_prompts provider_sample answering.
Proof.
  apply reach_message. apply greeted_reachable. intros rq. reflexivity.
Qed.

Lemma reachable_phases_witness :
  state answering = ANSWERING_QUESTIONS
  /\ technical_questions_asked answering = true.
Proof.
  destruct (@reachable_phases sample_python sample_prompts provider_sample
              answering answering_reachable) as (_ & _ & Hlate).
  assert (state answering = ANSWERING_QUESTIONS) as Hphase
    by (vm_compute; reflexivity).
  split; [exact Hphase|exact (Hlate Hphase)].
Defined.

Lemma questions_generated_once_witness :
  let s' := run_messages sample_python sample_prompts provider_sample
              [py "It calls itself."; py "bye"] answering in
  technical_questions_asked s' = true
  /\ raw_tech_questions s' = sample_questions.
Proof.
  cbv zeta.
  assert (technical_questions_asked answering = true) as Hasked
    by (vm_compute; reflexivity).
  destruct (@questions_generated_once sample_python sample_prompts
              provider_sample [py "It calls itself."; py "bye"] answering
              Hasked) as (Hflag & Hraw & _).
  split; [exact Hflag|]. rewrite Hraw. vm_compute. reflexivity.
Defined.



Lemma tech_turn_forwards_transcript_witness :
  let s' := after (process_message sample_python sample_prompts
                     provider_sample (py "It calls itself.")) answering in
  state s' = ANSWERING_QUESTIONS
  /\ map role (messages s') = [assistant; user; assistant; user; assistant]
  /\ map role (rq_messages
                 (tech_request sample_python sample_prompts
                    (turn_start sample_python sample_prompts provider_sample
                       (py "It calls itself.") answering)))
     = [system; assistant; user; assistant; user].
Proof.
  cbv zeta.
  assert (state answering = TECH_QUESTIONS
          \/ state answering = ANSWERING_QUESTIONS) as Hphase
    by (right; vm_compute; reflexivity).
  assert (check_exit_intent (str_lower sample_python)
            (sanitize_input (py "It calls itself.")) EXIT_KEYWORDS = false)
    as Hstay by (vm_compute; reflexivity).
  pose proof (@tech_turn_forwards_transcript sample_python sample_prompts
                provider_sample (py "It calls itself.") answering
                Hphase Hstay) as Hw.
  cbv zeta in Hw. destruct Hw as [Hrun Hrq].
  unfold after. rewrite Hrun, Hrq.
  split_all; vm_compute; reflexivity.
Defined.

Lemma gathering_without_block_stalls_witness :
  let s' := after (process_message sample_python sample_prompts
                     provider_down (py "hello")) greeted in
  state s' = GATHERING_INFO
  /\ candidate s' = empty_candidate
  /\ map role (messages s') = [assistant; user; assistant]
  /\ length (requests (llm s')) = 3.
Proof.
  cbv zeta.
  assert (state greeted = GATHERING_INFO) as Hphase by reflexivity.
  assert (is_complete (candidate greeted) = false) as Hpending by reflexivity.
  assert (check_exit_intent (str_lower sample_python)
            (sanitize_input (py "hello")) EXIT_KEYWORDS = false) as Hstay
    by (vm_compute; reflexivity).
  pose proof (@gathering_without_block_stalls sample_python sample_prompts
                provider_down (py "hello") greeted Hphase Hpending Hstay)
    as Hw.
  cbv zeta in Hw.
  unfold after. rewrite Hw.
  - split_all; vm_compute; reflexivity.
  - assert (reply provider_down
              (llm (turn_start sample_python sample_prompts provider_down
                      (py "hello") greeted))
              (gathering_request sample_python sample_prompts
                 (turn_start sample_python sample_prompts provider_down
                    (py "hello") greeted))
            = APOLOGY) as -> by reflexivity.
    repeat constructor.
Defined.
